(** * Class I icosahedral truncations: a model of [icosa_truncations.cpp]

    The program computes vertex positions of class I geodesic subdivisions
    of an icosahedron face.  This development embeds the core routines of
    the source file and states the properties its specification claims.

    Two numeric models are used, chosen by what the source computes with.

    - The constraint solver [build_loop] uses only IEEE-754 arithmetic on
      [double] (add, subtract, multiply, divide, [fabs], comparisons).
      Rocq's primitive floats are binary64 with round-to-nearest-even, so
      module [Solver] models it bit for bit, NaN included, and its
      definitions run under [vm_compute].

    - The geometry (matrices, coordinate conversion, the spherical
      triangle solver, vertex replication) calls the C math library
      ([sin], [cos], [tan], [asin], [acos], [atan], [sqrt]), whose results
      the language does not fix bit for bit.  It is modelled in exact real
      arithmetic: a [double] is a real number, the library functions are
      the real functions of the same name.  Rounding, overflow, infinities
      and NaN are outside this model; a division by zero yields [0] as in
      the Standard Library's reals.  The calls of [asin] and [acos] made by
      the triangle solver are logged with their arguments, since C defines
      them only on [[-1,1]].

    Arrays ([double m[16]], [p[6]], [sc[6]], [v[20]], [subface[6]]) are
    maps from an index to a cell, written with [store]; a program state
    left uninitialised by [main] is then an arbitrary value of type
    [PROGRAM], and what a routine reads from uninitialised automatic
    storage is a parameter of the model.  A function with an output
    parameter takes the old contents and returns the new.

    The solution and output routines also print and write a geometry
    file.  They run in a writer monad over the events [printf],
    [fopen_s], [fprintf], [fclose] and the logged library calls; whether
    a file opens is a parameter of the model.  The solutions that drive
    [build_loop] with the build functions mix the two numeric models and
    are not embedded; the build functions themselves are.

    Part I and Part II hold the definitions, Part III and Part IV the
    properties: of the geometry, then of the solver. *)

From Stdlib Require Import Reals Lra Lia ZArith List Bool RNsatz.
From Stdlib Require Floats String.
Import ListNotations.

Set Warnings "-inexact-float".

(* ================================================================== *)
(** * Part I.  The constraint solver on IEEE binary64                  *)
(* ================================================================== *)

Module Solver.

Import Floats.
Local Open Scope float_scope.

(** [#define DTR( degree ) ( ( degree ) * 0.01745329251994329576923690768489 )] *)
Definition DTR (degree : float) : float :=
  degree * 0.01745329251994329576923690768489.

(** C's [x > y] on doubles is IEEE greater-than: [y < x], false on NaN. *)
Definition gtb (x y : float) : bool := y <? x.

Definition fabs (x : float) : float := abs x.

(** [typedef double BUILD(double *seed, void *var)].  The callee receives the
    address of the seed and of the caller's state: it returns the
    residual together with the seed and the state it leaves behind. *)
Definition BUILD (S : Type) : Type := float -> S -> float * float * S.

(** The local structure [prob] of [build_loop]. *)
Record PROB : Type := mkPROB {
  delta : float;
  tolerance : float;
  loop : Z;
  lastdiff : float;
  dir : Z
}.

(** What the function prints: the only [printf] is the cap diagnostic
    ["NOTE:inner_loop_exceeded max, current_diff= %10.8f\n"]. *)
Inductive output : Type :=
| NOTE_inner_loop_exceeded_max (current_diff : float).

(** The variables live across iterations of [while (1)]. *)
Record world (S : Type) : Type := mkWorld {
  w_prob : PROB;
  w_seed : float;
  w_var : S
}.
Arguments mkWorld {S}.
Arguments w_prob {S}.
Arguments w_seed {S}.
Arguments w_var {S}.

(** What a caller observes when [build_loop] returns: the returned value,
    the final [*seed] and state, and the text printed.  [calls] is the
    value of [prob.loop] at exit, the number of invocations of the build
    function; the source does not return it, it is kept for the theorems. *)
Record outcome (S : Type) : Type := mkOutcome {
  result : float;
  seed_out : float;
  var_out : S;
  printed : list output;
  calls : Z
}.
Arguments mkOutcome {S}.
Arguments result {S}.
Arguments seed_out {S}.
Arguments var_out {S}.
Arguments printed {S}.
Arguments calls {S}.

Inductive step (S : Type) : Type :=
| Return (o : outcome S)
| Continue (w : world S).
Arguments Return {S}.
Arguments Continue {S}.

(** The seed and step-size update, source lines 789-840: the new [*seed]
    and the new [prob.delta]. *)
Definition update (diff : float) (prob : PROB) (seed : float) : float * float :=
  if gtb diff 0.0 then
    if gtb (lastdiff prob) 0.0 then
      if diff <? lastdiff prob then
        (seed + delta prob, delta prob)
      else
        let seed := seed - delta prob in
        let d := delta prob * -1 in
        (seed + d, d)
    else if lastdiff prob <? 0.0 then
      let seed := seed - delta prob in
      let d := delta prob / -2.0 in
      (seed + d, d)
    else
      (seed + delta prob, delta prob)
  else if diff <? 0.0 then
    if lastdiff prob <? 0.0 then
      if gtb diff (lastdiff prob) then
        (seed + delta prob, delta prob)
      else
        let seed := seed - delta prob in
        let d := delta prob * -1 in
        (seed + d, d)
    else if gtb (lastdiff prob) 0.0 then
      let seed := seed - delta prob in
      let d := delta prob / -2.0 in
      (seed + d, d)
    else
      (seed + delta prob, delta prob)
  else
    (seed, delta prob).

(** The world at the end of an iteration that neither returns nor
    breaks: counter incremented, function called, seed and step updated,
    [prob.lastdiff = diff]. *)
Definition next_world {S : Type} (buildFunction : BUILD S) (w : world S) : world S :=
  let prob := w_prob w in
  let '(diff, seed, var) := buildFunction (w_seed w) (w_var w) in
  let '(seed', delta') := update diff prob seed in
  mkWorld (mkPROB delta' (tolerance prob) (loop prob + 1) diff (dir prob)) seed' var.

(** One iteration of the body of [while (1)], source lines 768-841. *)
Definition loop_body {S : Type} (buildFunction : BUILD S) (max : Z) (w : world S) : step S :=
  let prob := w_prob w in
  let loop' := (loop prob + 1)%Z in
  let '(diff, seed, var) := buildFunction (w_seed w) (w_var w) in
  if (loop' =? max)%Z then
    Return (mkOutcome (-1.0) seed var [NOTE_inner_loop_exceeded_max diff] loop')
  else if fabs diff <=? tolerance prob then
    Return (mkOutcome (fabs diff) seed var [] loop')
  else
    Continue (next_world buildFunction w).

(** [while (1) { ... }]: the loop has no bound of its own, so the model
    takes fuel; [None] is "still running when the fuel ran out". *)
Fixpoint while_1 {S : Type} (fuel : nat) (buildFunction : BUILD S) (max : Z)
  (w : world S) : option (outcome S) :=
  match fuel with
  | O => None
  | Datatypes.S fuel' =>
      match loop_body buildFunction max w with
      | Return o => Some o
      | Continue w' => while_1 fuel' buildFunction max w'
      end
  end.

(** The world on entry to the loop, source lines 745-763. *)
Definition initial_world {S : Type} (seed r_zero : float) (var : S) : world S :=
  let inc := DTR 0.5 in
  let zero := r_zero in
  mkWorld (mkPROB inc zero 0 0 1) seed var.

(** [double build_loop(BUILD *buildFunction, double *seed, double r_zero, void *var)] *)
Definition build_loop {S : Type} (fuel : nat) (buildFunction : BUILD S)
  (seed r_zero : float) (var : S) : option (outcome S) :=
  let max := 200%Z in
  while_1 fuel buildFunction max (initial_world seed r_zero var).

(** The call sites pass the tolerance [0.00000000001]. *)
Definition call_site_tolerance : float := 0.00000000001.

(** ** Notions used to state the solver's properties *)

(** The world before the [(k+1)]-th invocation, had no earlier iteration
    left the loop. *)
Fixpoint world_at {S : Type} (buildFunction : BUILD S) (w : world S) (k : nat) : world S :=
  match k with
  | O => w
  | Datatypes.S k' => next_world buildFunction (world_at buildFunction w k')
  end.

(** The residual the build function returns when invoked in world [w]. *)
Definition residual {S : Type} (buildFunction : BUILD S) (w : world S) : float :=
  fst (fst (buildFunction (w_seed w) (w_var w))).

(** The convergence test [fabs(diff) <= prob.tolerance] of that call. *)
Definition within_tolerance {S : Type} (buildFunction : BUILD S) (w : world S) : bool :=
  fabs (residual buildFunction w) <=? tolerance (w_prob w).

(** The test's outcome at the [n]-th invocation (counted from 1) of a run
    from the initial world. *)
Definition converged_at {S : Type} (buildFunction : BUILD S)
  (seed r_zero : float) (var : S) (n : nat) : bool :=
  within_tolerance buildFunction
    (world_at buildFunction (initial_world seed r_zero var) (n - 1)).

(** The residual of the [n]-th invocation of that run. *)
Definition residual_at {S : Type} (buildFunction : BUILD S)
  (seed r_zero : float) (var : S) (n : nat) : float :=
  residual buildFunction
    (world_at buildFunction (initial_world seed r_zero var) (n - 1)).

(** The synthetic residual [f(x) = x - 1.2345]; it keeps no state. *)
Definition synthetic : BUILD unit :=
  fun seed var => (seed - 1.2345, seed, var).

(** A build function with a call counter behind [var]: the residual is
    [1.0] on the first 199 invocations and [0.0] from the 200th on. *)
Definition late_zero : BUILD Z :=
  fun seed n => (if (n <? 199)%Z then 1.0 else 0.0, seed, (n + 1)%Z).

(** A build function whose residual is zero at once. *)
Definition already_solved : BUILD unit :=
  fun seed var => (0.0, seed, var).

(** "Well under" a cap, read generously: at least a tenth of the cap is
    left unused. *)
Definition well_under (n cap : Z) : Prop := (10 * n <= 9 * cap)%Z.

End Solver.

(* ================================================================== *)
(** * Part II.  The geometry in exact real arithmetic                  *)
(* ================================================================== *)

Local Open Scope R_scope.

(** ** Arrays, loops, comparisons *)

(** A C array is a map from index to cell; [store] is [arr[i] = x]. *)
Definition array (T : Type) : Type := nat -> T.

Definition store {T : Type} (arr : array T) (i : nat) (x : T) : array T :=
  fun k => if Nat.eqb k i then x else arr k.
Arguments store {T} arr i%_nat x.

(** The array seen through the pointer [&arr[base]]. *)
Definition offset {T : Type} (base : nat) (arr : array T) : array T :=
  fun k => arr (base + k)%nat.

(** [arr] after a callee that was handed [&arr[base]] left [view] there. *)
Definition unoffset {T : Type} (base : nat) (arr view : array T) : array T :=
  fun k => if Nat.ltb k base then arr k else view (k - base)%nat.

(** [for (i = first; i < first + count; ++i) body], threading the state. *)
Fixpoint for_count {S : Type} (count first : nat) (body : nat -> S -> S) (s : S) : S :=
  match count with
  | O => s
  | Datatypes.S count' => for_count count' (Datatypes.S first) body (body first s)
  end.

(** [for (i = lo; i < hi; ++i) body] *)
Definition for_range {S : Type} (lo hi : nat) (body : nat -> S -> S) (s : S) : S :=
  for_count (hi - lo) lo body s.

Definition Rltb (x y : R) : bool := if Rlt_dec x y then true else false.
Definition Rleb (x y : R) : bool := if Rle_dec x y then true else false.
Definition Rgtb (x y : R) : bool := Rltb y x.

(** ** Macros and data *)

(** [#define DTR( degree ) ( ( degree ) * 0.01745329251994329576923690768489 )] *)
Definition DTR (degree : R) : R := degree * 0.01745329251994329576923690768489.

(** [#define RTD( degree ) ( ( degree ) * 57.295779513082320876798154814105 )] *)
Definition RTD (degree : R) : R := degree * 57.295779513082320876798154814105.

(** [SPH_TRI { double a, b, c, A, B, C; }]: the fields carry the prefix
    [tri_], since Rocq would confuse [a] and [A] with variables. *)
Record SPH_TRI : Type := mkSPH_TRI {
  tri_a : R; tri_b : R; tri_c : R; tri_A : R; tri_B : R; tri_C : R
}.

(** [GUT_POINT { double x, y, z, w; }] *)
Record GUT_POINT : Type := mkPOINT { px : R; py : R; pz : R; pw : R }.

(** [GUT_VECTOR { double i, j, k, l; }] *)
Record GUT_VECTOR : Type := mkVECTOR { vi : R; vj : R; vk : R; vl : R }.

(** [GUT_SPHERICAL_COORD { double radius, azimuth, inclination; }] *)
Record GUT_SPHERICAL_COORD : Type := mkSC { radius : R; azimuth : R; inclination : R }.

(** [VERTEX { GUT_POINT p[6]; GUT_SPHERICAL_COORD sc[6]; }] *)
Record VERTEX : Type := mkVERTEX {
  v_p : array GUT_POINT;
  v_sc : array GUT_SPHERICAL_COORD
}.

(** [double m[16]], row-major. *)
Definition matrix : Type := array R.

Definition cell (m : matrix) (i : nat) : R := m i.
Arguments cell m i%_nat.
Notation "m .[ i ]" := (cell m i) (at level 1, left associativity, format "m .[ i ]").

(** [SUBFACE { struct { double m[16]; } sub[6]; }] *)
Record SUBFACE : Type := mkSUBFACE { sub : array matrix }.

(** The member [face] of [PROGRAM]. *)
Record FACE : Type := mkFACE {
  tm : matrix; tmt : matrix;
  m0 : matrix; mt0 : matrix;
  m1 : matrix; mt1 : matrix;
  m2 : matrix; mt2 : matrix
}.

(** [PROGRAM { face; SUBFACE subface[6]; SPH_TRI ref; VERTEX v[20]; }] *)
Record PROGRAM : Type := mkPROGRAM {
  pgm_face : FACE;
  pgm_subface : array SUBFACE;
  pgm_ref : SPH_TRI;
  pgm_v : array VERTEX
}.

(** The casts [(GUT_VECTOR* )] and back read the same four doubles. *)
Definition vector_of_point (p : GUT_POINT) : GUT_VECTOR :=
  mkVECTOR (px p) (py p) (pz p) (pw p).
Definition point_of_vector (v : GUT_VECTOR) : GUT_POINT :=
  mkPOINT (vi v) (vj v) (vk v) (vl v).
Definition as_vectors (a : array GUT_POINT) : array GUT_VECTOR :=
  fun k => vector_of_point (a k).
Definition as_points (a : array GUT_VECTOR) : array GUT_POINT :=
  fun k => point_of_vector (a k).

(** [pgm->subface[i].sub[j].m] and the assignment to it. *)
Definition subm (pgm : PROGRAM) (i j : nat) : matrix := sub (pgm_subface pgm i) j.

Definition with_subm (pgm : PROGRAM) (i j : nat) (m : matrix) : PROGRAM :=
  mkPROGRAM (pgm_face pgm)
    (store (pgm_subface pgm) i (mkSUBFACE (store (sub (pgm_subface pgm i)) j m)))
    (pgm_ref pgm) (pgm_v pgm).

Definition with_face (pgm : PROGRAM) (f : FACE) : PROGRAM :=
  mkPROGRAM f (pgm_subface pgm) (pgm_ref pgm) (pgm_v pgm).

Definition with_vertex (pgm : PROGRAM) (v : nat) (vx : VERTEX) : PROGRAM :=
  mkPROGRAM (pgm_face pgm) (pgm_subface pgm) (pgm_ref pgm) (store (pgm_v pgm) v vx).

(** [memcpy(dst, src, sizeof(double) * n)] *)
Definition memcpy (dst src : matrix) (n : nat) : matrix :=
  fun k => if Nat.ltb k n then src k else dst k.

Section Geometry.

(** What a read of uninitialised automatic storage yields.  The routines
    below leave some members of their locals unwritten ([w] of a point,
    [l] of a vector); every statement is for an arbitrary such value. *)
Variable indeterminate : R.

Definition indeterminate_point : GUT_POINT :=
  mkPOINT indeterminate indeterminate indeterminate indeterminate.
Definition indeterminate_vector : GUT_VECTOR :=
  mkVECTOR indeterminate indeterminate indeterminate indeterminate.
Definition indeterminate_matrix : matrix := fun _ => indeterminate.

(** ** Vectors and coordinate conversion *)

(** [gut_vector(a, b, v)]: [v->l] is left as it was. *)
Definition gut_vector (a b : GUT_POINT) (v : GUT_VECTOR) : GUT_VECTOR :=
  mkVECTOR (px b - px a) (py b - py a) (pz b - pz a) (vl v).

Definition gut_normalize_vector (v : GUT_VECTOR) : GUT_VECTOR :=
  let distance := sqrt (vi v * vi v + vj v * vj v + vk v * vk v) in
  mkVECTOR (vi v / distance) (vj v / distance) (vk v / distance) (vl v).

(** [gut_cross_product(a, b, c)]: [c->l] is left as it was. *)
Definition gut_cross_product (a b c : GUT_VECTOR) : GUT_VECTOR :=
  mkVECTOR (vj a * vk b - vk a * vj b)
           (vk a * vi b - vi a * vk b)
           (vi a * vj b - vj a * vi b)
           (vl c).

(** [gut_spherical_to_cartesian(sc, p)]: [p->w] is left as it was. *)
Definition gut_spherical_to_cartesian (sc : GUT_SPHERICAL_COORD) (p : GUT_POINT) : GUT_POINT :=
  mkPOINT (radius sc * sin (inclination sc) * cos (azimuth sc))
          (radius sc * sin (inclination sc) * sin (azimuth sc))
          (radius sc * cos (inclination sc))
          (pw p).

(** The local [double ZERO = 0.00000000000001] of the converter. *)
Definition ZERO : R := 0.00000000000001.

(** [gut_cartesian_to_spherical(p, s)]: the new contents of [*s]. *)
Definition gut_cartesian_to_spherical (p : GUT_POINT) (s : GUT_SPHERICAL_COORD)
  : GUT_SPHERICAL_COORD :=
  let s := mkSC (sqrt (px p * px p + py p * py p + pz p * pz p)) (azimuth s) (inclination s) in
  if Rgtb (Rabs (radius s)) ZERO then
    let s := mkSC (radius s) (azimuth s) (acos (pz p / radius s)) in
    if Rleb (Rabs (px p)) ZERO then
      if Rleb (Rabs (py p)) ZERO then
        mkSC (radius s) 0 (inclination s)
      else if Rgtb (py p) 0 then
        mkSC (radius s) (DTR 90) (inclination s)
      else
        mkSC (radius s) (DTR (-90)) (inclination s)
    else if Rgtb (px p) 0 then
      if Rleb (Rabs (py p)) ZERO then
        mkSC (radius s) 0 (inclination s)
      else if Rgtb (py p) 0 then
        mkSC (radius s) (atan (py p / px p)) (inclination s)
      else
        mkSC (radius s) (atan (py p / px p)) (inclination s)
    else
      if Rleb (Rabs (py p)) ZERO then
        mkSC (radius s) (DTR 180) (inclination s)
      else if Rgtb (py p) 0 then
        mkSC (radius s) (DTR 180 + atan (py p / px p)) (inclination s)
      else
        mkSC (radius s) (DTR (-180) + atan (py p / px p)) (inclination s)
  else
    s.

(** ** The linear-algebra kernel *)

Definition mtx_set_unity (m : matrix) : matrix :=
  let m := store (store (store (store m 3 0) 2 0) 1 0) 0 0 in
  let m := store (store (store (store m 7 0) 6 0) 5 0) 4 0 in
  let m := store (store (store (store m 11 0) 10 0) 9 0) 8 0 in
  let m := store (store (store (store m 15 0) 14 0) 13 0) 12 0 in
  let m := store (store (store (store m 15 1) 10 1) 5 1) 0 1 in
  m.

Definition mtx_create_scale_matrix (m : matrix) (x y z : R) : matrix :=
  let m := mtx_set_unity m in
  let m := store m 0 x in
  let m := store m 5 y in
  let m := store m 10 z in
  m.

Definition mtx_transpose_matrix (m : matrix) : matrix :=
  for_range 0 4 (fun r m =>
    for_range (r + 1) 4 (fun c m =>
      let fr := (r * 4 + c)%nat in
      let to := (c * 4 + r)%nat in
      let temp := m.[to] in
      let m := store m to m.[fr] in
      let m := store m fr temp in
      m) m) m.

(** [mtx_multiply_matrix(a, b, c)]: the new contents of [c].  The call
    sites never pass a [c] that overlaps [a] or [b]. *)
Definition mtx_multiply_matrix (a b c : matrix) : matrix :=
  (* row 1 *)
  let c := store c 0 (a.[0] * b.[0] + a.[1] * b.[4] + a.[2] * b.[8] + a.[3] * b.[12]) in
  let c := store c 1 (a.[0] * b.[1] + a.[1] * b.[5] + a.[2] * b.[9] + a.[3] * b.[13]) in
  let c := store c 2 (a.[0] * b.[2] + a.[1] * b.[6] + a.[2] * b.[10] + a.[3] * b.[14]) in
  let c := store c 3 (a.[0] * b.[3] + a.[1] * b.[7] + a.[2] * b.[11] + a.[3] * b.[15]) in
  (* row 2 *)
  let c := store c 4 (a.[4] * b.[0] + a.[5] * b.[4] + a.[6] * b.[8] + a.[7] * b.[12]) in
  let c := store c 5 (a.[4] * b.[1] + a.[5] * b.[5] + a.[6] * b.[9] + a.[7] * b.[13]) in
  let c := store c 6 (a.[4] * b.[2] + a.[5] * b.[6] + a.[6] * b.[10] + a.[7] * b.[14]) in
  let c := store c 7 (a.[4] * b.[3] + a.[5] * b.[7] + a.[6] * b.[11] + a.[7] * b.[15]) in
  (* row 3 *)
  let c := store c 8 (a.[8] * b.[0] + a.[9] * b.[4] + a.[10] * b.[8] + a.[11] * b.[12]) in
  let c := store c 9 (a.[8] * b.[1] + a.[9] * b.[5] + a.[10] * b.[9] + a.[11] * b.[13]) in
  let c := store c 10 (a.[8] * b.[2] + a.[9] * b.[6] + a.[10] * b.[10] + a.[11] * b.[14]) in
  let c := store c 11 (a.[4] * b.[3] + a.[5] * b.[7] + a.[6] * b.[11] + a.[7] * b.[15]) in
  (* row 4 *)
  let c := store c 12 (a.[12] * b.[0] + a.[13] * b.[4] + a.[14] * b.[8] + a.[15] * b.[12]) in
  let c := store c 13 (a.[12] * b.[1] + a.[13] * b.[5] + a.[14] * b.[9] + a.[15] * b.[13]) in
  let c := store c 14 (a.[12] * b.[2] + a.[13] * b.[6] + a.[14] * b.[10] + a.[15] * b.[14]) in
  let c := store c 15 (a.[12] * b.[3] + a.[13] * b.[7] + a.[14] * b.[11] + a.[15] * b.[15]) in
  c.

(** The four assignments to [b[i]] (or [*b]) of [mtx_vec4_multiply]. *)
Definition vec4_times (a : GUT_VECTOR) (m : matrix) : GUT_VECTOR :=
  mkVECTOR
    (vi a * m.[0] + vj a * m.[4] + vk a * m.[8] + vl a * m.[12])
    (vi a * m.[1] + vj a * m.[5] + vk a * m.[9] + vl a * m.[13])
    (vi a * m.[2] + vj a * m.[6] + vk a * m.[10] + vl a * m.[14])
    (vi a * m.[3] + vj a * m.[7] + vk a * m.[11] + vl a * m.[15]).

(** [mtx_vec4_multiply(length, a, b, m)]: the new contents of [b]; the
    input [a] and the output [b] do not overlap at the call sites. *)
Definition mtx_vec4_multiply (length : Z) (a b : array GUT_VECTOR) (m : matrix)
  : array GUT_VECTOR :=
  if (length <? 1)%Z then
    b
  else if (length =? 1)%Z then
    store b 0 (vec4_times (a 0%nat) m)
  else
    for_range 0 (Z.to_nat length) (fun i b => store b i (vec4_times (a i) m)) b.

(** [#define MTX_ROTATE_X_AXIS 1], [..._Y_AXIS 2], [..._Z_AXIS 3] *)
Definition MTX_ROTATE_X_AXIS : Z := 1.
Definition MTX_ROTATE_Y_AXIS : Z := 2.
Definition MTX_ROTATE_Z_AXIS : Z := 3.

(** [mtx_create_rotation_matrix(m, axis, angle)]: a [switch] on [axis]
    with three cases and no default. *)
Definition mtx_create_rotation_matrix (m : matrix) (axis : Z) (angle : R) : matrix :=
  let m := mtx_set_unity m in
  if (axis =? MTX_ROTATE_X_AXIS)%Z then
    let c := cos angle in
    let s := sin angle in
    let m := store m 5 c in
    let m := store m 7 s in
    let m := store m 9 (- s) in
    let m := store m 10 c in
    m
  else if (axis =? MTX_ROTATE_Y_AXIS)%Z then
    let c := cos angle in
    let s := sin angle in
    let m := store m 0 c in
    let m := store m 2 (- s) in
    let m := store m 8 s in
    let m := store m 10 c in
    m
  else if (axis =? MTX_ROTATE_Z_AXIS)%Z then
    let c := cos angle in
    let s := sin angle in
    let m := store m 0 c in
    let m := store m 1 s in
    let m := store m 4 (- s) in
    let m := store m 5 c in
    m
  else
    m.

(** ** The symmetry transform builder *)

(** [build_rotation_matrix(x, y, z, m, mt)]: the new [m] and [mt]. *)
Definition build_rotation_matrix (x y z : GUT_VECTOR) (m mt : matrix) : matrix * matrix :=
  let m := store (store (store (store m 0 (vi x)) 1 (vi y)) 2 (vi z)) 3 0 in
  let m := store (store (store (store m 4 (vj x)) 5 (vj y)) 6 (vj z)) 7 0 in
  let m := store (store (store (store m 8 (vk x)) 9 (vk y)) 10 (vk z)) 11 0 in
  let m := store (store (store (store m 12 0) 13 0) 14 0) 15 1 in
  let mt := memcpy mt m 16 in
  let mt := mtx_transpose_matrix mt in
  (m, mt).

(** [build_a_transforms(pgm)], source lines 484-578: the 36 region-to-region
    matrices, written in the order of the source. *)
Definition build_a_transforms (pgm : PROGRAM) : PROGRAM :=
  let mm := indeterminate_matrix in
  let mx := indeterminate_matrix in
  let mx := mtx_create_scale_matrix mx (-1) 1 1 in
  let f := pgm_face pgm in
  (* 0 *)
  let pgm := with_subm pgm 0 0 (mtx_set_unity (subm pgm 0 0)) in
  let pgm := with_subm pgm 0 1 (mtx_multiply_matrix mx (mt1 f) (subm pgm 0 1)) in
  let pgm := with_subm pgm 0 2 (memcpy (subm pgm 0 2) (mt1 f) 16) in
  let pgm := with_subm pgm 0 3 (mtx_multiply_matrix mx (mt2 f) (subm pgm 0 3)) in
  let pgm := with_subm pgm 0 4 (memcpy (subm pgm 0 4) (mt2 f) 16) in
  let pgm := with_subm pgm 0 5 (memcpy (subm pgm 0 5) mx 16) in
  (* 1 *)
  let pgm := with_subm pgm 1 0 (mtx_multiply_matrix (m1 f) mx (subm pgm 1 0)) in
  let pgm := with_subm pgm 1 1 (mtx_set_unity (subm pgm 1 1)) in
  let mm := mtx_multiply_matrix (m1 f) mx mm in
  let pgm := with_subm pgm 1 2 (mtx_multiply_matrix mm (mt1 f) (subm pgm 1 2)) in
  let pgm := with_subm pgm 1 3 (mtx_multiply_matrix (m1 f) (mt2 f) (subm pgm 1 3)) in
  let pgm := with_subm pgm 1 4 (memcpy (subm pgm 1 4) mx 16) in
  let pgm := with_subm pgm 1 5 (memcpy (subm pgm 1 5) (m1 f) 16) in
  (* 2 *)
  let pgm := with_subm pgm 2 0 (memcpy (subm pgm 2 0) (m1 f) 16) in
  let mm := mtx_multiply_matrix (m1 f) mx mm in
  let pgm := with_subm pgm 2 1 (mtx_multiply_matrix mm (mt1 f) (subm pgm 2 1)) in
  let pgm := with_subm pgm 2 2 (mtx_set_unity (subm pgm 2 2)) in
  let pgm := with_subm pgm 2 3 (memcpy (subm pgm 2 3) mx 16) in
  let pgm := with_subm pgm 2 4 (mtx_multiply_matrix (m1 f) (mt2 f) (subm pgm 2 4)) in
  let pgm := with_subm pgm 2 5 (mtx_multiply_matrix (m1 f) mx (subm pgm 2 5)) in
  (* 3 *)
  let pgm := with_subm pgm 3 0 (mtx_multiply_matrix (m2 f) mx (subm pgm 3 0)) in
  let pgm := with_subm pgm 3 1 (mtx_multiply_matrix (m2 f) (mt1 f) (subm pgm 3 1)) in
  let pgm := with_subm pgm 3 2 (memcpy (subm pgm 3 2) mx 16) in
  let pgm := with_subm pgm 3 3 (mtx_set_unity (subm pgm 3 3)) in
  let mm := mtx_multiply_matrix (m2 f) mx mm in
  let pgm := with_subm pgm 3 4 (mtx_multiply_matrix mm (mt2 f) (subm pgm 3 4)) in
  let pgm := with_subm pgm 3 5 (memcpy (subm pgm 3 5) (m2 f) 16) in
  (* 4 *)
  let pgm := with_subm pgm 4 0 (memcpy (subm pgm 4 0) (m2 f) 16) in
  let pgm := with_subm pgm 4 1 (memcpy (subm pgm 4 1) mx 16) in
  let pgm := with_subm pgm 4 2 (mtx_multiply_matrix (m2 f) (mt1 f) (subm pgm 4 2)) in
  let mm := mtx_multiply_matrix (m2 f) mx mm in
  let pgm := with_subm pgm 4 3 (mtx_multiply_matrix mm (mt2 f) (subm pgm 4 3)) in
  let pgm := with_subm pgm 4 4 (mtx_set_unity (subm pgm 4 4)) in
  let pgm := with_subm pgm 4 5 (mtx_multiply_matrix (m2 f) mx (subm pgm 4 5)) in
  (* 5 *)
  let pgm := with_subm pgm 5 0 (memcpy (subm pgm 5 0) mx 16) in
  let pgm := with_subm pgm 5 1 (memcpy (subm pgm 5 1) (mt1 f) 16) in
  let pgm := with_subm pgm 5 2 (mtx_multiply_matrix mx (mt1 f) (subm pgm 5 2)) in
  let pgm := with_subm pgm 5 3 (memcpy (subm pgm 5 3) (mt2 f) 16) in
  let pgm := with_subm pgm 5 4 (mtx_multiply_matrix mx (mt2 f) (subm pgm 5 4)) in
  let pgm := with_subm pgm 5 5 (mtx_set_unity (subm pgm 5 5)) in
  pgm.

(** [subface_exchange(aSrc, aDst, pSrc, pDst, subface)]: the new [*pDst]. *)
Definition subface_exchange (aSrc aDst : nat) (pSrc pDst : array GUT_POINT)
  (subface : array SUBFACE) : array GUT_POINT :=
  as_points (mtx_vec4_multiply 1 (as_vectors pSrc) (as_vectors pDst)
               (sub (subface aSrc) aDst)).

(** [build_subface_transforms(pgm)], source lines 589-646.  The first
    block normalises [vz] twice and [vy] not after the second cross
    product, as the source does. *)
Definition build_subface_transforms (pgm : PROGRAM) : PROGRAM :=
  let p : array GUT_POINT := fun _ => indeterminate_point in
  let vx := indeterminate_vector in
  let vy := indeterminate_vector in
  let vz := indeterminate_vector in
  let p := store p 0 (mkPOINT 0.5 (- sqrt 3 / 6) 0 (pw (p 0%nat))) in
  let p := store p 1 (mkPOINT 0 (sqrt 3 / 3) 0 (pw (p 1%nat))) in
  let p := store p 2 (mkPOINT (-0.5) (- sqrt 3 / 6) 0 (pw (p 2%nat))) in
  let f := pgm_face pgm in
  (* z rotation matrix for 0 degrees and its transpose *)
  let vx := gut_vector (p 2%nat) (p 0%nat) vx in
  let vx := gut_normalize_vector vx in
  let vy := gut_vector (p 2%nat) (p 1%nat) vy in
  let vy := gut_normalize_vector vy in
  let vz := gut_cross_product vx vy vz in
  let vz := gut_normalize_vector vz in
  let vy := gut_cross_product vz vx vy in
  let vz := gut_normalize_vector vz in
  let '(m0', mt0') := build_rotation_matrix vx vy vz (m0 f) (mt0 f) in
  (* z rotation matrix for 120 degrees and its transpose *)
  let vx := gut_vector (p 0%nat) (p 1%nat) vx in
  let vx := gut_normalize_vector vx in
  let vy := gut_vector (p 0%nat) (p 2%nat) vy in
  let vy := gut_normalize_vector vy in
  let vz := gut_cross_product vx vy vz in
  let vz := gut_normalize_vector vz in
  let vy := gut_cross_product vz vx vy in
  let vy := gut_normalize_vector vy in
  let '(m1', mt1') := build_rotation_matrix vx vy vz (m1 f) (mt1 f) in
  (* z rotation matrix for 240 degrees and its transpose *)
  let vx := gut_vector (p 1%nat) (p 2%nat) vx in
  let vx := gut_normalize_vector vx in
  let vy := gut_vector (p 1%nat) (p 0%nat) vy in
  let vy := gut_normalize_vector vy in
  let vz := gut_cross_product vx vy vz in
  let vz := gut_normalize_vector vz in
  let vy := gut_cross_product vz vx vy in
  let vy := gut_normalize_vector vy in
  let '(m2', mt2') := build_rotation_matrix vx vy vz (m2 f) (mt2 f) in
  with_face pgm (mkFACE (tm f) (tmt f) m0' mt0' m1' mt1' m2' mt2').

(** [rotation_matrix_from_triangle(p0, p1, p2, mr, mrt)]: the new [mr]
    and [mrt].  The centre [t] is computed and not used. *)
Definition rotation_matrix_from_triangle (p0 p1 p2 : GUT_POINT) (mr mrt : matrix)
  : matrix * matrix :=
  let x := indeterminate_vector in
  let y := indeterminate_vector in
  let z := indeterminate_vector in
  let t := mkPOINT ((px p0 + px p1 + px p2) / 3) ((py p0 + py p1 + py p2) / 3)
                   ((pz p0 + pz p1 + pz p2) / 3) ((pw p0 + pw p1 + pw p2) / 3) in
  let x := gut_vector p2 p0 x in
  let y := gut_vector p2 p1 y in
  let x := gut_normalize_vector x in
  let y := gut_normalize_vector y in
  let z := gut_cross_product x y z in
  let z := gut_normalize_vector z in
  let y := gut_cross_product z x y in
  let y := gut_normalize_vector y in
  let mr := store (store (store (store mr 0 (vi x)) 1 (vi y)) 2 (vi z)) 3 0 in
  let mr := store (store (store (store mr 4 (vj x)) 5 (vj y)) 6 (vj z)) 7 0 in
  let mr := store (store (store (store mr 8 (vk x)) 9 (vk y)) 10 (vk z)) 11 0 in
  let mr := store (store (store (store mr 12 0) 13 0) 14 0) 15 1 in
  let mrt := memcpy mrt mr 16 in
  let mrt := mtx_transpose_matrix mrt in
  (mr, mrt).

(** [build_face_transforms(pgm)], source lines 649-683. *)
Definition build_face_transforms (pgm : PROGRAM) : PROGRAM :=
  let vtx : array GUT_POINT := fun _ => indeterminate_point in
  let sc := mkSC 1 0 (atan 2) in
  let vtx := store vtx 1 (gut_spherical_to_cartesian sc (vtx 1%nat)) in
  let sc := mkSC 1 (DTR (-36)) (DTR 180 - atan 2) in
  let vtx := store vtx 2 (gut_spherical_to_cartesian sc (vtx 2%nat)) in
  let sc := mkSC 1 (DTR 36) (DTR 180 - atan 2) in
  let vtx := store vtx 0 (gut_spherical_to_cartesian sc (vtx 0%nat)) in
  (* this point is not used *)
  let sc := mkSC 1 (DTR 72) (atan 2) in
  let vtx := store vtx 3 (gut_spherical_to_cartesian sc (vtx 3%nat)) in
  let f := pgm_face pgm in
  let '(tm', tmt') :=
    rotation_matrix_from_triangle (vtx 0%nat) (vtx 1%nat) (vtx 2%nat) (tm f) (tmt f) in
  with_face pgm (mkFACE tm' tmt' (m0 f) (mt0 f) (m1 f) (mt1 f) (m2 f) (mt2 f)).

(** ** The oblique spherical-triangle solver *)

(** C defines [asin] and [acos] on [[-1,1]] only (outside, a domain
    error and a NaN).  The solver therefore runs in a writer monad that
    records each such call with its argument; the value the model gives
    an out-of-domain call is the Standard Library's and means nothing. *)
Inductive libm_call : Type :=
| call_asin (x : R)
| call_acos (x : R).

Definition libm (A : Type) : Type := (A * list libm_call)%type.

Definition ret {A : Type} (a : A) : libm A := (a, []).

Definition bind {A B : Type} (m : libm A) (f : A -> libm B) : libm B :=
  let '(a, l1) := m in
  let '(b, l2) := f a in
  (b, l1 ++ l2).

Notation "x <- m ;; f" := (bind m (fun x => f))
  (at level 61, m at next level, right associativity).

Definition c_asin (x : R) : libm R := (asin x, [call_asin x]).
Definition c_acos (x : R) : libm R := (acos x, [call_acos x]).

(** A logged call is in the domain of its function. *)
Definition in_domain (c : libm_call) : Prop :=
  match c with
  | call_asin x => -1 <= x <= 1
  | call_acos x => -1 <= x <= 1
  end.

(** [asin_clamp(equation)]; the first [if] of the source has an empty
    body. *)
Definition asin_clamp (equation : R) : libm R :=
  let equation :=
    if Rgtb equation 1 then 1
    else if Rltb equation (-1) then -1
    else equation in
  c_asin equation.

(** [sph_tri_bcC(st)]: the new contents of [*st]. *)
Definition sph_tri_bcC (st : SPH_TRI) : libm SPH_TRI :=
  let b := tri_b st in
  let c := tri_c st in
  let C := tri_C st in
  if Rgtb b c && Rltb C (DTR 90) then
    (* complex case *)
    B <- c_asin (sin C * sin b / sin c) ;;
    let B2 := DTR 180 - B in
    let v := tan ((C - B) / 2) * sin ((c + b) / 2) / sin ((c - b) / 2) in
    let A := atan (1 / v) * 2 in
    let v := tan ((C - B2) / 2) * sin ((c + b) / 2) / sin ((c - b) / 2) in
    let A2 := atan (1 / v) * 2 in
    let '(A, B) := if Rltb A 0 then (A2, B2) else (A, B) in
    a <- c_asin (sin A * sin b / sin B) ;;
    ret (mkSPH_TRI a (tri_b st) (tri_c st) A B (tri_C st))
  else
    B <- asin_clamp (sin b * sin C / sin c) ;;
    (* Napier's Analogies *)
    let a := 2 * atan (tan ((b + c) / 2) * cos ((B + C) / 2) / cos ((B - C) / 2)) in
    A <- c_acos ((cos a - cos b * cos c) / (sin b * sin c)) ;;
    ret (mkSPH_TRI a (tri_b st) (tri_c st) A B (tri_C st)).

(** [vertex_by_strig(st, b, c, C, sc, p)], source lines 848-875: the new
    contents of [*st], [*sc] and [*p]. *)
Definition vertex_by_strig (st : SPH_TRI) (b c C : R) (sc : GUT_SPHERICAL_COORD)
  (p : GUT_POINT) : libm (SPH_TRI * GUT_SPHERICAL_COORD * GUT_POINT) :=
  let st := mkSPH_TRI 0 0 0 0 0 0 in
  let st := mkSPH_TRI (tri_a st) b c (tri_A st) (tri_B st) C in
  st <- sph_tri_bcC st ;;
  let sc := mkSC 1 (azimuth sc) (inclination sc) in
  let sc := mkSC (radius sc) (azimuth sc) (tri_c st) in
  let sc := mkSC (radius sc) (tri_A st) (inclination sc) in
  let p := gut_spherical_to_cartesian sc p in
  ret (st, sc, p).

(** ** The vertex generator *)

(** [generate_all_vertices(pgm, v, a)], source lines 429-465. *)
Definition generate_all_vertices (pgm : PROGRAM) (v a : nat) : PROGRAM :=
  let lp : array GUT_POINT := fun _ => indeterminate_point in
  let gp : array GUT_POINT := fun _ => indeterminate_point in
  (* get the known vertex in local space *)
  let lp := store lp a (v_p (pgm_v pgm v) a) in
  (* transform known point to global position based on its triangle *)
  let gp := unoffset a gp
              (as_points (mtx_vec4_multiply 1 (as_vectors (offset a lp))
                            (as_vectors (offset a gp)) (tm (pgm_face pgm)))) in
  (* in global position compute the symmetrical counterpart points *)
  let gp := for_range 0 6 (fun i gp =>
              if Nat.eqb a i then gp
              else unoffset i gp
                     (subface_exchange a i (offset a gp) (offset i gp) (pgm_subface pgm)))
              gp in
  (* transform points to local position based on its triangle *)
  let p' := as_points (mtx_vec4_multiply 6 (as_vectors gp)
                         (as_vectors (v_p (pgm_v pgm v))) (tmt (pgm_face pgm))) in
  let pgm := with_vertex pgm v (mkVERTEX p' (v_sc (pgm_v pgm v))) in
  (* recompute the spherical coordinates for local vertices *)
  for_range 0 6 (fun i pgm =>
    let vx := pgm_v pgm v in
    with_vertex pgm v
      (mkVERTEX (v_p vx)
         (store (v_sc vx) i (gut_cartesian_to_spherical (v_p vx i) (v_sc vx i)))))
    pgm.

(** [create_vertex_by_strig(pgm, v, a, b, c, C)], with the solver's log. *)
Definition create_vertex_by_strig (pgm : PROGRAM) (v a : nat) (b c C : R) : libm PROGRAM :=
  let st := mkSPH_TRI 0 0 0 0 0 0 in
  let st := mkSPH_TRI (tri_a st) b c (tri_A st) (tri_B st) C in
  st <- sph_tri_bcC st ;;
  let vx := pgm_v pgm v in
  let sc := mkSC 1 (tri_A st) (tri_c st) in
  (* compute the cartesian coordinates from the spherical coordinates *)
  let p := gut_spherical_to_cartesian sc (v_p vx a) in
  let pgm := with_vertex pgm v (mkVERTEX (store (v_p vx) a p) (store (v_sc vx) a sc)) in
  (* generate the same vertex in the other symmetrical positions *)
  ret (generate_all_vertices pgm v a).

(** [create_vertex_by_sc(pgm, v, a, azimuth, inclination)] *)
Definition create_vertex_by_sc (pgm : PROGRAM) (v a : nat) (azimuth inclination : R)
  : PROGRAM :=
  let vx := pgm_v pgm v in
  let sc := mkSC 1 azimuth inclination in
  let p := gut_spherical_to_cartesian sc (v_p vx a) in
  let pgm := with_vertex pgm v (mkVERTEX (store (v_p vx) a p) (store (v_sc vx) a sc)) in
  generate_all_vertices pgm v a.

(** [create_vertex_from_vertex(pgm, vd, ad, vs, as, b, C)] *)
Definition create_vertex_from_vertex (pgm : PROGRAM) (vd ad vs as_ : nat) (b C : R)
  : libm PROGRAM :=
  create_vertex_by_strig pgm vd ad b (inclination (v_sc (pgm_v pgm vs) as_)) C.

(** The start of [main], source lines 1704-1721: the three builders in
    order, then the reference triangle. *)
Definition main_setup (pgm : PROGRAM) : PROGRAM :=
  let pgm := build_face_transforms pgm in
  let pgm := build_subface_transforms pgm in
  let pgm := build_a_transforms pgm in
  let A := DTR 36 in
  let B := DTR 60 in
  let a := acos (cos A / sin B) in
  let b := acos (cos B / sin A) in
  let c := acos (1 / (tan A * tan B)) in
  mkPROGRAM (pgm_face pgm) (pgm_subface pgm)
    (mkSPH_TRI a b c A B (tri_C (pgm_ref pgm))) (pgm_v pgm).

(** ** Notions used to state the geometric properties *)

(** The point a matrix sends [p] to, as [subface_exchange] computes it. *)
Definition transform (m : matrix) (p : GUT_POINT) : GUT_POINT :=
  point_of_vector (vec4_times (vector_of_point p) m).

(** The Cartesian norm of a point. *)
Definition norm (p : GUT_POINT) : R :=
  sqrt (px p * px p + py p * py p + pz p * pz p).

(** The quantities of the two-solution case of [sph_tri_bcC], named as
    the specification names them: the candidate angle [B], its
    supplement, and the angle [A] that Napier's analogy gives for a
    candidate. *)
Definition candidate_B (b c C : R) : R := asin (sin C * sin b / sin c).

Definition supplement (B : R) : R := DTR 180 - B.

Definition napier_A (b c C B : R) : R :=
  atan (1 / (tan ((C - B) / 2) * sin ((c + b) / 2) / sin ((c - b) / 2))) * 2.

(** ** The solution routines *)

(** Besides computing, the routines below call the math library (through
    the triangle solver), print on [stdout] and write a geometry file.
    They run in a writer monad over these events.  A format is kept as
    the source writes it, escapes included; the doubles and strings a
    format consumes are its arguments. *)
Inductive arg : Type :=
| arg_double (x : R)
| arg_string (s : String.string).

Inductive effect : Type :=
| libm_effect (c : libm_call)
| printf (format : String.string) (args : list arg)
| fopen_s (filename mode : String.string)
| fprintf (format : String.string) (args : list arg)
| fclose.

Definition io (A : Type) : Type := (A * list effect)%type.

Definition io_ret {A : Type} (a : A) : io A := (a, []).

Definition io_bind {A B : Type} (m : io A) (f : A -> io B) : io B :=
  let '(a, l1) := m in
  let '(b, l2) := f a in
  (b, l1 ++ l2).

Notation "x <~ m ;; f" := (io_bind m (fun x => f))
  (at level 61, m at next level, right associativity).

(** Sequencing, for a statement whose value is not used. *)
Notation "m ;;; f" := (io_bind m (fun _ => f))
  (at level 61, right associativity).

Definition emit (e : effect) : io unit := (tt, [e]).

(** A computation that only calls the math library, run among the others. *)
Definition lift {A : Type} (m : libm A) : io A := (fst m, map libm_effect (snd m)).

(** [for (i = lo; i < hi; ++i) body], for a body that only has effects. *)
Definition for_io (lo hi : nat) (body : nat -> io unit) : io unit :=
  for_range lo hi (fun i acc => acc ;;; body i) (io_ret tt).

(** Whether [fopen_s(&fp, filename, "w")] leaves a stream in [fp]: the
    file system is a parameter of the model. *)
Variable can_open : String.string -> bool.

Import String.

(** [classI_2v(pgm)], source lines 1054-1067. *)
Definition classI_2v (pgm : PROGRAM) : io PROGRAM :=
  emit (printf "Class I Icosahedron (2,0) - compute truncation configuration\n"%string []) ;;;
  (* create vertex 2,0 by spherical coordinates *)
  let pgm := create_vertex_by_sc pgm 0 0 0
               (tri_b (pgm_ref pgm) * 2 + (tri_c (pgm_ref pgm) + tri_a (pgm_ref pgm))) in
  (* create vertex 1,0 by spherical coordinates *)
  let pgm := create_vertex_by_sc pgm 1 0 (DTR 36)
               ((tri_c (pgm_ref pgm) + tri_a (pgm_ref pgm)) * 2) in
  io_ret pgm.

(** [classI_3v(pgm)], source lines 1107-1124; the banner reads (2,0). *)
Definition classI_3v (pgm : PROGRAM) : io PROGRAM :=
  emit (printf "Class I Icosahedron (2,0) - compute truncation configuration\n"%string []) ;;;
  (* create vertex 2,0 by spherical coordinates *)
  let pgm := create_vertex_by_sc pgm 2 0 0
               (tri_b (pgm_ref pgm) * 2 + tri_c (pgm_ref pgm)) in
  (* create vertex 1,0 by spherical coordinates *)
  let pgm := create_vertex_by_sc pgm 1 0 (DTR 36)
               ((tri_c (pgm_ref pgm) + tri_a (pgm_ref pgm)) * 2) in
  (* create vertex 0,1 by spherical trig from 2,0 *)
  pgm <~ lift (create_vertex_from_vertex pgm 0 1 2 0 (tri_b (pgm_ref pgm) * 2) (DTR 144)) ;;
  io_ret pgm.

(** [classI_4v(pgm)], source lines 1169-1190. *)
Definition classI_4v (pgm : PROGRAM) : io PROGRAM :=
  emit (printf "Class I Icosahedron (4,0) - compute truncation configuration\n"%string []) ;;;
  (* create vertex 2,0 by spherical coordinates *)
  let pgm := create_vertex_by_sc pgm 2 0 (DTR 36)
               ((tri_c (pgm_ref pgm) + tri_a (pgm_ref pgm)) * 2) in
  (* create vertex 0,1 by spherical coordinates *)
  pgm <~ lift (create_vertex_by_strig pgm 0 1 (tri_b (pgm_ref pgm) * 2) (DTR 90) (DTR 144)) ;;
  (* create vertex 3,2 by spherical trig from 0,2 *)
  let pgm := create_vertex_by_sc pgm 3 2 0 (DTR 90) in
  (* create vertex 1,1 by spherical trig from 3,0 *)
  pgm <~ lift (create_vertex_from_vertex pgm 1 1 3 0 (tri_b (pgm_ref pgm) * 2) (DTR 144)) ;;
  io_ret pgm.

(** The build functions handed to [build_loop].  Each reads [*var], leaves
    it as it is, works on the program state behind the [void*] and
    returns the residual [diff]: here the residual and the new state. *)

(** [classI_5v(var, program)], source lines 1235-1265. *)
Definition classI_5v (var : R) (pgm : PROGRAM) : libm (R * PROGRAM) :=
  (* create vertex 3,0 by spherical coordinates *)
  let pgm := create_vertex_by_sc pgm 3 0 0
               (tri_b (pgm_ref pgm) * 2 + tri_c (pgm_ref pgm) + var) in
  (* create vertex 4,0 by spherical trig from 3,0 *)
  pgm <- create_vertex_from_vertex pgm 4 0 3 0
           (tri_b (pgm_ref pgm) * 2 + tri_c (pgm_ref pgm)) (DTR 120) ;;
  (* create vertex 1,1 by spherical trig from 3,0 *)
  pgm <- create_vertex_from_vertex pgm 1 1 3 0 (tri_b (pgm_ref pgm) * 2) (DTR 144) ;;
  (* create vertex 0,1 by spherical trig from 3,1 *)
  pgm <- create_vertex_from_vertex pgm 0 1 3 1 (tri_b (pgm_ref pgm) * 2) (DTR 144) ;;
  (* create vertex 2,0 by spherical coordinates *)
  let pgm := create_vertex_by_sc pgm 2 0 (DTR 36)
               ((tri_c (pgm_ref pgm) + tri_a (pgm_ref pgm)) * 2) in
  let diff := inclination (v_sc (pgm_v pgm 4%nat) 2%nat) - inclination (v_sc (pgm_v pgm 0%nat) 2%nat) in
  ret (diff, pgm).

(** [classI_7v_a(var, program)], source lines 1268-1306. *)
Definition classI_7v_a (var : R) (pgm : PROGRAM) : libm (R * PROGRAM) :=
  (* create vertex 3,0 by spherical coordinates *)
  let pgm := create_vertex_by_sc pgm 3 0 (DTR 36)
               ((tri_a (pgm_ref pgm) + tri_c (pgm_ref pgm)) * 2) in
  (* PART 1: create vertex 7,2 by spherical coordinates *)
  let pgm := create_vertex_by_sc pgm 7 2 0
               (tri_b (pgm_ref pgm) * 2 + tri_c (pgm_ref pgm) - var) in
  (* create vertex 4,2 by association trig *)
  pgm <- create_vertex_from_vertex pgm 4 2 7 2
           (tri_b (pgm_ref pgm) * 2 + tri_c (pgm_ref pgm)) (DTR 60) ;;
  (* create vertex 0,1 by association trig *)
  pgm <- create_vertex_from_vertex pgm 0 1 7 2 (tri_b (pgm_ref pgm) * 2) (DTR 144) ;;
  (* PART 2: create vertex 1,1 by association trig *)
  pgm <- create_vertex_from_vertex pgm 1 1 7 1 (tri_b (pgm_ref pgm) * 2) (DTR 144) ;;
  (* PART 3: create vertex 6,0 by association trig *)
  pgm <- create_vertex_from_vertex pgm 6 0 4 0
           (tri_b (pgm_ref pgm) * 2 + tri_c (pgm_ref pgm)) (DTR 120) ;;
  (* create vertex 2,1 by association trig *)
  pgm <- create_vertex_from_vertex pgm 2 1 4 0 (tri_b (pgm_ref pgm) * 2) (DTR 144) ;;
  let diff := inclination (v_sc (pgm_v pgm 6%nat) 2%nat) - inclination (v_sc (pgm_v pgm 1%nat) 2%nat) in
  ret (diff, pgm).

(** [classI_7v_b1(var, pgm)], source lines 1309-1324. *)
Definition classI_7v_b1 (var : R) (pgm : PROGRAM) : R * PROGRAM :=
  let pgm := create_vertex_by_sc pgm 5 2 var (inclination (v_sc (pgm_v pgm 0%nat) 2%nat)) in
  let diff := inclination (v_sc (pgm_v pgm 5%nat) 1%nat) - inclination (v_sc (pgm_v pgm 1%nat) 1%nat) in
  (diff, pgm).

(** [classI_7v_b2(var, pgm)], source lines 1327-1341. *)
Definition classI_7v_b2 (var : R) (pgm : PROGRAM) : R * PROGRAM :=
  let pgm := create_vertex_by_sc pgm 5 2 var (inclination (v_sc (pgm_v pgm 0%nat) 2%nat)) in
  let diff := inclination (v_sc (pgm_v pgm 5%nat) 0%nat) - inclination (v_sc (pgm_v pgm 4%nat) 0%nat) in
  (diff, pgm).

(** [classI_7v_b3(var, pgm)], source lines 1344-1358. *)
Definition classI_7v_b3 (var : R) (pgm : PROGRAM) : R * PROGRAM :=
  let pgm := create_vertex_by_sc pgm 5 0 var (inclination (v_sc (pgm_v pgm 4%nat) 0%nat)) in
  let diff := inclination (v_sc (pgm_v pgm 5%nat) 1%nat) - inclination (v_sc (pgm_v pgm 1%nat) 1%nat) in
  (diff, pgm).

(** [classI_6v_a(var, pgm)], source lines 1447-1461. *)
Definition classI_6v_a (var : R) (pgm : PROGRAM) : R * PROGRAM :=
  let pgm := create_vertex_by_sc pgm 4 0 var (inclination (v_sc (pgm_v pgm 5%nat) 0%nat)) in
  let diff := inclination (v_sc (pgm_v pgm 4%nat) 1%nat) - inclination (v_sc (pgm_v pgm 1%nat) 1%nat) in
  (diff, pgm).

(** [classI_6v_b(var, pgm)], source lines 1464-1478. *)
Definition classI_6v_b (var : R) (pgm : PROGRAM) : R * PROGRAM :=
  let pgm := create_vertex_by_sc pgm 4 0 var (inclination (v_sc (pgm_v pgm 5%nat) 0%nat)) in
  let diff := inclination (v_sc (pgm_v pgm 4%nat) 2%nat) - inclination (v_sc (pgm_v pgm 0%nat) 1%nat) in
  (diff, pgm).

(** [classI_6v(pgm)], source lines 1481-1506: the vertices that depend on
    no unknown. *)
Definition classI_6v (pgm : PROGRAM) : libm PROGRAM :=
  (* create vertex 0,0 by spherical coordinates *)
  let pgm := create_vertex_by_sc pgm 0 0 0
               (tri_b (pgm_ref pgm) * 2 + tri_c (pgm_ref pgm) + tri_a (pgm_ref pgm)) in
  (* create vertex 6,0 by spherical coordinates *)
  let pgm := create_vertex_by_sc pgm 6 0 0
               (tri_b (pgm_ref pgm) * 2 + tri_c (pgm_ref pgm)) in
  (* create vertex 3,0 by spherical coordinates *)
  let pgm := create_vertex_by_sc pgm 3 0 (DTR 36)
               ((tri_c (pgm_ref pgm) + tri_a (pgm_ref pgm)) * 2) in
  (* create vertex 1,1 by association trig *)
  pgm <- create_vertex_from_vertex pgm 1 1 6 0 (tri_b (pgm_ref pgm) * 2) (DTR 144) ;;
  (* create vertex 5,2 by spherical coordinates *)
  let pgm := create_vertex_by_sc pgm 5 2 0 (inclination (v_sc (pgm_v pgm 1%nat) 2%nat)) in
  (* create vertex 2,1 by association trig *)
  pgm <- create_vertex_from_vertex pgm 2 1 5 0 (tri_b (pgm_ref pgm) * 2) (DTR 144) ;;
  ret pgm.

(** ** The geometry files *)

(** [fprintf(fp, "%12.9f %12.9f %12.9f \n", gp[i].x, gp[i].y, gp[i].z)] *)
Definition fprintf_point (p : GUT_POINT) : io unit :=
  emit (fprintf "%12.9f %12.9f %12.9f \n"%string
          [arg_double (px p); arg_double (py p); arg_double (pz p)]).

(** [classI_2v_output(pgm, filename)], source lines 1016-1051. *)
Definition classI_2v_output (pgm : PROGRAM) (filename : string) : io unit :=
  let lp : array GUT_POINT := fun _ => indeterminate_point in
  let gp : array GUT_POINT := fun _ => indeterminate_point in
  let lp := store lp 0 (v_p (pgm_v pgm 0%nat) 0%nat) in
  let lp := store lp 1 (v_p (pgm_v pgm 1%nat) 0%nat) in
  let lp := store lp 2 (v_p (pgm_v pgm 0%nat) 4%nat) in
  let lp := store lp 3 (v_p (pgm_v pgm 0%nat) 1%nat) in
  let gp := as_points (mtx_vec4_multiply 4 (as_vectors lp) (as_vectors gp)
                         (tm (pgm_face pgm))) in
  emit (fopen_s filename "w"%string) ;;;
  if can_open filename then
    emit (printf "\tGeometry output: %s\n"%string [arg_string filename]) ;;;
    emit (fprintf "OFF\n"%string []) ;;;
    emit (fprintf "4 2 0\n"%string []) ;;;
    for_io 0 4 (fun i => fprintf_point (gp i)) ;;;
    emit (fprintf "3 0 1 3 \n"%string []) ;;;
    emit (fprintf "3 0 3 2 \n"%string []) ;;;
    emit fclose
  else
    io_ret tt.

(** [classI_3v_output(pgm, filename)], source lines 1070-1104. *)
Definition classI_3v_output (pgm : PROGRAM) (filename : string) : io unit :=
  let lp : array GUT_POINT := fun _ => indeterminate_point in
  let gp : array GUT_POINT := fun _ => indeterminate_point in
  let lp := store lp 0 (v_p (pgm_v pgm 0%nat) 5%nat) in
  let lp := store lp 1 (v_p (pgm_v pgm 0%nat) 0%nat) in
  let lp := store lp 2 (v_p (pgm_v pgm 1%nat) 0%nat) in
  let lp := store lp 3 (v_p (pgm_v pgm 2%nat) 0%nat) in
  let lp := store lp 4 (v_p (pgm_v pgm 0%nat) 1%nat) in
  let gp := as_points (mtx_vec4_multiply 5 (as_vectors lp) (as_vectors gp)
                         (tm (pgm_face pgm))) in
  emit (fopen_s filename "w"%string) ;;;
  if can_open filename then
    emit (printf "\tGeometry output: %s\n"%string [arg_string filename]) ;;;
    emit (fprintf "OFF\n"%string []) ;;;
    emit (fprintf "5 3 0\n"%string []) ;;;
    for_io 0 5 (fun i => fprintf_point (gp i)) ;;;
    emit (fprintf "3 0 1 3 \n"%string []) ;;;
    emit (fprintf "3 1 4 3 \n"%string []) ;;;
    emit (fprintf "3 1 2 4 \n"%string []) ;;;
    emit fclose
  else
    io_ret tt.

(** [classI_4v_output(pgm, filename)], source lines 1127-1166. *)
Definition classI_4v_output (pgm : PROGRAM) (filename : string) : io unit :=
  let lp : array GUT_POINT := fun _ => indeterminate_point in
  let gp : array GUT_POINT := fun _ => indeterminate_point in
  let lp := store lp 0 (v_p (pgm_v pgm 0%nat) 0%nat) in
  let lp := store lp 1 (v_p (pgm_v pgm 1%nat) 0%nat) in
  let lp := store lp 2 (v_p (pgm_v pgm 2%nat) 0%nat) in
  let lp := store lp 3 (v_p (pgm_v pgm 3%nat) 5%nat) in
  let lp := store lp 4 (v_p (pgm_v pgm 3%nat) 0%nat) in
  let lp := store lp 5 (v_p (pgm_v pgm 1%nat) 1%nat) in
  let lp := store lp 6 (v_p (pgm_v pgm 3%nat) 2%nat) in
  let gp := as_points (mtx_vec4_multiply 7 (as_vectors lp) (as_vectors gp)
                         (tm (pgm_face pgm))) in
  emit (fopen_s filename "w"%string) ;;;
  if can_open filename then
    emit (printf "\tGeometry output: %s\n"%string [arg_string filename]) ;;;
    emit (fprintf "OFF\n"%string []) ;;;
    emit (fprintf "7 5 0\n"%string []) ;;;
    for_io 0 7 (fun i => fprintf_point (gp i)) ;;;
    emit (fprintf "3 0 4 3 \n"%string []) ;;;
    emit (fprintf "3 0 1 4 \n"%string []) ;;;
    emit (fprintf "3 1 5 4 \n"%string []) ;;;
    emit (fprintf "3 1 2 5 \n"%string []) ;;;
    emit (fprintf "3 3 4 6 \n"%string []) ;;;
    emit fclose
  else
    io_ret tt.

(** [classI_5v_output(pgm, filename)], source lines 1193-1232. *)
Definition classI_5v_output (pgm : PROGRAM) (filename : string) : io unit :=
  let lp : array GUT_POINT := fun _ => indeterminate_point in
  let gp : array GUT_POINT := fun _ => indeterminate_point in
  let lp := store lp 0 (v_p (pgm_v pgm 0%nat) 5%nat) in
  let lp := store lp 1 (v_p (pgm_v pgm 0%nat) 0%nat) in
  let lp := store lp 2 (v_p (pgm_v pgm 1%nat) 0%nat) in
  let lp := store lp 3 (v_p (pgm_v pgm 2%nat) 0%nat) in
  let lp := store lp 4 (v_p (pgm_v pgm 3%nat) 0%nat) in
  let lp := store lp 5 (v_p (pgm_v pgm 4%nat) 0%nat) in
  let lp := store lp 6 (v_p (pgm_v pgm 1%nat) 1%nat) in
  let lp := store lp 7 (v_p (pgm_v pgm 3%nat) 3%nat) in
  let lp := store lp 8 (v_p (pgm_v pgm 3%nat) 1%nat) in
  let gp := as_points (mtx_vec4_multiply 9 (as_vectors lp) (as_vectors gp)
                         (tm (pgm_face pgm))) in
  emit (fopen_s filename "w"%string) ;;;
  if can_open filename then
    emit (printf "\tGeometry output: %s\n"%string [arg_string filename]) ;;;
    emit (fprintf "OFF\n"%string []) ;;;
    emit (fprintf "9 7 0\n"%string []) ;;;
    for_io 0 9 (fun i => fprintf_point (gp i)) ;;;
    emit (fprintf "3 0 1 4 \n"%string []) ;;;
    emit (fprintf "3 1 5 4 \n"%string []) ;;;
    emit (fprintf "3 1 2 5 \n"%string []) ;;;
    emit (fprintf "3 2 6 5 \n"%string []) ;;;
    emit (fprintf "3 2 3 6 \n"%string []) ;;;
    emit (fprintf "3 4 5 8 \n"%string []) ;;;
    emit (fprintf "3 4 8 7 \n"%string []) ;;;
    emit fclose
  else
    io_ret tt.

(** The local [struct { int v, a; } p[20]] of the two routines below, and
    what its cells hold before they are assigned. *)
Record INDEX : Type := mkINDEX { ix_v : nat; ix_a : nat }.

Variable indeterminate_int : nat.

(** [classI_7v_output(pgm, filename)], source lines 1381-1444: the file
    is opened first. *)
Definition classI_7v_output (pgm : PROGRAM) (filename : string) : io unit :=
  let p : array INDEX := fun _ => mkINDEX indeterminate_int indeterminate_int in
  emit (fopen_s filename "w"%string) ;;;
  if can_open filename then
    emit (printf "\tGeometry output: %s\n"%string [arg_string filename]) ;;;
    let p := store p 0 (mkINDEX 0 5) in
    let p := store p 1 (mkINDEX 0 0) in
    let p := store p 2 (mkINDEX 1 0) in
    let p := store p 3 (mkINDEX 2 0) in
    let p := store p 4 (mkINDEX 3 0) in
    let p := store p 5 (mkINDEX 4 0) in
    let p := store p 6 (mkINDEX 5 0) in
    let p := store p 7 (mkINDEX 6 0) in
    let p := store p 8 (mkINDEX 2 1) in
    let p := store p 9 (mkINDEX 7 5) in
    let p := store p 10 (mkINDEX 7 0) in
    let p := store p 11 (mkINDEX 5 1) in
    let p := store p 12 (mkINDEX 7 2) in
    let lp : array GUT_POINT := fun _ => indeterminate_point in
    let gp : array GUT_POINT := fun _ => indeterminate_point in
    let lp := for_range 0 13 (fun i lp =>
                store lp i (v_p (pgm_v pgm (ix_v (p i))) (ix_a (p i)))) lp in
    let gp := as_points (mtx_vec4_multiply 13 (as_vectors lp) (as_vectors gp)
                           (tm (pgm_face pgm))) in
    emit (fprintf "OFF\n"%string []) ;;;
    emit (fprintf "13 12 0\n"%string []) ;;;
    for_io 0 13 (fun i => fprintf_point (gp i)) ;;;
    emit (fprintf "3 0 1 5 \n"%string []) ;;;
    emit (fprintf "3 1 6 5 \n"%string []) ;;;
    emit (fprintf "3 1 2 6 \n"%string []) ;;;
    emit (fprintf "3 2 7 6 \n"%string []) ;;;
    emit (fprintf "3 2 3 7 \n"%string []) ;;;
    emit (fprintf "3 3 8 7 \n"%string []) ;;;
    emit (fprintf "3 3 4 8 \n"%string []) ;;;
    emit (fprintf "3 5 10  9 \n"%string []) ;;;
    emit (fprintf "3 5  6 10 \n"%string []) ;;;
    emit (fprintf "3 6 11 10 \n"%string []) ;;;
    emit (fprintf "3 6  7 11 \n"%string []) ;;;
    emit (fprintf "3 9 10 12 \n"%string []) ;;;
    emit fclose
  else
    io_ret tt.

(** [classI_6v_output(pgm, filename)], source lines 1509-1570. *)
Definition classI_6v_output (pgm : PROGRAM) (filename : string) : io unit :=
  let p : array INDEX := fun _ => mkINDEX indeterminate_int indeterminate_int in
  emit (fopen_s filename "w"%string) ;;;
  if can_open filename then
    emit (printf "\tGeometry output: %s\n"%string [arg_string filename]) ;;;
    let p := store p 0 (mkINDEX 0 0) in
    let p := store p 1 (mkINDEX 1 0) in
    let p := store p 2 (mkINDEX 2 0) in
    let p := store p 3 (mkINDEX 3 0) in
    let p := store p 4 (mkINDEX 4 5) in
    let p := store p 5 (mkINDEX 4 0) in
    let p := store p 6 (mkINDEX 5 0) in
    let p := store p 7 (mkINDEX 2 1) in
    let p := store p 8 (mkINDEX 6 0) in
    let p := store p 9 (mkINDEX 4 1) in
    let lp : array GUT_POINT := fun _ => indeterminate_point in
    let gp : array GUT_POINT := fun _ => indeterminate_point in
    let lp := for_range 0 10 (fun i lp =>
                store lp i (v_p (pgm_v pgm (ix_v (p i))) (ix_a (p i)))) lp in
    let gp := as_points (mtx_vec4_multiply 10 (as_vectors lp) (as_vectors gp)
                           (tm (pgm_face pgm))) in
    emit (fprintf "OFF\n"%string []) ;;;
    emit (fprintf "10 9 0\n"%string []) ;;;
    for_io 0 10 (fun i => fprintf_point (gp i)) ;;;
    emit (fprintf "3 0 1 5 \n"%string []) ;;;
    emit (fprintf "3 0 5 4 \n"%string []) ;;;
    emit (fprintf "3 1 2 6 \n"%string []) ;;;
    emit (fprintf "3 1 6 5 \n"%string []) ;;;
    emit (fprintf "3 2 3 7 \n"%string []) ;;;
    emit (fprintf "3 2 7 6 \n"%string []) ;;;
    emit (fprintf "3 4 5 8 \n"%string []) ;;;
    emit (fprintf "3 5 9 8 \n"%string []) ;;;
    emit (fprintf "3 5 6 9 \n"%string []) ;;;
    emit fclose
  else
    io_ret tt.

(** [sprintf_s(filename_specific, 128, "%s.off", base_filename)]: the
    text written, when it fits the buffer together with its terminator.
    When it does not, the runtime reports a constraint violation and the
    program stops: [None]. *)
Definition sprintf_s (sizeOfBuffer : nat) (suffix base_filename : string) : option string :=
  if Nat.ltb (length base_filename + length suffix) sizeOfBuffer
  then Some (append base_filename suffix)
  else None.

(** [classI_2v_solution(pgm, base_filename)], source lines 1573-1583;
    [None] is the program stopped in [sprintf_s]. *)
Definition classI_2v_solution (pgm : PROGRAM) (base_filename : string)
  : io (option PROGRAM) :=
  pgm <~ classI_2v pgm ;;
  match sprintf_s 128 ".off" base_filename with
  | Some filename_specific =>
      classI_2v_output pgm filename_specific ;;;
      io_ret (Some pgm)
  | None => io_ret None
  end.

(** [classI_3v_solution(pgm, base_filename)], source lines 1586-1596. *)
Definition classI_3v_solution (pgm : PROGRAM) (base_filename : string)
  : io (option PROGRAM) :=
  pgm <~ classI_3v pgm ;;
  match sprintf_s 128 ".off" base_filename with
  | Some filename_specific =>
      classI_3v_output pgm filename_specific ;;;
      io_ret (Some pgm)
  | None => io_ret None
  end.

(** [classI_4v_solution(pgm, base_filename)], source lines 1599-1610. *)
Definition classI_4v_solution (pgm : PROGRAM) (base_filename : string)
  : io (option PROGRAM) :=
  pgm <~ classI_4v pgm ;;
  match sprintf_s 128 ".off" base_filename with
  | Some filename_specific =>
      classI_4v_output pgm filename_specific ;;;
      io_ret (Some pgm)
  | None => io_ret None
  end.

(** [main] up to the third solution, source lines 1695-1733: the
    set-up, the [printf] of the reference sides and the three solutions
    that need no solver.  [None] is the program stopped in [sprintf_s]. *)
Definition main_2v_3v_4v (pgm : PROGRAM) : io (option PROGRAM) :=
  let pgm := main_setup pgm in
  emit (printf "%f %f %f\n"%string
          [arg_double (RTD (tri_a (pgm_ref pgm)));
           arg_double (RTD (tri_b (pgm_ref pgm)));
           arg_double (RTD (tri_c (pgm_ref pgm)))]) ;;;
  r <~ classI_2v_solution pgm "icosa20"%string ;;
  match r with
  | Some pgm =>
      r <~ classI_3v_solution pgm "icosa30"%string ;;
      match r with
      | Some pgm => classI_4v_solution pgm "icosa40"%string
      | None => io_ret None
      end
  | None => io_ret None
  end.

End Geometry.

(** The product the specification asks of [mtx_multiply_matrix]: entry
    [(r, k)] of [A.B] is the sum over [j] of [A[r*4+j] * B[j*4+k]]. *)
Definition product_entry (a b : matrix) (r k : nat) : R :=
  a.[r * 4 + 0] * b.[0 * 4 + k] + a.[r * 4 + 1] * b.[1 * 4 + k]
  + a.[r * 4 + 2] * b.[2 * 4 + k] + a.[r * 4 + 3] * b.[3 * 4 + k].

(** Matrices given by their sixteen cells. *)
Definition matrix_of_list (l : list R) : matrix := fun k => nth k l 0.

(** ** Notions used in the proofs about the transforms *)

(** Two matrices with the same sixteen cells. *)
Definition same16 (A B : matrix) : Prop := forall k, (k < 16)%nat -> A k = B k.

(** The local axes both builders derive from three corner points: the
    statements of [build_subface_transforms] (three times) and of
    [rotation_matrix_from_triangle], without the members they do not set. *)
Definition axes_of (a b c : GUT_POINT) (vx vy vz : GUT_VECTOR)
  : GUT_VECTOR * GUT_VECTOR * GUT_VECTOR :=
  let vx := gut_normalize_vector (gut_vector a b vx) in
  let vy := gut_normalize_vector (gut_vector a c vy) in
  let vz := gut_normalize_vector (gut_cross_product vx vy vz) in
  let vy := gut_normalize_vector (gut_cross_product vz vx vy) in
  (vx, vy, vz).

(** The corners [p[0]], [p[1]], [p[2]] of [build_subface_transforms]. *)
Definition corner (k : nat) (w : R) : GUT_POINT :=
  match k with
  | 0%nat => mkPOINT 0.5 (- sqrt 3 / 6) 0 w
  | 1%nat => mkPOINT 0 (sqrt 3 / 3) 0 w
  | _ => mkPOINT (-0.5) (- sqrt 3 / 6) 0 w
  end.

(** The corners [vtx[0]], [vtx[1]], [vtx[2]] of [build_face_transforms]. *)
Definition face_corner (k : nat) (old : GUT_POINT) : GUT_POINT :=
  match k with
  | 0%nat => gut_spherical_to_cartesian (mkSC 1 (DTR 36) (DTR 180 - atan 2)) old
  | 1%nat => gut_spherical_to_cartesian (mkSC 1 0 (atan 2)) old
  | _ => gut_spherical_to_cartesian (mkSC 1 (DTR (-36)) (DTR 180 - atan 2)) old
  end.

(** The matrix with the axes as columns, and its transpose. *)
Definition columns (X Y Z : GUT_VECTOR) : matrix :=
  matrix_of_list [vi X; vi Y; vi Z; 0;  vj X; vj Y; vj Z; 0;
                  vk X; vk Y; vk Z; 0;  0; 0; 0; 1].

Definition rows (X Y Z : GUT_VECTOR) : matrix :=
  matrix_of_list [vi X; vj X; vk X; 0;  vi Y; vj Y; vk Y; 0;
                  vi Z; vj Z; vk Z; 0;  0; 0; 0; 1].

(** The rotations by 120 and 240 degrees about [z], and their
    transposes. *)
Definition R120 : matrix :=
  matrix_of_list [- (1 / 2); - (sqrt 3 / 2); 0; 0;  sqrt 3 / 2; - (1 / 2); 0; 0;
                  0; 0; 1; 0;  0; 0; 0; 1].

Definition R120t : matrix :=
  matrix_of_list [- (1 / 2); sqrt 3 / 2; 0; 0;  - (sqrt 3 / 2); - (1 / 2); 0; 0;
                  0; 0; 1; 0;  0; 0; 0; 1].

Definition R240 : matrix :=
  matrix_of_list [- (1 / 2); sqrt 3 / 2; 0; 0;  - (sqrt 3 / 2); - (1 / 2); 0; 0;
                  0; 0; 1; 0;  0; 0; 0; 1].

Definition R240t : matrix :=
  matrix_of_list [- (1 / 2); - (sqrt 3 / 2); 0; 0;  sqrt 3 / 2; - (1 / 2); 0; 0;
                  0; 0; 1; 0;  0; 0; 0; 1].

(** The shape of the face-to-global matrix and of its transpose, for a
    cosine [co] and a sine [si]. *)
Definition TM (co si : R) : matrix :=
  matrix_of_list [0; si; co; 0;  1; 0; 0; 0;  0; co; - si; 0;  0; 0; 0; 1].

Definition TMt (co si : R) : matrix :=
  matrix_of_list [0; 1; 0; 0;  si; 0; co; 0;  co; 0; - si; 0;  0; 0; 0; 1].

(** The squared norm of a point. *)
Definition sumsq (p : GUT_POINT) : R := px p * px p + py p * py p + pz p * pz p.

(** Equal within the tolerance [1e-9] of the specification. *)
Definition within_1e9 (a b : R) : Prop := Rabs (a - b) <= 0.000000001.

(** On the unit sphere, within that tolerance. *)
Definition on_unit_sphere (p : GUT_POINT) : Prop := within_1e9 (norm p) 1.

(** A program state with every cell zero. *)
Definition zero_matrix : matrix := fun _ => 0.

Definition blank_program : PROGRAM :=
  mkPROGRAM
    (mkFACE zero_matrix zero_matrix zero_matrix zero_matrix
            zero_matrix zero_matrix zero_matrix zero_matrix)
    (fun _ => mkSUBFACE (fun _ => zero_matrix))
    (mkSPH_TRI 0 0 0 0 0 0)
    (fun _ => mkVERTEX (fun _ => mkPOINT 0 0 0 0) (fun _ => mkSC 0 0 0)).

(** ** Notions used to state the further properties *)

(** A matrix without projective part: its last column is [(0, 0, 0, 1)].
    Every matrix the program builds is one. *)
Definition affine (m : matrix) : Prop :=
  m.[3] = 0 /\ m.[7] = 0 /\ m.[11] = 0 /\ m.[15] = 1.

(** The scalar product of the three spatial members of two vectors. *)
Definition dot (a b : GUT_VECTOR) : R := vi a * vi b + vj a * vj b + vk a * vk b.

(** The normal of the triangle [p0 p1 p2] as [rotation_matrix_from_triangle]
    takes it, before it is normalised: the cross product of the edges from
    [p2] to [p0] and from [p2] to [p1].  It vanishes when the three points
    are on a line. *)
Definition triangle_normal (p0 p1 p2 : GUT_POINT) : GUT_VECTOR :=
  gut_cross_product (gut_vector p2 p0 (mkVECTOR 0 0 0 0)) (gut_vector p2 p1 (mkVECTOR 0 0 0 0))
    (mkVECTOR 0 0 0 0).

(** The azimuth the table of [gut_cartesian_to_spherical] gives for the
    coordinates [x] and [y], source lines 216-242. *)
Definition azimuth_of (x y : R) : R :=
  if Rleb (Rabs x) ZERO then
    if Rleb (Rabs y) ZERO then 0 else if Rgtb y 0 then DTR 90 else DTR (-90)
  else if Rgtb x 0 then
    if Rleb (Rabs y) ZERO then 0 else atan (y / x)
  else
    if Rleb (Rabs y) ZERO then DTR 180
    else if Rgtb y 0 then DTR 180 + atan (y / x) else DTR (-180) + atan (y / x).

(** ** Notions used to state the properties of the program as a whole *)

(** A program state whose face matrices are the exact rotations by 120
    and 240 degrees, and the region table built from it. *)
Definition reference_program : PROGRAM :=
  mkPROGRAM
    (mkFACE zero_matrix zero_matrix zero_matrix zero_matrix R120 R120t R240 R240t)
    (fun _ => mkSUBFACE (fun _ => zero_matrix))
    (mkSPH_TRI 0 0 0 0 0 0)
    (fun _ => mkVERTEX (fun _ => mkPOINT 0 0 0 0) (fun _ => mkSC 0 0 0)).

Definition reference_table : PROGRAM := build_a_transforms 0 reference_program.

(** A program state whose transforms are the ones [main] builds, from
    whatever memory. *)
Definition built (pgm : PROGRAM) : Prop :=
  exists (junk : R) (pgm0 : PROGRAM),
    pgm_face pgm = pgm_face (main_setup junk pgm0)
    /\ pgm_subface pgm = pgm_subface (main_setup junk pgm0).

(** What the proofs use of a region table. *)
Definition table_laws (S : PROGRAM) : Prop :=
  forall i j : nat, (i < 6)%nat -> (j < 6)%nat ->
    (forall p, transform (subm S j i) (transform (subm S i j) p) = p)
    /\ (forall p, sumsq (transform (subm S i j) p) = sumsq p)
    /\ (forall k p, (k < 6)%nat ->
          transform (subm S j k) (transform (subm S i j) p) = transform (subm S i k) p)
    /\ same16 (subm S i j) (subm reference_table i j)
    /\ ((subm S i j).[2] = 0 /\ (subm S i j).[6] = 0 /\ (subm S i j).[10] = 1
        /\ (subm S i j).[12] = 0 /\ (subm S i j).[13] = 0 /\ (subm S i j).[14] = 0
        /\ (subm S i j).[15] = 1)
    /\ (forall r c, (r < 4)%nat -> (c < 4)%nat ->
          (subm S i i).[r * 4 + c] = if Nat.eqb r c then 1 else 0).

(** The point [create_vertex_by_sc] starts from. *)
Definition placed (az inc : R) (old : GUT_POINT) : GUT_POINT :=
  gut_spherical_to_cartesian (mkSC 1 az inc) old.

(** What the vertex generator and the three creators leave alone. *)
Definition touches_only (v : nat) (pgm pgm' : PROGRAM) : Prop :=
  pgm_face pgm' = pgm_face pgm /\ pgm_subface pgm' = pgm_subface pgm
  /\ pgm_ref pgm' = pgm_ref pgm
  /\ forall k : nat, k <> v -> pgm_v pgm' k = pgm_v pgm k.

(** The vertices in [W] are the only part of the state in which [pgm']
    may differ from [pgm]. *)
Definition touches (W : nat -> Prop) (pgm pgm' : PROGRAM) : Prop :=
  pgm_face pgm' = pgm_face pgm /\ pgm_subface pgm' = pgm_subface pgm
  /\ pgm_ref pgm' = pgm_ref pgm
  /\ forall k : nat, ~ W k -> pgm_v pgm' k = pgm_v pgm k.

(** The state [s] reached from [pgm] by creating the vertices in [W]:
    nothing else has changed, and with the transforms built every
    instance of these vertices has norm one. *)
Definition made (W : nat -> Prop) (pgm s : PROGRAM) : Prop :=
  touches W pgm s
  /\ (built pgm -> forall k : nat, W k -> forall i : nat, (i < 6)%nat ->
        sumsq (v_p (pgm_v s k) i) = 1).

(** The value a run returns satisfies [P]. *)
Definition after {B L : Type} (P : B -> Prop) (r : B * L) : Prop := P (fst r).

(** Every instance of the vertices in [D] has norm one. *)
Definition units (D : nat -> Prop) (s : PROGRAM) : Prop :=
  forall k : nat, D k -> forall i : nat, (i < 6)%nat -> sumsq (v_p (pgm_v s k) i) = 1.

(** Two points with the same position; the fourth member may differ. *)
Definition same_xyz (p q : GUT_POINT) : Prop :=
  px p = px q /\ py p = py q /\ pz p = pz q.

(** Two program states that agree on the reference sides [a], [b], [c]
    and, for the vertices in [D], on the position of the six instances
    and on their spherical coordinates. *)
Definition agree (D : nat -> Prop) (pgm pgm' : PROGRAM) : Prop :=
  (tri_a (pgm_ref pgm) = tri_a (pgm_ref pgm')
   /\ tri_b (pgm_ref pgm) = tri_b (pgm_ref pgm')
   /\ tri_c (pgm_ref pgm) = tri_c (pgm_ref pgm'))
  /\ forall k : nat, D k -> forall i : nat, (i < 6)%nat ->
       same_xyz (v_p (pgm_v pgm k) i) (v_p (pgm_v pgm' k) i)
       /\ v_sc (pgm_v pgm k) i = v_sc (pgm_v pgm' k) i.

(** Two runs whose values are related and whose logs are the same. *)
Definition related {B L : Type} (Q : B -> B -> Prop) (r r' : B * L) : Prop :=
  Q (fst r) (fst r') /\ snd r = snd r'.

(** Two states with the transforms built that agree on [D]. *)
Definition state_rel (D : nat -> Prop) (s s' : PROGRAM) : Prop :=
  built s /\ built s' /\ agree D s s'.

Section FileNotions.
Import String.

(** The position in the global frame of instance [a] of vertex [v]. *)
Definition global_point (pgm : PROGRAM) (v a : nat) : GUT_POINT :=
  transform (tm (pgm_face pgm)) (v_p (pgm_v pgm v) a).

(** The line [fprintf_point] writes. *)
Definition point_line (g : GUT_POINT) : effect :=
  fprintf "%12.9f %12.9f %12.9f \n"%string
    [arg_double (px g); arg_double (py g); arg_double (pz g)].

(** What an output routine does once the file is open: the message on
    [stdout], the header, the line of counts, a line for each point, a
    line for each face, and [fclose]. *)
Definition off_file (filename counts : String.string) (points : list GUT_POINT)
  (faces : list String.string) : list effect :=
  [printf "\tGeometry output: %s\n"%string [arg_string filename];
   fprintf "OFF\n"%string []; fprintf counts []]
  ++ map point_line points ++ map (fun s => fprintf s []) faces ++ [fclose].


(** A vertex line holds a point of norm one. *)
Definition unit_line (e : effect) : Prop :=
  match e with
  | fprintf _ [arg_double x; arg_double y; arg_double z] => x * x + y * y + z * z = 1
  | _ => True
  end.

(** The discipline of the one stream the program uses: [fopen_s] with no
    stream open, [fprintf] and [fclose] on an open stream only, and no
    stream left open at the end.  [opened] tells whether the stream is
    open. *)
Fixpoint stream_discipline (can_open : string -> bool) (opened : bool) (l : list effect)
  : bool :=
  match l with
  | [] => negb opened
  | fopen_s f _ :: l => negb opened && stream_discipline can_open (can_open f) l
  | fprintf _ _ :: l => opened && stream_discipline can_open true l
  | fclose :: l => opened && stream_discipline can_open false l
  | _ :: l => stream_discipline can_open opened l
  end.

(** Every effect of a run is a vertex line of norm one or no vertex line,
    and the run keeps the stream discipline. *)
Definition clean (can_open : string -> bool) (l : list effect) : Prop :=
  Forall unit_line l /\ stream_discipline can_open false l = true.

(** The value a run returns satisfies [P] and its effects are clean. *)
Definition runs (can_open : String.string -> bool) {B : Type} (P : B -> Prop) (r : io B)
  : Prop :=
  P (fst r) /\ clean can_open (snd r).

(** Two optional results of the same kind, related when present. *)
Definition both {B : Type} (Q : B -> B -> Prop) (r r' : option B) : Prop :=
  match r, r' with
  | Some b, Some b' => Q b b'
  | None, None => True
  | _, _ => False
  end.

(** What a solution routine returns: the state with its vertices made,
    unless the file name does not fit the buffer. *)
Definition solved (W : nat -> Prop) (pgm : PROGRAM) (base : String.string)
  (r : option PROGRAM) : Prop :=
  match r with
  | Some s => made W pgm s
  | None => sprintf_s 128 ".off" base = None
  end.

End FileNotions.

(** ** Concrete inputs *)

(** A matrix whose only non-zero cell is [a[11]], row 3, column 4. *)
Definition only_a11 : matrix :=
  matrix_of_list [0; 0; 0; 0;  0; 0; 0; 0;  0; 0; 0; 1;  0; 0; 0; 0].

Definition unity : matrix :=
  matrix_of_list [1; 0; 0; 0;  0; 1; 0; 0;  0; 0; 1; 0;  0; 0; 0; 1].

(** The triangle data [b = 50], [c = 40], [C = 30] degrees. *)
Definition triangle_50_40_30 : SPH_TRI :=
  mkSPH_TRI 0 (DTR 50) (DTR 40) 0 0 (DTR 30).

(** The triangle data [b = 1], [c = 0.1], [C = 1] radians: [b > c] and
    [C] below 90 degrees, all three in (0, 180) degrees. *)
Definition triangle_1_01_1 : SPH_TRI := mkSPH_TRI 0 1 0.1 0 0 1.

(** The point [(1, 1e-15, 0)]: [x > 0], [y] within the epsilon of zero
    and not zero. *)
Definition tiny_y_point : GUT_POINT := mkPOINT 1 0.000000000000001 0 1.

(** The triangle data [b = c = C = pi/2]: an octant of the sphere. *)
Definition triangle_right : SPH_TRI := mkSPH_TRI 0 (PI / 2) (PI / 2) 0 0 (PI / 2).

(* ================================================================== *)
(** * Part III.  Properties of the geometry                            *)
(* ================================================================== *)

(** ** Comparisons *)

Lemma Rltb_true (x y : R) : x < y -> Rltb x y = true.
Proof. intros H. unfold Rltb. destruct (Rlt_dec x y); [reflexivity | contradiction]. Qed.

Lemma Rltb_false (x y : R) : y <= x -> Rltb x y = false.
Proof. intros H. unfold Rltb. destruct (Rlt_dec x y); [lra | reflexivity]. Qed.

Lemma Rleb_true (x y : R) : x <= y -> Rleb x y = true.
Proof. intros H. unfold Rleb. destruct (Rle_dec x y); [reflexivity | contradiction]. Qed.

Lemma Rleb_false (x y : R) : y < x -> Rleb x y = false.
Proof. intros H. unfold Rleb. destruct (Rle_dec x y); [lra | reflexivity]. Qed.

Lemma Rgtb_true (x y : R) : y < x -> Rgtb x y = true.
Proof. intros H. unfold Rgtb. now apply Rltb_true. Qed.

Lemma Rgtb_false (x y : R) : x <= y -> Rgtb x y = false.
Proof. intros H. unfold Rgtb. now apply Rltb_false. Qed.

(** Settles every comparison of the goal that linear arithmetic decides
    from the hypotheses. *)
Ltac settle_tests :=
  repeat match goal with
  | |- context [Rgtb ?a ?b] =>
      first [ rewrite (Rgtb_true a b) by lra | rewrite (Rgtb_false a b) by lra ]
  | |- context [Rltb ?a ?b] =>
      first [ rewrite (Rltb_true a b) by lra | rewrite (Rltb_false a b) by lra ]
  | |- context [Rleb ?a ?b] =>
      first [ rewrite (Rleb_true a b) by lra | rewrite (Rleb_false a b) by lra ]
  end.

(** [|x|] as the two linear cases. *)
Ltac split_Rabs :=
  unfold Rabs in *;
  repeat match goal with
  | |- context [Rcase_abs ?x] => destruct (Rcase_abs x)
  | H : context [Rcase_abs ?x] |- _ => destruct (Rcase_abs x)
  end.

(** ** The converter *)

Lemma norm_nonneg (p : GUT_POINT) : 0 <= norm p.
Proof. apply sqrt_pos. Qed.

(** The converter always stores the radius, and nothing else when the
    radius test fails. *)
Lemma gut_cartesian_to_spherical_radius (p : GUT_POINT) (s : GUT_SPHERICAL_COORD) :
  radius (gut_cartesian_to_spherical p s) = norm p.
Proof.
  unfold gut_cartesian_to_spherical, norm. simpl.
  repeat match goal with |- context [if ?b then _ else _] => destruct b end;
    reflexivity.
Qed.

(** C9.  A point whose radius [sqrt(x*x + y*y + z*z)] is at most the
    epsilon [1e-14] is a degenerate no-op for [gut_cartesian_to_spherical]:
    the function returns early, having stored only the radius; the
    inclination and the azimuth of the output keep their prior values.
    The function is total, so the case is never fatal. *)
Theorem gut_cartesian_to_spherical_degenerate (p : GUT_POINT) (s : GUT_SPHERICAL_COORD) :
  norm p <= ZERO ->
  gut_cartesian_to_spherical p s = mkSC (norm p) (azimuth s) (inclination s)
  /\ inclination (gut_cartesian_to_spherical p s) = inclination s
  /\ azimuth (gut_cartesian_to_spherical p s) = azimuth s.
Proof.
  intros H.
  assert (E : gut_cartesian_to_spherical p s = mkSC (norm p) (azimuth s) (inclination s)).
  { unfold gut_cartesian_to_spherical. simpl. fold (norm p).
    rewrite (Rgtb_false (Rabs (norm p)) ZERO); [reflexivity|].
    rewrite Rabs_right; [exact H | apply Rle_ge, norm_nonneg]. }
  rewrite E. simpl. auto.
Qed.

Lemma gut_cartesian_to_spherical_degenerate_witness :
  norm (mkPOINT 0 0 0 1) <= ZERO
  /\ gut_cartesian_to_spherical (mkPOINT 0 0 0 1) (mkSC 7 8 9)
     = mkSC (norm (mkPOINT 0 0 0 1)) 8 9.
Proof.
  assert (H : norm (mkPOINT 0 0 0 1) <= ZERO).
  { unfold norm, ZERO. simpl. replace (0 * 0 + 0 * 0 + 0 * 0) with 0 by ring.
    rewrite sqrt_0. lra. }
  split; [exact H|].
  exact (proj1 (gut_cartesian_to_spherical_degenerate (mkPOINT 0 0 0 1) (mkSC 7 8 9) H)).
Defined.

(** C5, as the code has it.  For a point whose radius exceeds the epsilon
    [1e-14], the azimuth follows the quadrant table of the source, which
    has one row more than the table of the claim: for [x > 0] and
    [y] within the epsilon of zero the azimuth is [0], and [atan(y/x)]
    only for [|y|] above the epsilon.  Here "zero" is [|.| <= 1e-14],
    "positive" is [> 1e-14] and "negative" is [< -1e-14]. *)
Theorem gut_cartesian_to_spherical_azimuth (p : GUT_POINT) (s : GUT_SPHERICAL_COORD) :
  norm p > ZERO ->
  (Rabs (px p) <= ZERO -> Rabs (py p) <= ZERO ->
     azimuth (gut_cartesian_to_spherical p s) = 0)
  /\ (Rabs (px p) <= ZERO -> py p > ZERO ->
     azimuth (gut_cartesian_to_spherical p s) = DTR 90)
  /\ (Rabs (px p) <= ZERO -> py p < - ZERO ->
     azimuth (gut_cartesian_to_spherical p s) = DTR (-90))
  /\ (px p > ZERO -> Rabs (py p) <= ZERO ->
     azimuth (gut_cartesian_to_spherical p s) = 0)
  /\ (px p > ZERO -> Rabs (py p) > ZERO ->
     azimuth (gut_cartesian_to_spherical p s) = atan (py p / px p))
  /\ (px p < - ZERO -> Rabs (py p) <= ZERO ->
     azimuth (gut_cartesian_to_spherical p s) = DTR 180)
  /\ (px p < - ZERO -> py p > ZERO ->
     azimuth (gut_cartesian_to_spherical p s) = DTR 180 + atan (py p / px p))
  /\ (px p < - ZERO -> py p < - ZERO ->
     azimuth (gut_cartesian_to_spherical p s) = DTR (-180) + atan (py p / px p)).
Proof.
  intros H.
  assert (Hr : Rgtb (Rabs (norm p)) ZERO = true).
  { apply Rgtb_true. rewrite Rabs_right; [exact H | apply Rle_ge, norm_nonneg]. }
  unfold gut_cartesian_to_spherical. simpl. fold (norm p). rewrite Hr.
  set (x := px p). set (y := py p). unfold ZERO in *.
  repeat split; intros Hx Hy; split_Rabs; settle_tests; simpl;
    try reflexivity; try lra;
    repeat match goal with |- context [if ?b then _ else _] => destruct b end;
    reflexivity.
Qed.

Lemma gut_cartesian_to_spherical_azimuth_witness :
  norm (mkPOINT (-1) 1 0 1) > ZERO
  /\ azimuth (gut_cartesian_to_spherical (mkPOINT (-1) 1 0 1) (mkSC 0 0 0))
     = DTR 180 + atan (1 / -1).
Proof.
  assert (H : norm (mkPOINT (-1) 1 0 1) > ZERO).
  { unfold norm, ZERO. simpl. replace (-1 * -1 + 1 * 1 + 0 * 0) with 2 by ring.
    apply Rlt_gt. apply Rlt_trans with 1; [lra|].
    rewrite <- sqrt_1 at 1. apply sqrt_lt_1; lra. }
  split; [exact H|].
  refine (proj1 (proj2 (proj2 (proj2 (proj2 (proj2 (proj2
    (gut_cartesian_to_spherical_azimuth (mkPOINT (-1) 1 0 1) (mkSC 0 0 0) H))))))) _ _);
    simpl; unfold ZERO; lra.
Defined.

(** The row the claim leaves out: [x] positive, [y] within the epsilon of
    zero. *)
Lemma azimuth_row_positive_x_zero_y (p : GUT_POINT) (s : GUT_SPHERICAL_COORD) :
  norm p > ZERO -> px p > ZERO -> Rabs (py p) <= ZERO ->
  azimuth (gut_cartesian_to_spherical p s) = 0.
Proof.
  intros H Hx Hy.
  unfold gut_cartesian_to_spherical. simpl. fold (norm p).
  rewrite (Rgtb_true (Rabs (norm p)) ZERO)
    by (rewrite Rabs_right; [exact H | apply Rle_ge, norm_nonneg]).
  rewrite (Rleb_false (Rabs (px p)) ZERO) by (unfold ZERO in *; split_Rabs; lra).
  rewrite (Rgtb_true (px p) 0) by (unfold ZERO in *; lra).
  rewrite (Rleb_true (Rabs (py p)) ZERO) by exact Hy.
  reflexivity.
Qed.

(** C5, the claim as stated, fails on the row [x > 0]: at [(1, 1e-15, 0)]
    the radius exceeds the epsilon and [x > 0], yet the azimuth is [0],
    not [atan(y/x)]. *)
Lemma gut_cartesian_to_spherical_azimuth_counterexample :
  norm tiny_y_point > ZERO /\ px tiny_y_point > 0
  /\ azimuth (gut_cartesian_to_spherical tiny_y_point (mkSC 0 0 0)) = 0
  /\ azimuth (gut_cartesian_to_spherical tiny_y_point (mkSC 0 0 0))
     <> atan (py tiny_y_point / px tiny_y_point).
Proof.
  assert (H : norm tiny_y_point > ZERO).
  { unfold norm, ZERO, tiny_y_point. simpl. apply Rlt_gt. apply Rlt_trans with 1; [lra|].
    rewrite <- sqrt_1 at 1. apply sqrt_lt_1; lra. }
  assert (E : azimuth (gut_cartesian_to_spherical tiny_y_point (mkSC 0 0 0)) = 0).
  { apply azimuth_row_positive_x_zero_y; [exact H | |];
      unfold tiny_y_point, ZERO; simpl; [lra | split_Rabs; lra]. }
  repeat split; [exact H | unfold tiny_y_point; simpl; lra | exact E |].
  rewrite E. intros E0. symmetry in E0. apply atan_eq0 in E0.
  unfold tiny_y_point in E0. simpl in E0. lra.
Qed.

(** ** The matrix product *)

(** Fifteen of the sixteen cells [mtx_multiply_matrix] writes are the
    entries of the row-major product. *)
Lemma mtx_multiply_matrix_entries (a b c : matrix) (r k : nat) :
  (r < 4)%nat -> (k < 4)%nat -> (r, k) <> (2%nat, 3%nat) ->
  (mtx_multiply_matrix a b c).[r * 4 + k] = product_entry a b r k.
Proof.
  intros Hr Hk Hne.
  destruct r as [|[|[|[|r]]]]; try lia;
    destruct k as [|[|[|[|k]]]]; try lia;
    try (exfalso; apply Hne; reflexivity);
    reflexivity.
Qed.

Lemma mtx_multiply_matrix_entries_witness :
  (1 < 4)%nat /\ (2 < 4)%nat /\ (1%nat, 2%nat) <> (2%nat, 3%nat)
  /\ (mtx_multiply_matrix only_a11 unity zero_matrix).[1 * 4 + 2]
     = product_entry only_a11 unity 1 2.
Proof.
  assert (H1 : (1 < 4)%nat) by lia.
  assert (H2 : (2 < 4)%nat) by lia.
  assert (H3 : (1%nat, 2%nat) <> (2%nat, 3%nat)) by discriminate.
  split; [exact H1|]. split; [exact H2|]. split; [exact H3|].
  exact (mtx_multiply_matrix_entries only_a11 unity zero_matrix 1 2 H1 H2 H3).
Defined.

(** The cell [c[11]] receives the sum written for [c[7]]: entry
    (row 2, column 4) of the product instead of (row 3, column 4). *)
Lemma mtx_multiply_matrix_c11 (a b c : matrix) :
  (mtx_multiply_matrix a b c).[11] = product_entry a b 1 3.
Proof. reflexivity. Qed.

(** C1 fails on the code.  With [a] zero except [a[11] = 1] and [b] the
    identity, entry (row 3, column 4) of [a.b] is [1], and
    [mtx_multiply_matrix] writes [0] into [c[2*4+3]]. *)
Theorem mtx_multiply_matrix_c11_wrong (c : matrix) :
  product_entry only_a11 unity 2 3 = 1
  /\ (mtx_multiply_matrix only_a11 unity c).[2 * 4 + 3] = 0
  /\ (mtx_multiply_matrix only_a11 unity c).[2 * 4 + 3]
     <> product_entry only_a11 unity 2 3.
Proof.
  assert (P : product_entry only_a11 unity 2 3 = 1).
  { unfold product_entry, only_a11, unity, matrix_of_list, cell. simpl. ring. }
  assert (Q : (mtx_multiply_matrix only_a11 unity c).[2 * 4 + 3] = 0).
  { change (2 * 4 + 3)%nat with 11%nat. rewrite mtx_multiply_matrix_c11.
    unfold product_entry, only_a11, unity, matrix_of_list, cell. simpl. ring. }
  split; [exact P|]. split; [exact Q|]. rewrite P, Q. lra.
Qed.

(** ** The oblique spherical-triangle solver *)

Lemma PI_gt_3 : 3 < PI.
Proof. pose proof PI2_3_2. lra. Qed.

Lemma sin_pos_below_3 (x : R) : 0 < x -> x <= 3 -> 0 < sin x.
Proof. intros H1 H2. apply sin_gt_0; [exact H1 | pose proof PI_gt_3; lra]. Qed.

Lemma sin_1_gt_half : 1 / 2 < sin 1.
Proof.
  rewrite <- sin_PI6. pose proof PI_gt_3. pose proof PI_4. pose proof PI2_1.
  apply sin_increasing_1; lra.
Qed.

(** [asin] sends a value above [sin C] above [C]. *)
Lemma asin_above (q C : R) : - (PI / 2) <= C -> C < PI / 2 -> sin C < q -> C < asin q.
Proof.
  intros H1 H2 Hq.
  destruct (Rle_dec 1 q) as [Hq1|Hq1].
  - unfold asin. destruct (Rle_dec q (-1)); [lra|].
    destruct (Rle_dec 1 q); [lra | contradiction].
  - assert (Hs : -1 <= sin C) by apply SIN_bound.
    assert (Hb : -1 <= q <= 1) by lra.
    destruct (Rlt_le_dec C (asin q)) as [L|L]; [exact L|exfalso].
    pose proof (asin_bound q) as Ha.
    assert (sin (asin q) <= sin C) by (apply sin_incr_1; lra).
    rewrite sin_asin in H by exact Hb. lra.
Qed.

Lemma asin_pos (q : R) : 0 < q -> 0 < asin q.
Proof.
  intros Hq. pose proof PI_gt_3.
  apply (asin_above q 0); [lra | lra | rewrite sin_0; exact Hq].
Qed.

Lemma triangle_1_01_1_ratio : 1 < sin 1 * sin 1 / sin 0.1.
Proof.
  assert (H0 : 0 < sin 0.1) by (apply sin_pos_below_3; lra).
  assert (H1 : sin 0.1 < 0.1) by (apply sin_lt_x; lra).
  pose proof sin_1_gt_half.
  apply Rmult_lt_reg_r with (sin 0.1); [exact H0|].
  unfold Rdiv. rewrite Rmult_assoc, Rinv_l by lra. nra.
Qed.

Lemma sph_tri_bcC_unfold_ambiguous (st : SPH_TRI) :
  tri_b st > tri_c st -> tri_C st < DTR 90 ->
  sph_tri_bcC st =
  let b := tri_b st in let c := tri_c st in let C := tri_C st in
  let B := candidate_B b c C in
  let B2 := supplement B in
  let A := napier_A b c C B in
  let A2 := napier_A b c C B2 in
  let A' := if Rltb A 0 then A2 else A in
  let B' := if Rltb A 0 then B2 else B in
  (mkSPH_TRI (asin (sin A' * sin b / sin B')) b c A' B' C,
   [call_asin (sin C * sin b / sin c); call_asin (sin A' * sin b / sin B')]).
Proof.
  intros Hb HC. unfold sph_tri_bcC.
  rewrite (Rgtb_true _ _ Hb), (Rltb_true _ _ HC). cbn [andb].
  unfold bind, c_asin, ret, candidate_B, supplement, napier_A. cbv zeta.
  destruct (Rltb _ 0); reflexivity.
Qed.

(** Napier's relation gives a positive [A] when the half-difference of
    the angles has a negative tangent and [c < b]. *)
Lemma napier_A_pos (b c C B : R) :
  tan ((C - B) / 2) < 0 -> 0 < sin ((c + b) / 2) -> sin ((c - b) / 2) < 0 ->
  0 < napier_A b c C B.
Proof.
  intros Ht Hp Hm. unfold napier_A.
  assert (Hv : 0 < tan ((C - B) / 2) * sin ((c + b) / 2) / sin ((c - b) / 2)).
  { apply Rdiv_neg_neg; [|exact Hm]. apply Rlt_gt in Hp.
    rewrite Rmult_comm. now apply Rmult_pos_neg. }
  assert (Hi : 0 < 1 / (tan ((C - B) / 2) * sin ((c + b) / 2) / sin ((c - b) / 2))).
  { apply Rdiv_lt_0_compat; lra. }
  pose proof (atan_increasing _ _ Hi) as Ha. rewrite atan_0 in Ha. lra.
Qed.

(** Signs in the example [b = 50], [c = 40], [C = 30] degrees: both
    candidates give a positive [A]. *)
Lemma example_50_40_30_signs :
  0 < napier_A (DTR 50) (DTR 40) (DTR 30) (candidate_B (DTR 50) (DTR 40) (DTR 30))
  /\ 0 < napier_A (DTR 50) (DTR 40) (DTR 30)
            (supplement (candidate_B (DTR 50) (DTR 40) (DTR 30))).
Proof.
  set (b := DTR 50). set (c := DTR 40). set (C := DTR 30).
  set (B := candidate_B b c C).
  pose proof PI_gt_3 as Hpi3. pose proof PI_4 as Hpi4.
  assert (Hb : b = 50 * 0.01745329251994329576923690768489) by reflexivity.
  assert (Hc : c = 40 * 0.01745329251994329576923690768489) by reflexivity.
  assert (HC : C = 30 * 0.01745329251994329576923690768489) by reflexivity.
  assert (Sb : 0 < sin b) by (apply sin_pos_below_3; lra).
  assert (Sc : 0 < sin c) by (apply sin_pos_below_3; lra).
  assert (SC : 0 < sin C) by (apply sin_pos_below_3; lra).
  assert (Sbc : sin c < sin b) by (apply sin_increasing_1; lra).
  assert (Hq : sin C < sin C * sin b / sin c).
  { apply Rmult_lt_reg_r with (sin c); [exact Sc|].
    unfold Rdiv. rewrite Rmult_assoc, Rinv_l by lra. nra. }
  assert (HB : C < B) by (apply asin_above; [lra | lra | exact Hq]).
  assert (HB2 : B <= PI / 2) by apply asin_bound.
  assert (Splus : 0 < sin ((c + b) / 2)) by (apply sin_pos_below_3; lra).
  assert (Sminus : sin ((c - b) / 2) < 0) by (apply sin_lt_0_var; lra).
  split; apply napier_A_pos; try assumption.
  - apply tan_lt_0; lra.
  - unfold supplement, DTR. apply tan_lt_0; lra.
Qed.



(** C2, as the code has it.  For sides [b > c] and an included angle
    [C] below 90 degrees, [sph_tri_bcC] computes the candidate
    [B = asin(sin C sin b / sin c)] and its supplement [180 - B], an
    angle [A] for each by Napier's relation, keeps the supplementary
    candidate exactly when the primary [A] is negative, and sets
    [a = asin(sin A sin b / sin B)] from the pair it kept.  For
    [b = 50], [c = 40], [C = 30] degrees the primary [A] is positive and
    is the one kept; the alternate [A] is positive too. *)
Theorem sph_tri_bcC_two_solution_case :
  (forall st : SPH_TRI,
     tri_b st > tri_c st -> tri_C st < DTR 90 ->
     let b := tri_b st in
     let c := tri_c st in
     let C := tri_C st in
     let B := candidate_B b c C in
     let B2 := supplement B in
     let A := napier_A b c C B in
     let A2 := napier_A b c C B2 in
     let st' := fst (sph_tri_bcC st) in
     (A < 0 -> tri_A st' = A2 /\ tri_B st' = B2)
     /\ (0 <= A -> tri_A st' = A /\ tri_B st' = B)
     /\ tri_a st' = asin (sin (tri_A st') * sin b / sin (tri_B st')))
  /\ 0 < napier_A (DTR 50) (DTR 40) (DTR 30) (candidate_B (DTR 50) (DTR 40) (DTR 30))
  /\ 0 < napier_A (DTR 50) (DTR 40) (DTR 30)
            (supplement (candidate_B (DTR 50) (DTR 40) (DTR 30)))
  /\ tri_A (fst (sph_tri_bcC triangle_50_40_30))
     = napier_A (DTR 50) (DTR 40) (DTR 30) (candidate_B (DTR 50) (DTR 40) (DTR 30)).
Proof.
  assert (G : forall st : SPH_TRI,
     tri_b st > tri_c st -> tri_C st < DTR 90 ->
     let b := tri_b st in
     let c := tri_c st in
     let C := tri_C st in
     let B := candidate_B b c C in
     let B2 := supplement B in
     let A := napier_A b c C B in
     let A2 := napier_A b c C B2 in
     let st' := fst (sph_tri_bcC st) in
     (A < 0 -> tri_A st' = A2 /\ tri_B st' = B2)
     /\ (0 <= A -> tri_A st' = A /\ tri_B st' = B)
     /\ tri_a st' = asin (sin (tri_A st') * sin b / sin (tri_B st'))).
  { intros st Hb HC b c C B B2 A A2 st'.
    subst st'. rewrite (sph_tri_bcC_unfold_ambiguous st Hb HC). cbv zeta.
    fold b c C. fold B. fold B2. fold A. fold A2. simpl.
    split; [|split].
    - intros HA. rewrite (Rltb_true _ _ HA). split; reflexivity.
    - intros HA. rewrite (Rltb_false _ _ HA). split; reflexivity.
    - reflexivity. }
  split; [exact G|].
  destruct example_50_40_30_signs as [H1 H2].
  split; [exact H1|]. split; [exact H2|].
  assert (Hb : tri_b triangle_50_40_30 > tri_c triangle_50_40_30)
    by (unfold triangle_50_40_30, DTR; simpl; lra).
  assert (HC : tri_C triangle_50_40_30 < DTR 90)
    by (unfold triangle_50_40_30, DTR; simpl; lra).
  apply (G triangle_50_40_30 Hb HC). simpl. lra.
Qed.

Lemma sph_tri_bcC_two_solution_case_witness :
  tri_b triangle_50_40_30 > tri_c triangle_50_40_30
  /\ tri_C triangle_50_40_30 < DTR 90
  /\ tri_a (fst (sph_tri_bcC triangle_50_40_30))
     = asin (sin (tri_A (fst (sph_tri_bcC triangle_50_40_30))) * sin (DTR 50)
             / sin (tri_B (fst (sph_tri_bcC triangle_50_40_30)))).
Proof.
  assert (Hb : tri_b triangle_50_40_30 > tri_c triangle_50_40_30)
    by (unfold triangle_50_40_30, DTR; simpl; lra).
  assert (HC : tri_C triangle_50_40_30 < DTR 90)
    by (unfold triangle_50_40_30, DTR; simpl; lra).
  split; [exact Hb|]. split; [exact HC|].
  exact (proj2 (proj2 (proj1 sph_tri_bcC_two_solution_case triangle_50_40_30 Hb HC))).
Defined.

(** C2, the claim as stated, fails on its example: for [b = 50],
    [c = 40], [C = 30] degrees the two-solution case applies, and the
    alternate candidate's [A] is not negative. *)
Lemma sph_tri_bcC_two_solution_case_counterexample :
  tri_b triangle_50_40_30 > tri_c triangle_50_40_30
  /\ tri_C triangle_50_40_30 < DTR 90
  /\ ~ napier_A (DTR 50) (DTR 40) (DTR 30)
        (supplement (candidate_B (DTR 50) (DTR 40) (DTR 30))) < 0.
Proof.
  split; [unfold triangle_50_40_30, DTR; simpl; lra|].
  split; [unfold triangle_50_40_30, DTR; simpl; lra|].
  destruct example_50_40_30_signs as [_ H2]. lra.
Qed.

(** C4 fails on the code.  For [b = 1], [c = 0.1], [C = 1] (radians) the
    two-solution case applies, and its first arcsine is called on
    [sin C sin b / sin c > 1], unclamped. *)
Theorem sph_tri_bcC_asin_out_of_domain :
  tri_b triangle_1_01_1 > tri_c triangle_1_01_1
  /\ tri_C triangle_1_01_1 < DTR 90
  /\ exists x rest,
       snd (sph_tri_bcC triangle_1_01_1) = call_asin x :: rest
       /\ 1 < x
       /\ ~ in_domain (call_asin x).
Proof.
  assert (Hb : tri_b triangle_1_01_1 > tri_c triangle_1_01_1)
    by (unfold triangle_1_01_1; simpl; lra).
  assert (HC : tri_C triangle_1_01_1 < DTR 90)
    by (unfold triangle_1_01_1, DTR; simpl; lra).
  split; [exact Hb|]. split; [exact HC|].
  rewrite (sph_tri_bcC_unfold_ambiguous _ Hb HC). cbv zeta. simpl.
  eexists. eexists. split; [reflexivity|].
  pose proof triangle_1_01_1_ratio. split; [assumption | lra].
Qed.

(** ** The symmetry transforms *)

Lemma normalize_known (v : GUT_VECTOR) (d : R) :
  0 < d -> vi v * vi v + vj v * vj v + vk v * vk v = d * d ->
  gut_normalize_vector v = mkVECTOR (vi v / d) (vj v / d) (vk v / d) (vl v).
Proof.
  intros Hd H. unfold gut_normalize_vector. rewrite H, sqrt_square by lra. reflexivity.
Qed.

Lemma build_rotation_matrix_cells (X Y Z : GUT_VECTOR) (m mt : matrix) :
  same16 (fst (build_rotation_matrix X Y Z m mt)) (columns X Y Z)
  /\ same16 (snd (build_rotation_matrix X Y Z m mt)) (rows X Y Z).
Proof.
  split; intros k Hk; do 16 (destruct k as [|k]; [reflexivity|]); lia.
Qed.

Lemma rotation_matrix_from_triangle_cells (junk : R) (p0 p1 p2 : GUT_POINT)
  (mr mrt : matrix) (vx vy vz : GUT_VECTOR) :
  let fr := axes_of p2 p0 p1 vx vy vz in
  same16 (fst (rotation_matrix_from_triangle junk p0 p1 p2 mr mrt))
         (columns (fst (fst fr)) (snd (fst fr)) (snd fr))
  /\ same16 (snd (rotation_matrix_from_triangle junk p0 p1 p2 mr mrt))
         (rows (fst (fst fr)) (snd (fst fr)) (snd fr)).
Proof.
  split; intros k Hk; do 16 (destruct k as [|k]; [reflexivity|]); lia.
Qed.

Lemma build_subface_transforms_faces (junk : R) (pgm : PROGRAM) (vx vy vz : GUT_VECTOR) :
  let f := pgm_face (build_subface_transforms junk pgm) in
  let frame1 := axes_of (corner 0 junk) (corner 1 junk) (corner 2 junk) vx vy vz in
  let frame2 := axes_of (corner 1 junk) (corner 2 junk) (corner 0 junk) vx vy vz in
  (m1 f, mt1 f) = build_rotation_matrix (fst (fst frame1)) (snd (fst frame1)) (snd frame1)
                    (m1 (pgm_face pgm)) (mt1 (pgm_face pgm))
  /\ (m2 f, mt2 f) = build_rotation_matrix (fst (fst frame2)) (snd (fst frame2)) (snd frame2)
                    (m2 (pgm_face pgm)) (mt2 (pgm_face pgm))
  /\ tm f = tm (pgm_face pgm) /\ tmt f = tmt (pgm_face pgm).
Proof. repeat split; reflexivity. Qed.

Lemma sqrt3_facts : sqrt 3 * sqrt 3 = 3 /\ 0 < sqrt 3.
Proof. split; [apply sqrt_sqrt; lra | apply sqrt_lt_R0; lra]. Qed.

Lemma frame_120 (w : R) (vx vy vz : GUT_VECTOR) :
  let fr := axes_of (corner 0 w) (corner 1 w) (corner 2 w) vx vy vz in
  let X := fst (fst fr) in let Y := snd (fst fr) in let Z := snd fr in
  (vi X = - (1 / 2) /\ vj X = sqrt 3 / 2 /\ vk X = 0)
  /\ (vi Y = - (sqrt 3 / 2) /\ vj Y = - (1 / 2) /\ vk Y = 0)
  /\ (vi Z = 0 /\ vj Z = 0 /\ vk Z = 1).
Proof.
  destruct sqrt3_facts as [Hs Hp].
  unfold axes_of, corner. cbv zeta.
  set (X := gut_normalize_vector (gut_vector _ _ vx)).
  assert (HX : X = mkVECTOR (- (1 / 2)) (sqrt 3 / 2) 0 (vl vx)).
  { subst X. rewrite (normalize_known _ 1); [|lra|simpl; nra].
    simpl. f_equal; lra. }
  rewrite HX. clearbody X. clear HX X.
  set (Y := gut_normalize_vector (gut_vector _ _ vy)).
  assert (HY : Y = mkVECTOR (-1) 0 0 (vl vy)).
  { subst Y. rewrite (normalize_known _ 1); [|lra|simpl; nra].
    simpl. f_equal; lra. }
  rewrite HY. clearbody Y. clear HY Y.
  set (Z := gut_normalize_vector (gut_cross_product _ _ vz)).
  assert (HZ : Z = mkVECTOR 0 0 1 (vl vz)).
  { subst Z. rewrite (normalize_known _ (sqrt 3 / 2)); [|lra|simpl; nra].
    simpl. f_equal; first [lra | field; lra]. }
  rewrite HZ. clearbody Z. clear HZ Z.
  rewrite (normalize_known _ 1); [|lra|simpl; nra].
  simpl. repeat split; first [lra | field; lra].
Qed.

Lemma frame_240 (w : R) (vx vy vz : GUT_VECTOR) :
  let fr := axes_of (corner 1 w) (corner 2 w) (corner 0 w) vx vy vz in
  let X := fst (fst fr) in let Y := snd (fst fr) in let Z := snd fr in
  (vi X = - (1 / 2) /\ vj X = - (sqrt 3 / 2) /\ vk X = 0)
  /\ (vi Y = sqrt 3 / 2 /\ vj Y = - (1 / 2) /\ vk Y = 0)
  /\ (vi Z = 0 /\ vj Z = 0 /\ vk Z = 1).
Proof.
  destruct sqrt3_facts as [Hs Hp].
  unfold axes_of, corner. cbv zeta.
  set (X := gut_normalize_vector (gut_vector _ _ vx)).
  assert (HX : X = mkVECTOR (- (1 / 2)) (- (sqrt 3 / 2)) 0 (vl vx)).
  { subst X. rewrite (normalize_known _ 1); [|lra|simpl; nra].
    simpl. f_equal; lra. }
  rewrite HX. clearbody X. clear HX X.
  set (Y := gut_normalize_vector (gut_vector _ _ vy)).
  assert (HY : Y = mkVECTOR (1 / 2) (- (sqrt 3 / 2)) 0 (vl vy)).
  { subst Y. rewrite (normalize_known _ 1); [|lra|simpl; nra].
    simpl. f_equal; lra. }
  rewrite HY. clearbody Y. clear HY Y.
  set (Z := gut_normalize_vector (gut_cross_product _ _ vz)).
  assert (HZ : Z = mkVECTOR 0 0 1 (vl vz)).
  { subst Z. rewrite (normalize_known _ (sqrt 3 / 2)); [|lra|simpl; nra].
    simpl. f_equal; first [lra | field; lra]. }
  rewrite HZ. clearbody Z. clear HZ Z.
  rewrite (normalize_known _ 1); [|lra|simpl; nra].
  simpl. repeat split; first [lra | field; lra].
Qed.

(** The four subface rotations, cell by cell. *)
Lemma build_subface_transforms_cells (junk : R) (pgm : PROGRAM) :
  let f := pgm_face (build_subface_transforms junk pgm) in
  same16 (m1 f) R120 /\ same16 (mt1 f) R120t
  /\ same16 (m2 f) R240 /\ same16 (mt2 f) R240t.
Proof.
  intros f.
  pose (v0 := mkVECTOR 0 0 0 0).
  destruct (build_subface_transforms_faces junk pgm v0 v0 v0) as (E1 & E2 & _).
  fold f in E1, E2.
  pose proof (frame_120 junk v0 v0 v0) as F1. cbv zeta in F1.
  pose proof (frame_240 junk v0 v0 v0) as F2. cbv zeta in F2.
  destruct F1 as ((a1 & a2 & a3) & (a4 & a5 & a6) & (a7 & a8 & a9)).
  destruct F2 as ((b1 & b2 & b3) & (b4 & b5 & b6) & (b7 & b8 & b9)).
  assert (G1 : m1 f = fst (m1 f, mt1 f)) by reflexivity.
  assert (G1t : mt1 f = snd (m1 f, mt1 f)) by reflexivity.
  assert (G2 : m2 f = fst (m2 f, mt2 f)) by reflexivity.
  assert (G2t : mt2 f = snd (m2 f, mt2 f)) by reflexivity.
  rewrite E1 in G1, G1t. rewrite E2 in G2, G2t.
  repeat split; intros k Hk.
  - rewrite G1, (proj1 (build_rotation_matrix_cells _ _ _ _ _) k Hk).
    unfold columns, R120, matrix_of_list.
    rewrite a1, a2, a3, a4, a5, a6, a7, a8, a9. reflexivity.
  - rewrite G1t, (proj2 (build_rotation_matrix_cells _ _ _ _ _) k Hk).
    unfold rows, R120t, matrix_of_list.
    rewrite a1, a2, a3, a4, a5, a6, a7, a8, a9. reflexivity.
  - rewrite G2, (proj1 (build_rotation_matrix_cells _ _ _ _ _) k Hk).
    unfold columns, R240, matrix_of_list.
    rewrite b1, b2, b3, b4, b5, b6, b7, b8, b9. reflexivity.
  - rewrite G2t, (proj2 (build_rotation_matrix_cells _ _ _ _ _) k Hk).
    unfold rows, R240t, matrix_of_list.
    rewrite b1, b2, b3, b4, b5, b6, b7, b8, b9. reflexivity.
Qed.

Lemma transform_same16 (A B : matrix) (p : GUT_POINT) :
  same16 A B -> transform A p = transform B p.
Proof.
  intros H. unfold transform, vec4_times, cell.
  rewrite !H by lia. reflexivity.
Qed.

Section RegionTable.

Variable junk : R.
Variables (F F' M0 M0t M1 M1t M2 M2t : matrix).
Variables (sf : array SUBFACE) (r : SPH_TRI) (v : array VERTEX).
Hypothesis H1 : same16 M1 R120.
Hypothesis H1t : same16 M1t R120t.
Hypothesis H2 : same16 M2 R240.
Hypothesis H2t : same16 M2t R240t.

Let pgm : PROGRAM := mkPROGRAM (mkFACE F F' M0 M0t M1 M1t M2 M2t) sf r v.

Ltac cells H M :=
  repeat match goal with
  | |- context [M ?k] => rewrite (H k) by lia
  end.

Ltac table_entries :=
  cbv beta iota zeta delta
    [pgm transform subm build_a_transforms with_subm pgm_subface sub store
     Nat.eqb Nat.ltb Nat.leb mtx_multiply_matrix memcpy mtx_set_unity
     mtx_create_scale_matrix indeterminate_matrix vec4_times cell
     vector_of_point point_of_vector vi vj vk vl px py pz pw pgm_face
     tm tmt m0 mt0 m1 mt1 m2 mt2 sumsq];
  cells H1 M1; cells H1t M1t; cells H2 M2; cells H2t M2t;
  unfold R120, R120t, R240, R240t, matrix_of_list; cbn [nth].

Lemma half_sqrt3 : sqrt 3 / 2 * (sqrt 3 / 2) = 1 - 1 / 2 * (1 / 2).
Proof. destruct sqrt3_facts as [Hs _]. nra. Qed.

Lemma table_inverse_pair (i j : nat) (p : GUT_POINT) :
  (i < 6)%nat -> (j < 6)%nat ->
  transform (subm (build_a_transforms junk pgm) j i)
    (transform (subm (build_a_transforms junk pgm) i j) p) = p.
Proof.
  intros Hi Hj. destruct p as [x y z w]. pose proof half_sqrt3 as Hh.
  destruct i as [|[|[|[|[|[|i]]]]]]; try lia;
  destruct j as [|[|[|[|[|[|j]]]]]]; try lia;
  table_entries;
  set (h := sqrt 3 / 2) in *; set (c := 1 / 2) in *;
  f_equal; ring [Hh].
Qed.

Lemma table_isometry (i j : nat) (p : GUT_POINT) :
  (i < 6)%nat -> (j < 6)%nat ->
  sumsq (transform (subm (build_a_transforms junk pgm) i j) p) = sumsq p.
Proof.
  intros Hi Hj. destruct p as [x y z w]. pose proof half_sqrt3 as Hh.
  destruct i as [|[|[|[|[|[|i]]]]]]; try lia;
  destruct j as [|[|[|[|[|[|j]]]]]]; try lia;
  table_entries;
  set (h := sqrt 3 / 2) in *; set (c := 1 / 2) in *;
  ring [Hh].
Qed.

Lemma table_diagonal (i r' c' : nat) :
  (i < 6)%nat -> (r' < 4)%nat -> (c' < 4)%nat ->
  (subm (build_a_transforms junk pgm) i i).[r' * 4 + c'] = if Nat.eqb r' c' then 1 else 0.
Proof.
  intros Hi Hr Hc.
  destruct i as [|[|[|[|[|[|i]]]]]]; try lia;
  destruct r' as [|[|[|[|r']]]]; try lia;
  destruct c' as [|[|[|[|c']]]]; try lia; reflexivity.
Qed.

(** From [i] to [j] is from [i] to region 0 and from region 0 to [j]. *)
Lemma table_through_0 (i j : nat) (p : GUT_POINT) :
  (i < 6)%nat -> (j < 6)%nat ->
  transform (subm (build_a_transforms junk pgm) i j) p
  = transform (subm (build_a_transforms junk pgm) 0 j)
      (transform (subm (build_a_transforms junk pgm) i 0) p).
Proof.
  intros Hi Hj. destruct p as [x y z w]. pose proof half_sqrt3 as Hh.
  destruct i as [|[|[|[|[|[|i]]]]]]; try lia;
  destruct j as [|[|[|[|[|[|j]]]]]]; try lia;
  table_entries;
  set (h := sqrt 3 / 2) in *; set (c := 1 / 2) in *;
  f_equal; ring [Hh].
Qed.

(** The table is closed under composition: from [i] to [j] and on to
    [k] is from [i] to [k]. *)
Lemma table_compose (i j k : nat) (p : GUT_POINT) :
  (i < 6)%nat -> (j < 6)%nat -> (k < 6)%nat ->
  transform (subm (build_a_transforms junk pgm) j k)
    (transform (subm (build_a_transforms junk pgm) i j) p)
  = transform (subm (build_a_transforms junk pgm) i k) p.
Proof.
  intros Hi Hj Hk.
  rewrite (table_through_0 j k) by assumption.
  rewrite (table_through_0 i j p) by assumption.
  rewrite (table_inverse_pair 0 j)
    by (assumption || lia).
  symmetry. apply table_through_0; assumption.
Qed.

(** Every region matrix is a symmetry about the [z] axis: a 2x2 block
    for [x] and [y], and the identity on [z] and [w]. *)
Lemma table_block (i j : nat) :
  (i < 6)%nat -> (j < 6)%nat ->
  let m := subm (build_a_transforms junk pgm) i j in
  (m.[2] = 0 /\ m.[3] = 0 /\ m.[6] = 0 /\ m.[7] = 0)
  /\ (m.[8] = 0 /\ m.[9] = 0 /\ m.[10] = 1 /\ m.[11] = 0)
  /\ (m.[12] = 0 /\ m.[13] = 0 /\ m.[14] = 0 /\ m.[15] = 1).
Proof.
  intros Hi Hj.
  destruct i as [|[|[|[|[|[|i]]]]]]; try lia;
  destruct j as [|[|[|[|[|[|j]]]]]]; try lia;
  table_entries; repeat split; ring.
Qed.

(** The 2x2 block is the one the exact rotations give. *)
Lemma table_corner (i j : nat) :
  (i < 6)%nat -> (j < 6)%nat ->
  let m := subm (build_a_transforms junk pgm) i j in
  let m' := subm reference_table i j in
  m.[0] = m'.[0] /\ m.[1] = m'.[1] /\ m.[4] = m'.[4] /\ m.[5] = m'.[5].
Proof.
  intros Hi Hj.
  destruct i as [|[|[|[|[|[|i]]]]]]; try lia;
  destruct j as [|[|[|[|[|[|j]]]]]]; try lia;
  unfold reference_table, reference_program;
  table_entries; repeat split; reflexivity.
Qed.

End RegionTable.

Lemma atan_2_bounds : PI / 4 < atan 2 /\ atan 2 < DTR 90.
Proof.
  split.
  - rewrite <- atan_1. apply atan_increasing. lra.
  - pose proof PI_4 as Hpi.
    assert (Hinv : atan 2 = PI / 2 - atan (/ 2)).
    { rewrite (atan_inv 2) by lra. ring. }
    assert (Hlow : 4 / 9 <= sin (atan (/ 2))).
    { rewrite sin_atan.
      assert (Hs : sqrt (1 + (/ 2)²) <= 9 / 8).
      { rewrite <- (sqrt_square (9 / 8)) by lra. apply sqrt_le_1; unfold Rsqr; lra. }
      assert (Hp : 0 < sqrt (1 + (/ 2)²)) by (apply sqrt_lt_R0; unfold Rsqr; lra).
      set (s := sqrt (1 + (/ 2)²)) in *.
      apply Rmult_le_reg_r with s; [exact Hp|].
      replace (/ 2 / s * s) with (/ 2) by (field; lra). lra. }
    assert (Hpos : 0 < atan (/ 2)).
    { rewrite <- atan_0. apply atan_increasing. lra. }
    pose proof (sin_lt_x _ Hpos). unfold DTR. lra.
Qed.

Lemma face_corners_in_position (q0 q1 q2 : GUT_POINT) :
  px (face_corner 0 q0) - px (face_corner 2 q2) = 0
  /\ 0 < py (face_corner 0 q0) - py (face_corner 2 q2)
  /\ pz (face_corner 0 q0) - pz (face_corner 2 q2) = 0
  /\ 0 < pz (face_corner 1 q1) - pz (face_corner 2 q2).
Proof.
  destruct atan_2_bounds as [Hlo Hhi]. pose proof PI_gt_3 as Hpi. pose proof PI_4 as Hpi4.
  pose proof (atan_bound 2) as Hb.
  unfold face_corner, gut_spherical_to_cartesian. simpl.
  set (I := DTR 180 - atan 2).
  assert (HI : atan 2 < I /\ I < PI) by (unfold I, DTR in *; lra).
  assert (Hneg : DTR (-36) = - DTR 36) by (unfold DTR; ring).
  rewrite Hneg, cos_neg, sin_neg.
  assert (SI : 0 < sin I) by (apply sin_gt_0; lra).
  assert (S36 : 0 < sin (DTR 36)).
  { apply sin_gt_0; unfold DTR; lra. }
  assert (CI : cos I < cos (atan 2)) by (apply cos_decreasing_1; lra).
  repeat split; try ring; nra.
Qed.

(** The axes when the first edge runs along [+y]: the frame is a rotation
    about the [y] axis composed with a permutation of the axes. *)
Lemma axes_of_edge_along_y (a b c : GUT_POINT) (vx vy vz : GUT_VECTOR) :
  px b - px a = 0 -> 0 < py b - py a -> pz b - pz a = 0 ->
  0 < pz c - pz a ->
  exists co si : R,
    co * co + si * si = 1
    /\ let fr := axes_of a b c vx vy vz in
       let X := fst (fst fr) in let Y := snd (fst fr) in let Z := snd fr in
       (vi X = 0 /\ vj X = 1 /\ vk X = 0)
       /\ (vi Y = si /\ vj Y = 0 /\ vk Y = co)
       /\ (vi Z = co /\ vj Z = 0 /\ vk Z = - si).
Proof.
  intros Hx Hy Hz Hg.
  set (u := py b - py a) in *.
  set (e := px c - px a). set (f := py c - py a). set (g := pz c - pz a) in *.
  set (n0 := sqrt (e * e + f * f + g * g)).
  assert (Hn0 : 0 < n0) by (apply sqrt_lt_R0; nra).
  assert (Hn0s : n0 * n0 = e * e + f * f + g * g) by (apply sqrt_sqrt; nra).
  set (nz := sqrt (g / n0 * (g / n0) + e / n0 * (e / n0))).
  assert (Hq : 0 < g / n0 * (g / n0) + e / n0 * (e / n0)).
  { assert (0 < g / n0) by (apply Rdiv_lt_0_compat; lra). nra. }
  assert (Hnz : 0 < nz) by (apply sqrt_lt_R0; exact Hq).
  assert (Hnzs : nz * nz = g / n0 * (g / n0) + e / n0 * (e / n0)) by (apply sqrt_sqrt; lra).
  exists (g / n0 / nz), (e / n0 / nz). split.
  { unfold Rdiv in *. 
    assert (E : (g * / n0 * / nz) * (g * / n0 * / nz) + (e * / n0 * / nz) * (e * / n0 * / nz)
                = (g * / n0 * (g * / n0) + e * / n0 * (e * / n0)) * (/ nz * / nz)) by ring.
    rewrite E, <- Hnzs. field. lra. }
  unfold axes_of. cbv zeta.
  set (X := gut_normalize_vector (gut_vector a b vx)).
  assert (HX : X = mkVECTOR 0 1 0 (vl vx)).
  { subst X. rewrite (normalize_known _ u); [|lra|simpl; fold u; rewrite Hx, Hz; ring].
    simpl. fold u. rewrite Hx, Hz. f_equal; field; lra. }
  rewrite HX. clearbody X. clear HX X.
  set (Y := gut_normalize_vector (gut_vector a c vy)).
  assert (HY : Y = mkVECTOR (e / n0) (f / n0) (g / n0) (vl vy)).
  { subst Y. rewrite (normalize_known _ n0); [|lra|simpl; fold e f g; lra]. reflexivity. }
  rewrite HY. clearbody Y. clear HY Y.
  set (Z := gut_normalize_vector (gut_cross_product _ _ vz)).
  assert (HZ : Z = mkVECTOR (g / n0 / nz) 0 (- (e / n0 / nz)) (vl vz)).
  { subst Z. rewrite (normalize_known _ nz); [|lra|simpl; rewrite Hnzs; ring].
    simpl. f_equal; field; lra. }
  rewrite HZ. clearbody Z. clear HZ Z.
  rewrite (normalize_known _ 1); [|lra|].
  - simpl. repeat split; field; lra.
  - simpl. unfold Rdiv in *. 
    assert (E : forall A B : R, (0 * 0 - - B * 1) * (0 * 0 - - B * 1) + (- B * 0 - A * 0) * (- B * 0 - A * 0)
                + (A * 1 - 0 * 0) * (A * 1 - 0 * 0) = A * A + B * B) by (intros; ring).
    rewrite E.
    assert (E2 : (g * / n0 * / nz) * (g * / n0 * / nz) + (e * / n0 * / nz) * (e * / n0 * / nz)
                = (g * / n0 * (g * / n0) + e * / n0 * (e * / n0)) * (/ nz * / nz)) by ring.
    rewrite E2, <- Hnzs. field. lra.
Qed.

Lemma build_face_transforms_tm (junk : R) (pgm : PROGRAM) :
  let f := pgm_face (build_face_transforms junk pgm) in
  let q := indeterminate_point junk in
  (tm f, tmt f)
  = rotation_matrix_from_triangle junk (face_corner 0 q) (face_corner 1 q) (face_corner 2 q)
      (tm (pgm_face pgm)) (tmt (pgm_face pgm)).
Proof. reflexivity. Qed.

(** The face-to-global matrix and its transpose, cell by cell: a
    rotation, for some angle whose cosine and sine are [co] and [si]. *)
Lemma build_face_transforms_cells (junk : R) (pgm : PROGRAM) :
  exists co si : R,
    co * co + si * si = 1
    /\ same16 (tm (pgm_face (build_face_transforms junk pgm))) (TM co si)
    /\ same16 (tmt (pgm_face (build_face_transforms junk pgm))) (TMt co si).
Proof.
  pose (q := indeterminate_point junk).
  pose (v0 := mkVECTOR 0 0 0 0).
  destruct (face_corners_in_position q q q) as (Hx & Hy & Hz & Hg).
  destruct (axes_of_edge_along_y (face_corner 2 q) (face_corner 0 q) (face_corner 1 q)
              v0 v0 v0 Hx Hy Hz Hg) as (co & si & Hcs & F).
  cbv zeta in F. destruct F as ((a1 & a2 & a3) & (a4 & a5 & a6) & (a7 & a8 & a9)).
  exists co, si. split; [exact Hcs|].
  pose proof (rotation_matrix_from_triangle_cells junk (face_corner 0 q) (face_corner 1 q)
              (face_corner 2 q) (tm (pgm_face pgm)) (tmt (pgm_face pgm)) v0 v0 v0) as C.
  cbv zeta in C. destruct C as [C1 C2].
  assert (E1 : tm (pgm_face (build_face_transforms junk pgm))
               = fst (rotation_matrix_from_triangle junk (face_corner 0 q) (face_corner 1 q)
                        (face_corner 2 q) (tm (pgm_face pgm)) (tmt (pgm_face pgm))))
    by reflexivity.
  assert (E2 : tmt (pgm_face (build_face_transforms junk pgm))
               = snd (rotation_matrix_from_triangle junk (face_corner 0 q) (face_corner 1 q)
                        (face_corner 2 q) (tm (pgm_face pgm)) (tmt (pgm_face pgm))))
    by reflexivity.
  split; intros k Hk.
  - rewrite E1, (C1 k Hk). unfold columns, TM, matrix_of_list.
    rewrite a1, a2, a3, a4, a5, a6, a7, a8, a9. reflexivity.
  - rewrite E2, (C2 k Hk). unfold rows, TMt, matrix_of_list.
    rewrite a1, a2, a3, a4, a5, a6, a7, a8, a9. reflexivity.
Qed.

Lemma TM_isometry (co si : R) (p : GUT_POINT) :
  co * co + si * si = 1 ->
  sumsq (transform (TM co si) p) = sumsq p
  /\ sumsq (transform (TMt co si) p) = sumsq p.
Proof.
  intros H. assert (H' : co * co = 1 - si * si) by lra.
  destruct p as [x y z w].
  unfold sumsq, transform, vec4_times, TM, TMt, matrix_of_list, cell. simpl.
  split; ring [H'].
Qed.

Lemma gut_spherical_to_cartesian_unit (az inc : R) (old : GUT_POINT) :
  sumsq (gut_spherical_to_cartesian (mkSC 1 az inc) old) = 1.
Proof.
  unfold sumsq, gut_spherical_to_cartesian. simpl.
  pose proof (sin2_cos2 az) as Ha. pose proof (sin2_cos2 inc) as Hi.
  unfold Rsqr in Ha, Hi.
  assert (Ha' : sin az * sin az = 1 - cos az * cos az) by lra.
  assert (Hi' : sin inc * sin inc = 1 - cos inc * cos inc) by lra.
  ring [Ha' Hi'].
Qed.

Lemma build_a_transforms_face (junk : R) (pgm : PROGRAM) :
  pgm_face (build_a_transforms junk pgm) = pgm_face pgm.
Proof. reflexivity. Qed.

Lemma main_setup_unfold (junk : R) (pgm0 : PROGRAM) :
  main_setup junk pgm0
  = mkPROGRAM
      (pgm_face (build_a_transforms junk
         (build_subface_transforms junk (build_face_transforms junk pgm0))))
      (pgm_subface (build_a_transforms junk
         (build_subface_transforms junk (build_face_transforms junk pgm0))))
      (mkSPH_TRI (acos (cos (DTR 36) / sin (DTR 60))) (acos (cos (DTR 60) / sin (DTR 36)))
         (acos (1 / (tan (DTR 36) * tan (DTR 60)))) (DTR 36) (DTR 60)
         (tri_C (pgm_ref (build_a_transforms junk
            (build_subface_transforms junk (build_face_transforms junk pgm0))))))
      (pgm_v (build_a_transforms junk
         (build_subface_transforms junk (build_face_transforms junk pgm0)))).
Proof. reflexivity. Qed.

Lemma pgm_face_mk (f : FACE) (s : array SUBFACE) (r : SPH_TRI) (v : array VERTEX) :
  pgm_face (mkPROGRAM f s r v) = f.
Proof. reflexivity. Qed.

Lemma pgm_subface_mk (f : FACE) (s : array SUBFACE) (r : SPH_TRI) (v : array VERTEX) :
  pgm_subface (mkPROGRAM f s r v) = s.
Proof. reflexivity. Qed.

Lemma main_setup_face (junk : R) (pgm0 : PROGRAM) :
  pgm_face (main_setup junk pgm0)
  = pgm_face (build_subface_transforms junk (build_face_transforms junk pgm0)).
Proof.
  rewrite main_setup_unfold, pgm_face_mk. apply build_a_transforms_face.
Qed.

Lemma main_setup_subface (junk : R) (pgm0 : PROGRAM) :
  pgm_subface (main_setup junk pgm0)
  = pgm_subface (build_a_transforms junk
                   (build_subface_transforms junk (build_face_transforms junk pgm0))).
Proof.
  rewrite main_setup_unfold, pgm_subface_mk. reflexivity.
Qed.

Lemma store_same {T : Type} (arr : array T) (i : nat) (x : T) : store arr i x i = x.
Proof. unfold store. now rewrite Nat.eqb_refl. Qed.

Lemma pgm_v_with_vertex (pgm : PROGRAM) (v : nat) (vx : VERTEX) :
  pgm_v (with_vertex pgm v vx) v = vx.
Proof. unfold with_vertex. simpl. apply store_same. Qed.

(** The loop that recomputes the spherical coordinates leaves the points
    of the vertex as they are. *)
Lemma sc_loop_keeps_points (v count first : nat) (pgm : PROGRAM) :
  v_p (pgm_v (for_count count first (fun i pgm =>
         let vx := pgm_v pgm v in
         with_vertex pgm v
           (mkVERTEX (v_p vx)
              (store (v_sc vx) i (gut_cartesian_to_spherical (v_p vx i) (v_sc vx i)))))
         pgm) v)
  = v_p (pgm_v pgm v).
Proof.
  revert first pgm. induction count as [|n IH]; intros first pgm; [reflexivity|].
  cbn [for_count]. rewrite IH. cbv zeta. rewrite pgm_v_with_vertex. reflexivity.
Qed.

(** The six points [generate_all_vertices] stores. *)
Lemma generate_all_vertices_points (junk : R) (pgm : PROGRAM) (v a i : nat) :
  (a < 6)%nat -> (i < 6)%nat ->
  v_p (pgm_v (generate_all_vertices junk pgm v a) v) i
  = transform (tmt (pgm_face pgm))
      (if Nat.eqb a i
       then transform (tm (pgm_face pgm)) (v_p (pgm_v pgm v) a)
       else transform (subm pgm a i) (transform (tm (pgm_face pgm)) (v_p (pgm_v pgm v) a))).
Proof.
  intros Ha Hi. unfold generate_all_vertices. cbv zeta. unfold for_range at 1.
  rewrite sc_loop_keeps_points, pgm_v_with_vertex. cbn [v_p].
  destruct a as [|[|[|[|[|[|a]]]]]]; try lia;
  destruct i as [|[|[|[|[|[|i]]]]]]; try lia; reflexivity.
Qed.

Lemma built_table (junk : R) (pgm : PROGRAM) :
  same16 (m1 (pgm_face pgm)) R120 -> same16 (mt1 (pgm_face pgm)) R120t ->
  same16 (m2 (pgm_face pgm)) R240 -> same16 (mt2 (pgm_face pgm)) R240t ->
  forall i j : nat, (i < 6)%nat -> (j < 6)%nat ->
    (forall p, transform (subm (build_a_transforms junk pgm) j i)
                 (transform (subm (build_a_transforms junk pgm) i j) p) = p)
    /\ (forall p, sumsq (transform (subm (build_a_transforms junk pgm) i j) p) = sumsq p)
    /\ (forall r c, (r < 4)%nat -> (c < 4)%nat ->
          (subm (build_a_transforms junk pgm) i i).[r * 4 + c]
          = if Nat.eqb r c then 1 else 0).
Proof.
  destruct pgm as [[TM0 TMt0 M0 M0t M1 M1t M2 M2t] sf r v].
  cbn [pgm_face m1 mt1 m2 mt2].
  intros H1 H1t H2 H2t i j Hi Hj. split; [|split].
  - intros p. now apply table_inverse_pair.
  - intros p. now apply table_isometry.
  - intros r' c' Hr Hc. now apply table_diagonal.
Qed.

Lemma subm_of_subface (pgm pgm' : PROGRAM) (i j : nat) :
  pgm_subface pgm = pgm_subface pgm' -> subm pgm i j = subm pgm' i j.
Proof. intros H. unfold subm. now rewrite H. Qed.

(** What [main_setup] leaves in the face and region tables. *)
Lemma main_setup_transforms (junk : R) (pgm0 : PROGRAM) :
  (exists co si : R,
     co * co + si * si = 1
     /\ same16 (tm (pgm_face (main_setup junk pgm0))) (TM co si)
     /\ same16 (tmt (pgm_face (main_setup junk pgm0))) (TMt co si))
  /\ forall i j : nat, (i < 6)%nat -> (j < 6)%nat ->
       (forall p, transform (subm (main_setup junk pgm0) j i)
                    (transform (subm (main_setup junk pgm0) i j) p) = p)
       /\ (forall p, sumsq (transform (subm (main_setup junk pgm0) i j) p) = sumsq p)
       /\ (forall r c, (r < 4)%nat -> (c < 4)%nat ->
             (subm (main_setup junk pgm0) i i).[r * 4 + c]
             = if Nat.eqb r c then 1 else 0).
Proof.
  pose proof (build_face_transforms_cells junk pgm0) as Hface.
  pose proof (build_subface_transforms_faces junk (build_face_transforms junk pgm0)
                (mkVECTOR 0 0 0 0) (mkVECTOR 0 0 0 0) (mkVECTOR 0 0 0 0)) as Hkeep.
  cbv zeta in Hkeep. destruct Hkeep as (_ & _ & T1 & T2).
  pose proof (build_subface_transforms_cells junk (build_face_transforms junk pgm0)) as Hcells.
  cbv zeta in Hcells. destruct Hcells as (H1 & H1t & H2 & H2t).
  pose proof (built_table junk _ H1 H1t H2 H2t) as Htab.
  pose proof (main_setup_face junk pgm0) as Ef.
  pose proof (main_setup_subface junk pgm0) as Es.
  revert Hface T1 T2 Htab Ef Es. clear H1 H1t H2 H2t.
  generalize (main_setup junk pgm0).
  generalize (build_a_transforms junk
                (build_subface_transforms junk (build_face_transforms junk pgm0))).
  generalize (build_subface_transforms junk (build_face_transforms junk pgm0)).
  generalize (build_face_transforms junk pgm0).
  intros pgm1 pgm2 pgm3 S Hface T1 T2 Htab Ef Es.
  split.
  - destruct Hface as (co & si & H & C1 & C2).
    exists co, si. split; [exact H|]. rewrite Ef, T1, T2. split; [exact C1 | exact C2].
  - intros i j Hi Hj.
    rewrite (subm_of_subface S pgm3 i j Es), (subm_of_subface S pgm3 j i Es),
            (subm_of_subface S pgm3 i i Es).
    exact (Htab i j Hi Hj).
Qed.

Lemma within_1e9_refl (a : R) : within_1e9 a a.
Proof. unfold within_1e9. replace (a - a) with 0 by ring. rewrite Rabs_R0. lra. Qed.

Lemma subface_exchange_first (i j : nat) (src dst : array GUT_POINT) (sf : array SUBFACE) :
  subface_exchange i j src dst sf 0%nat = transform (sub (sf i) j) (src 0%nat).
Proof. reflexivity. Qed.


Lemma fst_bind {A B : Type} (m : libm A) (f : A -> libm B) :
  fst (bind m f) = fst (f (fst m)).
Proof. unfold bind. destruct m as [a l1]. simpl. destruct (f a). reflexivity. Qed.

(** A vertex placed by the triangle solver is the vertex placed by
    spherical coordinates at azimuth [A] and inclination [c]. *)
Lemma create_vertex_by_strig_as_sc (junk : R) (pgm : PROGRAM) (v a : nat) (b c C : R) :
  fst (create_vertex_by_strig junk pgm v a b c C)
  = create_vertex_by_sc junk pgm v a
      (tri_A (fst (sph_tri_bcC (mkSPH_TRI 0 b c 0 0 C))))
      (tri_c (fst (sph_tri_bcC (mkSPH_TRI 0 b c 0 0 C)))).
Proof. unfold create_vertex_by_strig. cbv zeta. rewrite fst_bind. reflexivity. Qed.

Lemma generated_points_unit (junk : R) (pgm : PROGRAM) (co si : R) (v a i : nat) :
  co * co + si * si = 1 ->
  same16 (tm (pgm_face pgm)) (TM co si) ->
  same16 (tmt (pgm_face pgm)) (TMt co si) ->
  (forall j p, (j < 6)%nat -> sumsq (transform (subm pgm a j) p) = sumsq p) ->
  (a < 6)%nat -> (i < 6)%nat ->
  sumsq (v_p (pgm_v pgm v) a) = 1 ->
  sumsq (v_p (pgm_v (generate_all_vertices junk pgm v a) v) i) = 1.
Proof.
  intros Hcs Htm Htmt Htab Ha Hi Hp.
  rewrite generate_all_vertices_points by assumption.
  rewrite (transform_same16 _ _ _ Htmt).
  rewrite (proj2 (TM_isometry co si _ Hcs)).
  destruct (Nat.eqb a i).
  - rewrite (transform_same16 _ _ _ Htm), (proj1 (TM_isometry co si _ Hcs)). exact Hp.
  - rewrite Htab by assumption.
    rewrite (transform_same16 _ _ _ Htm), (proj1 (TM_isometry co si _ Hcs)). exact Hp.
Qed.

Lemma create_vertex_by_sc_unit (junk : R) (pgm : PROGRAM) (co si : R) (v a i : nat)
  (az inc : R) :
  co * co + si * si = 1 ->
  same16 (tm (pgm_face pgm)) (TM co si) ->
  same16 (tmt (pgm_face pgm)) (TMt co si) ->
  (forall j p, (j < 6)%nat -> sumsq (transform (subm pgm a j) p) = sumsq p) ->
  (a < 6)%nat -> (i < 6)%nat ->
  norm (v_p (pgm_v (create_vertex_by_sc junk pgm v a az inc) v) i) = 1.
Proof.
  intros Hcs Htm Htmt Htab Ha Hi.
  unfold create_vertex_by_sc. cbv zeta.
  unfold norm. fold (sumsq (v_p (pgm_v (generate_all_vertices junk
    (with_vertex pgm v
       (mkVERTEX (store (v_p (pgm_v pgm v)) a
                    (gut_spherical_to_cartesian (mkSC 1 az inc) (v_p (pgm_v pgm v) a)))
                 (store (v_sc (pgm_v pgm v)) a (mkSC 1 az inc)))) v a) v) i)).
  rewrite (generated_points_unit junk _ co si v a i Hcs); try assumption.
  - apply sqrt_1.
  - rewrite pgm_v_with_vertex. cbn [v_p]. rewrite store_same.
    apply gut_spherical_to_cartesian_unit.
Qed.

Lemma norm_1_on_unit_sphere (p : GUT_POINT) : norm p = 1 -> on_unit_sphere p.
Proof. intros H. unfold on_unit_sphere. rewrite H. apply within_1e9_refl. Qed.

Lemma for_count_invariant {S : Type} (P : S -> Prop) (body : nat -> S -> S) :
  (forall i s, P s -> P (body i s)) ->
  forall count first s, P s -> P (for_count count first body s).
Proof.
  intros Hb count. induction count as [|n IH]; intros first s Hs; [exact Hs|].
  cbn [for_count]. apply IH, Hb, Hs.
Qed.

Lemma for_range_invariant {S : Type} (P : S -> Prop) (body : nat -> S -> S) :
  (forall i s, P s -> P (body i s)) ->
  forall lo hi s, P s -> P (for_range lo hi body s).
Proof. intros Hb lo hi s Hs. unfold for_range. now apply for_count_invariant. Qed.

(** The vertex generator writes one vertex and leaves the transforms as
    they are, so a program state with the transforms built stays one. *)
Lemma create_vertex_by_sc_keeps_transforms (junk : R) (pgm : PROGRAM) (v a : nat)
  (az inc : R) :
  pgm_face (create_vertex_by_sc junk pgm v a az inc) = pgm_face pgm
  /\ pgm_subface (create_vertex_by_sc junk pgm v a az inc) = pgm_subface pgm.
Proof.
  unfold create_vertex_by_sc, generate_all_vertices. cbv zeta.
  apply (for_range_invariant
           (fun s => pgm_face s = pgm_face pgm /\ pgm_subface s = pgm_subface pgm)).
  - intros i s [E1 E2]. split; [exact E1 | exact E2].
  - split; reflexivity.
Qed.




(** ** The linear-algebra kernel, further *)

(** [mtx_transpose_matrix] exchanges the cells [(r, c)] and [(c, r)] of
    the 4x4 block, cell [k] receiving the old cell [(k mod 4) * 4 + k / 4];
    it touches nothing beyond the sixteen cells; and transposing twice
    gives the matrix back. *)
Theorem mtx_transpose_matrix_cells (m : matrix) :
  (forall k : nat,
     mtx_transpose_matrix m k
     = if Nat.ltb k 16 then m ((k mod 4) * 4 + k / 4)%nat else m k)
  /\ (forall k : nat, mtx_transpose_matrix (mtx_transpose_matrix m) k = m k).
Proof.
  split; intros k; do 16 (destruct k as [|k]; [reflexivity|]); reflexivity.
Qed.

Lemma affine_unity : affine unity.
Proof. unfold affine, unity, matrix_of_list, cell. simpl. repeat split; reflexivity. Qed.

(** On matrices whose last column is [(0, 0, 0, 1)], which is all the
    program multiplies, [mtx_multiply_matrix] computes the product in each
    of the sixteen cells, [c[11]] included, and the product is again such
    a matrix. *)
Theorem mtx_multiply_matrix_affine (a b c : matrix) :
  affine a -> affine b ->
  (forall r k : nat, (r < 4)%nat -> (k < 4)%nat ->
     (mtx_multiply_matrix a b c).[r * 4 + k] = product_entry a b r k)
  /\ affine (mtx_multiply_matrix a b c).
Proof.
  intros (A3 & A7 & A11 & A15) (B3 & B7 & B11 & B15).
  unfold cell in *. split.
  - intros r k Hr Hk.
    destruct r as [|[|[|[|r]]]]; try lia;
    destruct k as [|[|[|[|k]]]]; try lia;
    cbv beta iota zeta delta [mtx_multiply_matrix product_entry store Nat.eqb cell Nat.mul Nat.add];
    try reflexivity.
    rewrite A7, A11, B3, B7, B11. ring.
  - unfold affine.
    cbv beta iota zeta delta [mtx_multiply_matrix store Nat.eqb cell].
    rewrite A3, A7, A15, B3, B7, B11, B15. repeat split; ring.
Qed.

Lemma mtx_multiply_matrix_affine_witness :
  affine unity /\ affine unity
  /\ (mtx_multiply_matrix unity unity zero_matrix).[2 * 4 + 3] = product_entry unity unity 2 3.
Proof.
  assert (H : affine unity) by (unfold affine, unity, matrix_of_list, cell; simpl; repeat split; reflexivity).
  split; [exact H|]. split; [exact H|].
  apply (proj1 (mtx_multiply_matrix_affine unity unity zero_matrix H H)); lia.
Defined.

(** Multiplying composes: for matrices whose last column is
    [(0, 0, 0, 1)], the vector-matrix product of [mtx_vec4_multiply] by
    the matrix [mtx_multiply_matrix(a, b, c)] leaves in [c] is the product
    by [a] followed by the product by [b]. *)
Theorem transform_mtx_multiply_matrix (a b c : matrix) (p : GUT_POINT) :
  affine a -> affine b ->
  transform (mtx_multiply_matrix a b c) p = transform b (transform a p).
Proof.
  intros (A3 & A7 & A11 & A15) (B3 & B7 & B11 & B15).
  destruct p as [x y z w]. unfold cell in *.
  cbv beta iota zeta delta
    [transform mtx_multiply_matrix store Nat.eqb cell vec4_times
     vector_of_point point_of_vector vi vj vk vl px py pz pw].
  rewrite A3, A7, A11, A15, B3, B7, B11, B15. f_equal; ring.
Qed.

Lemma transform_mtx_multiply_matrix_witness :
  affine unity /\ affine unity
  /\ transform (mtx_multiply_matrix unity unity zero_matrix) (mkPOINT 1 2 3 1)
     = transform unity (transform unity (mkPOINT 1 2 3 1)).
Proof.
  split; [exact affine_unity|]. split; [exact affine_unity|].
  exact (transform_mtx_multiply_matrix unity unity zero_matrix (mkPOINT 1 2 3 1)
           affine_unity affine_unity).
Defined.

Lemma for_count_store {T : Type} (f : nat -> T) (count first : nat) (b : array T) (k : nat) :
  for_count count first (fun i b => store b i (f i)) b k
  = if Nat.leb first k && Nat.ltb k (first + count) then f k else b k.
Proof.
  revert first b. induction count as [|n IH]; intros first b.
  - cbn [for_count]. destruct (Nat.leb_spec first k), (Nat.ltb_spec k (first + 0)); simpl; try reflexivity; lia.
  - cbn [for_count]. rewrite IH. unfold store.
    destruct (Nat.leb_spec (S first) k), (Nat.ltb_spec k (S first + n)),
             (Nat.leb_spec first k), (Nat.ltb_spec k (first + S n)),
             (Nat.eqb_spec k first); simpl; try reflexivity; try lia.
    subst. reflexivity.
Qed.

(** [mtx_vec4_multiply(length, a, b, m)] writes the cells [b[0]] to
    [b[length-1]], each the product of the corresponding [a[i]] by [m],
    and no other cell; with [length < 1] it writes nothing. *)
Theorem mtx_vec4_multiply_cells (length : Z) (a b : array GUT_VECTOR) (m : matrix) (i : nat) :
  mtx_vec4_multiply length a b m i
  = if (Z.of_nat i <? length)%Z then vec4_times (a i) m else b i.
Proof.
  unfold mtx_vec4_multiply.
  destruct (Z.ltb_spec length 1).
  - destruct (Z.ltb_spec (Z.of_nat i) length); [lia | reflexivity].
  - destruct (Z.eqb_spec length 1).
    + subst. unfold store. destruct (Nat.eqb_spec i 0), (Z.ltb_spec (Z.of_nat i) 1);
        try reflexivity; try lia. subst. reflexivity.
    + unfold for_range. rewrite for_count_store.
      destruct (Nat.leb_spec 0 i), (Nat.ltb_spec i (0 + (Z.to_nat length - 0))),
               (Z.ltb_spec (Z.of_nat i) length); simpl; try reflexivity; lia.
Qed.

Lemma rotation_cells (m : matrix) (axis : Z) (angle : R) :
  same16 (mtx_create_rotation_matrix m axis angle)
    (if (axis =? 1)%Z then
       matrix_of_list [1; 0; 0; 0;  0; cos angle; 0; sin angle;
                       0; - sin angle; cos angle; 0;  0; 0; 0; 1]
     else if (axis =? 2)%Z then
       matrix_of_list [cos angle; 0; - sin angle; 0;  0; 1; 0; 0;
                       sin angle; 0; cos angle; 0;  0; 0; 0; 1]
     else if (axis =? 3)%Z then
       matrix_of_list [cos angle; sin angle; 0; 0;  - sin angle; cos angle; 0; 0;
                       0; 0; 1; 0;  0; 0; 0; 1]
     else unity).
Proof.
  intros k Hk. unfold mtx_create_rotation_matrix, MTX_ROTATE_X_AXIS, MTX_ROTATE_Y_AXIS,
    MTX_ROTATE_Z_AXIS.
  destruct (axis =? 1)%Z; [|destruct (axis =? 2)%Z; [|destruct (axis =? 3)%Z]];
  do 16 (destruct k as [|k]; [reflexivity|]); lia.
Qed.

Lemma transpose_same16 (A B : matrix) :
  same16 A B -> same16 (mtx_transpose_matrix A) (mtx_transpose_matrix B).
Proof.
  intros H k Hk.
  do 16 (destruct k as [|k]; [cbv beta iota zeta delta
     [mtx_transpose_matrix for_range for_count Nat.sub Nat.add Nat.mul store Nat.eqb cell];
     apply H; lia|]); lia.
Qed.

(** For every axis code but [MTX_ROTATE_X_AXIS], the matrix of
    [mtx_create_rotation_matrix] keeps the norm of every point and its
    transpose undoes it, in both orders; for a code that is none of the
    three the [switch] has no case and the matrix is the identity. *)
Theorem mtx_create_rotation_matrix_rotates (m : matrix) (axis : Z) (angle : R)
  (p : GUT_POINT) :
  axis <> MTX_ROTATE_X_AXIS ->
  let M := mtx_create_rotation_matrix m axis angle in
  sumsq (transform M p) = sumsq p
  /\ transform (mtx_transpose_matrix M) (transform M p) = p
  /\ transform M (transform (mtx_transpose_matrix M) p) = p
  /\ (axis <> MTX_ROTATE_Y_AXIS -> axis <> MTX_ROTATE_Z_AXIS -> transform M p = p).
Proof.
  intros Hx M.
  pose proof (rotation_cells m axis angle) as HM. fold M in HM.
  pose proof (transpose_same16 _ _ HM) as HT.
  unfold MTX_ROTATE_X_AXIS, MTX_ROTATE_Y_AXIS, MTX_ROTATE_Z_AXIS in *.
  destruct (Z.eqb_spec axis 1) as [E|_]; [contradiction|].
  pose proof (sin2_cos2 angle) as Hsc. unfold Rsqr in Hsc.
  assert (Hs : sin angle * sin angle = 1 - cos angle * cos angle) by lra.
  rewrite !(transform_same16 _ _ _ HT). rewrite !(transform_same16 _ _ _ HM).
  clear HM HT. clearbody M.
  destruct p as [x y z w].
  destruct (Z.eqb_spec axis 2) as [E2|N2]; [|destruct (Z.eqb_spec axis 3) as [E3|N3]];
  cbv beta iota zeta delta
    [transform mtx_transpose_matrix for_range for_count Nat.sub Nat.add Nat.mul store Nat.eqb
     cell vec4_times vector_of_point point_of_vector vi vj vk vl px py pz pw sumsq
     matrix_of_list nth unity];
  (split; [ring [Hs]|]); (split; [f_equal; ring [Hs]|]); (split; [f_equal; ring [Hs]|]);
  intros H2 H3; try contradiction; f_equal; ring.
Qed.

Lemma mtx_create_rotation_matrix_rotates_witness :
  MTX_ROTATE_Z_AXIS <> MTX_ROTATE_X_AXIS
  /\ sumsq (transform (mtx_create_rotation_matrix zero_matrix MTX_ROTATE_Z_AXIS 1)
              (mkPOINT 1 2 3 1))
     = sumsq (mkPOINT 1 2 3 1).
Proof.
  assert (H : MTX_ROTATE_Z_AXIS <> MTX_ROTATE_X_AXIS) by (intros E; discriminate E).
  split; [exact H|].
  exact (proj1 (mtx_create_rotation_matrix_rotates zero_matrix MTX_ROTATE_Z_AXIS 1
                  (mkPOINT 1 2 3 1) H)).
Defined.

(** For [MTX_ROTATE_X_AXIS] the sine is stored in [m[7]], the fourth
    column of the second row: the point [(x, y, z, w)] is sent to
    [(x, y cos - z sin, z cos, y sin + w)].  The matrix keeps the norm of
    every point exactly when the sine of the angle is zero. *)
Theorem mtx_create_rotation_matrix_x_axis (m : matrix) (angle : R) :
  let M := mtx_create_rotation_matrix m MTX_ROTATE_X_AXIS angle in
  (forall x y z w : R,
     transform M (mkPOINT x y z w)
     = mkPOINT x (y * cos angle - z * sin angle) (z * cos angle) (y * sin angle + w))
  /\ ((forall p : GUT_POINT, sumsq (transform M p) = sumsq p) <-> sin angle = 0).
Proof.
  intros M.
  pose proof (rotation_cells m MTX_ROTATE_X_AXIS angle) as HM. fold M in HM.
  change (MTX_ROTATE_X_AXIS =? 1)%Z with true in HM. cbv iota in HM.
  assert (F : forall x y z w : R,
     transform M (mkPOINT x y z w)
     = mkPOINT x (y * cos angle - z * sin angle) (z * cos angle) (y * sin angle + w)).
  { intros x y z w. rewrite (transform_same16 _ _ _ HM).
    unfold transform, vec4_times, point_of_vector, vector_of_point, matrix_of_list, cell.
    simpl. f_equal; ring. }
  split; [exact F|].
  pose proof (sin2_cos2 angle) as Hsc. unfold Rsqr in Hsc.
  split.
  - intros H. specialize (H (mkPOINT 0 1 0 0)). rewrite F in H.
    unfold sumsq in H. simpl in H.
    assert (Hs : sin angle * sin angle = 0) by nra.
    destruct (Rmult_integral _ _ Hs); assumption.
  - intros Hs [x y z w]. rewrite F. unfold sumsq. simpl. rewrite Hs.
    assert (Hc : cos angle * cos angle = 1) by (rewrite Hs in Hsc; lra).
    replace ((y * cos angle - z * 0) * (y * cos angle - z * 0))
      with (y * y * (cos angle * cos angle)) by ring.
    replace (z * cos angle * (z * cos angle)) with (z * z * (cos angle * cos angle)) by ring.
    rewrite Hc. ring.
Qed.

(** About the [z] axis, and about the [y] axis, the rotation matrices
    compose under [mtx_multiply_matrix] by adding their angles, and
    [mtx_transpose_matrix] gives the rotation by the opposite angle. *)
Theorem mtx_create_rotation_matrix_compose (m m' c : matrix) (alpha beta : R) :
  same16 (mtx_multiply_matrix (mtx_create_rotation_matrix m MTX_ROTATE_Z_AXIS alpha)
            (mtx_create_rotation_matrix m' MTX_ROTATE_Z_AXIS beta) c)
         (mtx_create_rotation_matrix c MTX_ROTATE_Z_AXIS (alpha + beta))
  /\ same16 (mtx_multiply_matrix (mtx_create_rotation_matrix m MTX_ROTATE_Y_AXIS alpha)
               (mtx_create_rotation_matrix m' MTX_ROTATE_Y_AXIS beta) c)
            (mtx_create_rotation_matrix c MTX_ROTATE_Y_AXIS (alpha + beta))
  /\ same16 (mtx_transpose_matrix (mtx_create_rotation_matrix m MTX_ROTATE_Z_AXIS alpha))
            (mtx_create_rotation_matrix m MTX_ROTATE_Z_AXIS (- alpha))
  /\ same16 (mtx_transpose_matrix (mtx_create_rotation_matrix m MTX_ROTATE_Y_AXIS alpha))
            (mtx_create_rotation_matrix m MTX_ROTATE_Y_AXIS (- alpha)).
Proof.
  repeat split; intros k Hk;
  do 16 (destruct k as [|k];
    [cbv beta iota zeta delta
       [mtx_create_rotation_matrix MTX_ROTATE_Z_AXIS MTX_ROTATE_Y_AXIS MTX_ROTATE_X_AXIS
        Z.eqb Pos.eqb mtx_multiply_matrix mtx_transpose_matrix mtx_set_unity
        for_range for_count Nat.sub Nat.add Nat.mul store Nat.eqb cell];
     rewrite ?cos_plus, ?sin_plus, ?cos_neg, ?sin_neg; ring|]); lia.
Qed.

(** ** Vectors and frames *)

(** [gut_normalize_vector] on a vector that is not zero leaves a vector
    of length 1 with the same direction and the same fourth member;
    normalising again changes nothing. *)
Theorem gut_normalize_vector_unit (v : GUT_VECTOR) :
  dot v v <> 0 ->
  let u := gut_normalize_vector v in
  dot u u = 1
  /\ vl u = vl v
  /\ 0 < dot u v
  /\ gut_cross_product u v v = mkVECTOR 0 0 0 (vl v)
  /\ gut_normalize_vector u = u.
Proof.
  intros Hv u. destruct v as [x y z l]. unfold dot in *. simpl in Hv.
  assert (Hq : 0 < x * x + y * y + z * z) by nra.
  set (d := sqrt (x * x + y * y + z * z)).
  assert (Hd : 0 < d) by (apply sqrt_lt_R0; exact Hq).
  assert (Hdd : d * d = x * x + y * y + z * z) by (apply sqrt_sqrt; lra).
  assert (Eu : u = mkVECTOR (x / d) (y / d) (z / d) l) by reflexivity.
  rewrite Eu. simpl.
  assert (E1 : x / d * (x / d) + y / d * (y / d) + z / d * (z / d) = 1).
  { replace (x / d * (x / d) + y / d * (y / d) + z / d * (z / d))
      with ((x * x + y * y + z * z) / (d * d)) by (field; lra).
    rewrite <- Hdd. field. nra. }
  split; [exact E1|]. split; [reflexivity|]. split.
  { replace (x / d * x + y / d * y + z / d * z) with ((x * x + y * y + z * z) / d)
      by (field; lra).
    apply Rdiv_lt_0_compat; assumption. }
  split.
  { unfold gut_cross_product. simpl. f_equal; field; lra. }
  rewrite (normalize_known _ 1); [|lra|simpl; lra].
  simpl. f_equal; field; lra.
Qed.

Lemma gut_normalize_vector_unit_witness :
  dot (mkVECTOR 3 4 0 1) (mkVECTOR 3 4 0 1) <> 0
  /\ dot (gut_normalize_vector (mkVECTOR 3 4 0 1)) (gut_normalize_vector (mkVECTOR 3 4 0 1)) = 1.
Proof.
  assert (H : dot (mkVECTOR 3 4 0 1) (mkVECTOR 3 4 0 1) <> 0) by (unfold dot; simpl; lra).
  split; [exact H|].
  exact (proj1 (gut_normalize_vector_unit (mkVECTOR 3 4 0 1) H)).
Defined.

(** The vector [gut_cross_product] stores is orthogonal to both
    arguments, its squared length is [|a|^2 |b|^2 - (a.b)^2], exchanging
    the arguments reverses it, and the fourth member of the output is left
    as it was. *)
Theorem gut_cross_product_orthogonal (a b c : GUT_VECTOR) :
  let n := gut_cross_product a b c in
  dot a n = 0 /\ dot b n = 0
  /\ dot n n = dot a a * dot b b - dot a b * dot a b
  /\ vl n = vl c
  /\ dot n (gut_cross_product b a c) = - dot n n.
Proof.
  destruct a as [a1 a2 a3 a4], b as [b1 b2 b3 b4], c as [c1 c2 c3 c4].
  unfold dot, gut_cross_product. simpl. repeat split; ring.
Qed.

(** The axes of a triangle that is not degenerate, in closed form. *)

Lemma axes_of_closed_form (a b c : GUT_POINT) (vx vy vz : GUT_VECTOR) :
  let u1 := px b - px a in let u2 := py b - py a in let u3 := pz b - pz a in
  let v1 := px c - px a in let v2 := py c - py a in let v3 := pz c - pz a in
  let n1 := u2 * v3 - u3 * v2 in let n2 := u3 * v1 - u1 * v3 in let n3 := u1 * v2 - u2 * v1 in
  n1 * n1 + n2 * n2 + n3 * n3 <> 0 ->
  exists U N : R,
    0 < U /\ 0 < N /\ U * U = u1 * u1 + u2 * u2 + u3 * u3
    /\ N * N = n1 * n1 + n2 * n2 + n3 * n3
    /\ let fr := axes_of a b c vx vy vz in
       let X := fst (fst fr) in let Y := snd (fst fr) in let Z := snd fr in
       (vi X = u1 / U /\ vj X = u2 / U /\ vk X = u3 / U)
       /\ (vi Y = (n2 * u3 - n3 * u2) / (N * U) /\ vj Y = (n3 * u1 - n1 * u3) / (N * U)
           /\ vk Y = (n1 * u2 - n2 * u1) / (N * U))
       /\ (vi Z = n1 / N /\ vj Z = n2 / N /\ vk Z = n3 / N).
Proof.
  intros u1 u2 u3 v1 v2 v3 n1 n2 n3 Hn.
  assert (Hnn : 0 < n1 * n1 + n2 * n2 + n3 * n3) by nra.
  assert (Huu : 0 < u1 * u1 + u2 * u2 + u3 * u3).
  { destruct (Req_dec (u1 * u1 + u2 * u2 + u3 * u3) 0) as [E|E]; [|nra].
    assert (u1 = 0) by nra. assert (u2 = 0) by nra. assert (u3 = 0) by nra.
    exfalso. apply Hn. unfold n1, n2, n3. rewrite H, H0, H1. ring. }
  assert (Hvv : 0 < v1 * v1 + v2 * v2 + v3 * v3).
  { destruct (Req_dec (v1 * v1 + v2 * v2 + v3 * v3) 0) as [E|E]; [|nra].
    assert (v1 = 0) by nra. assert (v2 = 0) by nra. assert (v3 = 0) by nra.
    exfalso. apply Hn. unfold n1, n2, n3. rewrite H, H0, H1. ring. }
  set (U := sqrt (u1 * u1 + u2 * u2 + u3 * u3)).
  set (V := sqrt (v1 * v1 + v2 * v2 + v3 * v3)).
  set (N := sqrt (n1 * n1 + n2 * n2 + n3 * n3)).
  assert (HU : 0 < U) by (apply sqrt_lt_R0; exact Huu).
  assert (HV : 0 < V) by (apply sqrt_lt_R0; exact Hvv).
  assert (HN : 0 < N) by (apply sqrt_lt_R0; exact Hnn).
  assert (HUU : U * U = u1 * u1 + u2 * u2 + u3 * u3) by (apply sqrt_sqrt; lra).
  assert (HVV : V * V = v1 * v1 + v2 * v2 + v3 * v3) by (apply sqrt_sqrt; lra).
  assert (HNN : N * N = n1 * n1 + n2 * n2 + n3 * n3) by (apply sqrt_sqrt; lra).
  exists U, N. repeat (split; [assumption|]).
  unfold axes_of. cbv zeta.
  set (X := gut_normalize_vector (gut_vector a b vx)).
  assert (EX : X = mkVECTOR (u1 / U) (u2 / U) (u3 / U) (vl vx)) by reflexivity.
  rewrite EX. clearbody X. clear EX X.
  set (Y0 := gut_normalize_vector (gut_vector a c vy)).
  assert (EY0 : Y0 = mkVECTOR (v1 / V) (v2 / V) (v3 / V) (vl vy)) by reflexivity.
  rewrite EY0. clearbody Y0. clear EY0 Y0.
  set (Z := gut_normalize_vector (gut_cross_product _ _ vz)).
  assert (EZ : Z = mkVECTOR (n1 / N) (n2 / N) (n3 / N) (vl vz)).
  { subst Z. rewrite (normalize_known _ (N / (U * V))).
    - simpl. unfold n1, n2, n3. f_equal; field; lra.
    - apply Rdiv_lt_0_compat; nra.
    - simpl.
      replace (N / (U * V) * (N / (U * V))) with ((N * N) / ((U * U) * (V * V)))
        by (field; lra).
      rewrite HNN. unfold n1, n2, n3.
      field. lra. }
  rewrite EZ. clearbody Z. clear EZ Z.
  rewrite (normalize_known _ 1); [|lra|].
  - simpl. repeat split; field; lra.
  - simpl.
    assert (G : (n2 * u3 - n3 * u2) * (n2 * u3 - n3 * u2)
                + (n3 * u1 - n1 * u3) * (n3 * u1 - n1 * u3)
                + (n1 * u2 - n2 * u1) * (n1 * u2 - n2 * u1)
                = (n1 * n1 + n2 * n2 + n3 * n3) * (u1 * u1 + u2 * u2 + u3 * u3)).
    { unfold n1, n2, n3. ring. }
    replace ((n2 / N * (u3 / U) - n3 / N * (u2 / U)) * (n2 / N * (u3 / U) - n3 / N * (u2 / U))
             + (n3 / N * (u1 / U) - n1 / N * (u3 / U)) * (n3 / N * (u1 / U) - n1 / N * (u3 / U))
             + (n1 / N * (u2 / U) - n2 / N * (u1 / U)) * (n1 / N * (u2 / U) - n2 / N * (u1 / U)))
      with (((n2 * u3 - n3 * u2) * (n2 * u3 - n3 * u2)
             + (n3 * u1 - n1 * u3) * (n3 * u1 - n1 * u3)
             + (n1 * u2 - n2 * u1) * (n1 * u2 - n2 * u1)) / ((N * N) * (U * U)))
      by (field; lra).
    rewrite G, HNN, HUU. field. lra.
Qed.

Lemma frame_gram (x1 x2 x3 z1 z2 z3 : R) :
  x1 * x1 + x2 * x2 + x3 * x3 = 1 -> z1 * z1 + z2 * z2 + z3 * z3 = 1 ->
  x1 * z1 + x2 * z2 + x3 * z3 = 0 ->
  let y1 := z2 * x3 - z3 * x2 in
  let y2 := z3 * x1 - z1 * x3 in
  let y3 := z1 * x2 - z2 * x1 in
  (x1 * x1 + y1 * y1 + z1 * z1 = 1 /\ x2 * x2 + y2 * y2 + z2 * z2 = 1
   /\ x3 * x3 + y3 * y3 + z3 * z3 = 1)
  /\ (x1 * x2 + y1 * y2 + z1 * z2 = 0 /\ x1 * x3 + y1 * y3 + z1 * z3 = 0
      /\ x2 * x3 + y2 * y3 + z2 * z3 = 0)
  /\ (y1 * y1 + y2 * y2 + y3 * y3 = 1 /\ x1 * y1 + x2 * y2 + x3 * y3 = 0
      /\ y1 * z1 + y2 * z2 + y3 * z3 = 0).
Proof.
  intros HX HZ HXZ y1 y2 y3. unfold y1, y2, y3.
  repeat split; nsatz.
Qed.

(** A right-handed orthonormal frame, as a matrix and its transpose. *)

Lemma frame_inverse (X Y Z : GUT_VECTOR) (p : GUT_POINT) :
  dot X X = 1 -> dot Z Z = 1 -> dot X Z = 0 ->
  vi Y = vj Z * vk X - vk Z * vj X ->
  vj Y = vk Z * vi X - vi Z * vk X ->
  vk Y = vi Z * vj X - vj Z * vi X ->
  transform (rows X Y Z) (transform (columns X Y Z) p) = p
  /\ transform (columns X Y Z) (transform (rows X Y Z) p) = p
  /\ sumsq (transform (columns X Y Z) p) = sumsq p
  /\ sumsq (transform (rows X Y Z) p) = sumsq p.
Proof.
  destruct X as [x1 x2 x3 x4], Y as [y1 y2 y3 y4], Z as [z1 z2 z3 z4], p as [a b c w].
  unfold dot. cbn [vi vj vk vl]. intros HX HZ HXZ E1 E2 E3.
  destruct (frame_gram x1 x2 x3 z1 z2 z3 HX HZ HXZ)
    as ((R11 & R22 & R33) & (R12 & R13 & R23) & (CY & CXY & CYZ)).
  cbv zeta in *. rewrite <- E1, <- E2, <- E3 in *. clear E1 E2 E3.
  unfold sumsq, transform, vec4_times, point_of_vector, vector_of_point, columns, rows,
    matrix_of_list, cell. cbn [nth vi vj vk vl px py pz pw].
  split.
  { f_equal; apply Rminus_diag_uniq.
    - replace (_ - _) with
        (a * (x1 * x1 + y1 * y1 + z1 * z1 - 1) + b * (x1 * x2 + y1 * y2 + z1 * z2)
         + c * (x1 * x3 + y1 * y3 + z1 * z3)) by ring.
      rewrite R11, R12, R13. ring.
    - replace (_ - _) with
        (a * (x1 * x2 + y1 * y2 + z1 * z2) + b * (x2 * x2 + y2 * y2 + z2 * z2 - 1)
         + c * (x2 * x3 + y2 * y3 + z2 * z3)) by ring.
      rewrite R22, R12, R23. ring.
    - replace (_ - _) with
        (a * (x1 * x3 + y1 * y3 + z1 * z3) + b * (x2 * x3 + y2 * y3 + z2 * z3)
         + c * (x3 * x3 + y3 * y3 + z3 * z3 - 1)) by ring.
      rewrite R33, R13, R23. ring.
    - ring. }
  split.
  { f_equal; apply Rminus_diag_uniq.
    - replace (_ - _) with
        (a * (x1 * x1 + x2 * x2 + x3 * x3 - 1) + b * (x1 * y1 + x2 * y2 + x3 * y3)
         + c * (x1 * z1 + x2 * z2 + x3 * z3)) by ring.
      rewrite HX, CXY, HXZ. ring.
    - replace (_ - _) with
        (a * (x1 * y1 + x2 * y2 + x3 * y3) + b * (y1 * y1 + y2 * y2 + y3 * y3 - 1)
         + c * (y1 * z1 + y2 * z2 + y3 * z3)) by ring.
      rewrite CY, CXY, CYZ. ring.
    - replace (_ - _) with
        (a * (x1 * z1 + x2 * z2 + x3 * z3) + b * (y1 * z1 + y2 * z2 + y3 * z3)
         + c * (z1 * z1 + z2 * z2 + z3 * z3 - 1)) by ring.
      rewrite HZ, HXZ, CYZ. ring.
    - ring. }
  split; apply Rminus_diag_uniq.
  - replace (_ - _) with
      (a * a * (x1 * x1 + y1 * y1 + z1 * z1 - 1) + b * b * (x2 * x2 + y2 * y2 + z2 * z2 - 1)
       + c * c * (x3 * x3 + y3 * y3 + z3 * z3 - 1)
       + 2 * a * b * (x1 * x2 + y1 * y2 + z1 * z2)
       + 2 * a * c * (x1 * x3 + y1 * y3 + z1 * z3)
       + 2 * b * c * (x2 * x3 + y2 * y3 + z2 * z3)) by ring.
    rewrite R11, R22, R33, R12, R13, R23. ring.
  - replace (_ - _) with
      (a * a * (x1 * x1 + x2 * x2 + x3 * x3 - 1) + b * b * (y1 * y1 + y2 * y2 + y3 * y3 - 1)
       + c * c * (z1 * z1 + z2 * z2 + z3 * z3 - 1)
       + 2 * a * b * (x1 * y1 + x2 * y2 + x3 * y3)
       + 2 * a * c * (x1 * z1 + x2 * z2 + x3 * z3)
       + 2 * b * c * (y1 * z1 + y2 * z2 + y3 * z3)) by ring.
    rewrite HX, CY, HZ, CXY, HXZ, CYZ. ring.
Qed.

(** For three points that are not on a line, the matrices [mr] and
    [mrt] of [rotation_matrix_from_triangle] undo each other in both
    orders and keep the norm; [mr] lays the triangle flat: its three
    corners get the same [z], the edge from [p2] to [p0] runs along [+x],
    and [p1] is on the side of [+y]. *)
Theorem rotation_matrix_from_triangle_frame (junk : R) (p0 p1 p2 : GUT_POINT)
  (mr mrt : matrix) (p : GUT_POINT) :
  dot (triangle_normal p0 p1 p2) (triangle_normal p0 p1 p2) <> 0 ->
  let r := rotation_matrix_from_triangle junk p0 p1 p2 mr mrt in
  let local := transform (fst r) in
  transform (snd r) (local p) = p
  /\ local (transform (snd r) p) = p
  /\ sumsq (local p) = sumsq p
  /\ (pz (local p0) = pz (local p2) /\ pz (local p1) = pz (local p2))
  /\ (py (local p0) = py (local p2) /\ px (local p2) < px (local p0))
  /\ py (local p2) < py (local p1).
Proof.
  intros Hn r local.
  pose (v0 := mkVECTOR 0 0 0 0).
  destruct (axes_of_closed_form p2 p0 p1 v0 v0 v0 Hn) as (U & N & HU & HN & HUU & HNN & F).
  cbv zeta in F.
  pose proof (rotation_matrix_from_triangle_cells junk p0 p1 p2 mr mrt v0 v0 v0) as C.
  cbv zeta in C. fold r in C. destruct C as [C1 C2].
  revert F C1 C2.
  generalize (axes_of p2 p0 p1 v0 v0 v0). intros [[X Y] Z]. cbn [fst snd].
  intros ((a1 & a2 & a3) & (a4 & a5 & a6) & (a7 & a8 & a9)) C1 C2.
  set (u1 := px p0 - px p2) in *. set (u2 := py p0 - py p2) in *.
  set (u3 := pz p0 - pz p2) in *.
  set (v1 := px p1 - px p2) in *. set (v2 := py p1 - py p2) in *.
  set (v3 := pz p1 - pz p2) in *.
  set (n1 := u2 * v3 - u3 * v2) in *. set (n2 := u3 * v1 - u1 * v3) in *.
  set (n3 := u1 * v2 - u2 * v1) in *.
  assert (HXX : dot X X = 1).
  { unfold dot. rewrite a1, a2, a3.
    replace (u1 / U * (u1 / U) + u2 / U * (u2 / U) + u3 / U * (u3 / U))
      with ((u1 * u1 + u2 * u2 + u3 * u3) / (U * U)) by (field; lra).
    rewrite <- HUU. field. lra. }
  assert (HZZ : dot Z Z = 1).
  { unfold dot. rewrite a7, a8, a9.
    replace (n1 / N * (n1 / N) + n2 / N * (n2 / N) + n3 / N * (n3 / N))
      with ((n1 * n1 + n2 * n2 + n3 * n3) / (N * N)) by (field; lra).
    rewrite <- HNN. field. lra. }
  assert (HXZ : dot X Z = 0).
  { unfold dot. rewrite a1, a2, a3, a7, a8, a9. unfold n1, n2, n3. field. lra. }
  assert (Y1 : vi Y = vj Z * vk X - vk Z * vj X) by (rewrite a4, a8, a3, a9, a2; field; lra).
  assert (Y2 : vj Y = vk Z * vi X - vi Z * vk X) by (rewrite a5, a9, a1, a7, a3; field; lra).
  assert (Y3 : vk Y = vi Z * vj X - vj Z * vi X) by (rewrite a6, a7, a2, a8, a1; field; lra).
  destruct (frame_inverse X Y Z p HXX HZZ HXZ Y1 Y2 Y3) as (G1 & G2 & G3 & _).
  assert (L : forall q, local q = transform (columns X Y Z) q).
  { intros q. unfold local. apply transform_same16. exact C1. }
  rewrite !L. rewrite (transform_same16 _ _ _ C2). rewrite (transform_same16 _ _ p C2).
  split; [exact G1|]. split; [exact G2|]. split; [exact G3|].
  destruct p0 as [x0 y0 z0 w0], p1 as [x1 y1 z1 w1], p2 as [x2 y2 z2 w2].
  unfold transform, vec4_times, point_of_vector, vector_of_point, columns, matrix_of_list, cell.
  cbn [nth vi vj vk vl px py pz pw] in *.
  rewrite a1, a2, a3, a4, a5, a6, a7, a8, a9.
  assert (HNU : 0 < N * U) by nra.
  repeat split.
  - apply Rminus_diag_uniq.
    replace (_ - _) with ((u1 * n1 + u2 * n2 + u3 * n3) / N) by (unfold u1, u2, u3; field; lra).
    unfold n1, n2, n3. field. lra.
  - apply Rminus_diag_uniq.
    replace (_ - _) with ((v1 * n1 + v2 * n2 + v3 * n3) / N) by (unfold v1, v2, v3; field; lra).
    unfold n1, n2, n3. field. lra.
  - apply Rminus_diag_uniq.
    replace (_ - _) with
      ((u1 * (n2 * u3 - n3 * u2) + u2 * (n3 * u1 - n1 * u3) + u3 * (n1 * u2 - n2 * u1)) / (N * U))
      by (unfold u1, u2, u3; field; lra).
    field. lra.
  - apply (proj1 (Rlt_0_minus _ _)).
    replace (_ - _) with ((u1 * u1 + u2 * u2 + u3 * u3) / U) by (unfold u1, u2, u3; field; lra).
    rewrite <- HUU. apply Rdiv_lt_0_compat; nra.
  - apply (proj1 (Rlt_0_minus _ _)).
    replace (_ - _) with
      ((v1 * (n2 * u3 - n3 * u2) + v2 * (n3 * u1 - n1 * u3) + v3 * (n1 * u2 - n2 * u1)) / (N * U))
      by (unfold v1, v2, v3; field; lra).
    replace (v1 * (n2 * u3 - n3 * u2) + v2 * (n3 * u1 - n1 * u3) + v3 * (n1 * u2 - n2 * u1))
      with (n1 * n1 + n2 * n2 + n3 * n3) by (unfold n1, n2, n3; ring).
    rewrite <- HNN. apply Rdiv_lt_0_compat; nra.
Qed.

Lemma rotation_matrix_from_triangle_frame_witness :
  dot (triangle_normal (mkPOINT 1 0 0 1) (mkPOINT 0 1 0 1) (mkPOINT 0 0 1 1))
      (triangle_normal (mkPOINT 1 0 0 1) (mkPOINT 0 1 0 1) (mkPOINT 0 0 1 1)) <> 0
  /\ transform
       (snd (rotation_matrix_from_triangle 0 (mkPOINT 1 0 0 1) (mkPOINT 0 1 0 1)
               (mkPOINT 0 0 1 1) zero_matrix zero_matrix))
       (transform
          (fst (rotation_matrix_from_triangle 0 (mkPOINT 1 0 0 1) (mkPOINT 0 1 0 1)
                  (mkPOINT 0 0 1 1) zero_matrix zero_matrix))
          (mkPOINT 1 2 3 1))
     = mkPOINT 1 2 3 1.
Proof.
  assert (H : dot (triangle_normal (mkPOINT 1 0 0 1) (mkPOINT 0 1 0 1) (mkPOINT 0 0 1 1))
                  (triangle_normal (mkPOINT 1 0 0 1) (mkPOINT 0 1 0 1) (mkPOINT 0 0 1 1)) <> 0).
  { unfold dot, triangle_normal, gut_cross_product, gut_vector. simpl. lra. }
  split; [exact H|].
  exact (proj1 (rotation_matrix_from_triangle_frame 0 (mkPOINT 1 0 0 1) (mkPOINT 0 1 0 1)
                  (mkPOINT 0 0 1 1) zero_matrix zero_matrix (mkPOINT 1 2 3 1) H)).
Defined.

(** ** The converter, further *)

(** The converter on a point away from the origin. *)

Lemma gut_cartesian_to_spherical_nondegenerate (p : GUT_POINT) (s : GUT_SPHERICAL_COORD) :
  ZERO < norm p ->
  gut_cartesian_to_spherical p s
  = mkSC (norm p) (azimuth_of (px p) (py p)) (acos (pz p / norm p)).
Proof.
  intros H.
  assert (Hr : Rgtb (Rabs (norm p)) ZERO = true).
  { apply Rgtb_true. rewrite Rabs_right; [exact H | apply Rle_ge, norm_nonneg]. }
  unfold gut_cartesian_to_spherical, azimuth_of. simpl. fold (norm p). rewrite Hr.
  repeat match goal with |- context [if ?b then _ else _] => destruct b end; reflexivity.
Qed.

Lemma DTR_180_bounds : 3 < DTR 180 /\ DTR 180 < 4 /\ DTR 90 * 2 = DTR 180
  /\ DTR (-90) = - DTR 90 /\ DTR (-180) = - DTR 180.
Proof. unfold DTR. repeat split; lra. Qed.


Lemma norm_above_x (p : GUT_POINT) : Rabs (px p) <= norm p.
Proof.
  unfold norm. rewrite <- sqrt_Rsqr_abs. apply sqrt_le_1_alt. unfold Rsqr.
  nra.
Qed.

(** Cartesian to spherical and back, in the half-space [x > 0] where the
    program keeps its vertices: for [x] above the epsilon and [y] zero or
    outside the epsilon, [gut_spherical_to_cartesian] returns the
    coordinates [gut_cartesian_to_spherical] started from. *)
Theorem cartesian_spherical_round_trip (p : GUT_POINT) (s : GUT_SPHERICAL_COORD)
  (q : GUT_POINT) :
  ZERO < px p -> ZERO < Rabs (py p) \/ py p = 0 ->
  gut_spherical_to_cartesian (gut_cartesian_to_spherical p s) q
  = mkPOINT (px p) (py p) (pz p) (pw q).
Proof.
  intros Hx Hy.
  assert (Z0 : 0 < ZERO) by (unfold ZERO; lra).
  pose proof (norm_above_x p) as Hn.
  assert (Hr : ZERO < norm p) by (revert Hn; split_Rabs; lra).
  rewrite gut_cartesian_to_spherical_nondegenerate by exact Hr.
  destruct p as [x y z w]. cbn [px py pz pw] in *.
  unfold gut_spherical_to_cartesian. cbn [radius azimuth inclination pw].
  set (r := norm (mkPOINT x y z w)) in *.
  assert (Hrr : r * r = x * x + y * y + z * z).
  { unfold r, norm. cbn [px py pz]. apply sqrt_sqrt. nra. }
  assert (Haz : azimuth_of x y = atan (y / x)).
  { unfold azimuth_of.
    rewrite (Rleb_false (Rabs x) ZERO) by (split_Rabs; lra).
    rewrite (Rgtb_true x 0) by lra.
    destruct Hy as [Hy|Hy].
    - rewrite (Rleb_false (Rabs y) ZERO) by lra. reflexivity.
    - subst y. rewrite Rabs_R0, (Rleb_true 0 ZERO) by lra.
      unfold Rdiv. rewrite Rmult_0_l, atan_0. reflexivity. }
  rewrite Haz.
  set (rho := sqrt (x * x + y * y)).
  assert (Hrho : 0 < rho) by (apply sqrt_lt_R0; nra).
  assert (Hrho2 : rho * rho = x * x + y * y) by (apply sqrt_sqrt; nra).
  assert (Hzr : -1 <= z / r <= 1).
  { assert (z * z <= r * r) by nra.
    assert (- r <= z <= r) by nra.
    split.
    - apply Rmult_le_reg_r with r; [lra|].
      replace (z / r * r) with z by (field; lra). lra.
    - apply Rmult_le_reg_r with r; [lra|].
      replace (z / r * r) with z by (field; lra). lra. }
  assert (Hsin : sin (acos (z / r)) = rho / r).
  { rewrite sin_acos by exact Hzr.
    replace (1 - (z / r)²) with ((rho / r) * (rho / r)).
    - apply sqrt_square. apply Rlt_le, Rdiv_lt_0_compat; lra.
    - unfold Rsqr. replace (rho / r * (rho / r)) with ((rho * rho) / (r * r)) by (field; lra).
      rewrite Hrho2.
      replace (1 - z / r * (z / r)) with ((r * r - z * z) / (r * r)) by (field; lra).
      rewrite Hrr. f_equal. ring. }
  assert (Hsq : sqrt (1 + (y / x)²) = rho / x).
  { replace (1 + (y / x)²) with ((rho / x) * (rho / x)).
    - apply sqrt_square. apply Rlt_le, Rdiv_lt_0_compat; lra.
    - unfold Rsqr. replace (rho / x * (rho / x)) with ((rho * rho) / (x * x)) by (field; lra).
      rewrite Hrho2. field. lra. }
  rewrite cos_acos by exact Hzr.
  rewrite Hsin, cos_atan, sin_atan, Hsq.
  f_equal; field; lra.
Qed.

Lemma cartesian_spherical_round_trip_witness :
  ZERO < px (mkPOINT 3 (-4) 12 1)
  /\ (ZERO < Rabs (py (mkPOINT 3 (-4) 12 1)) \/ py (mkPOINT 3 (-4) 12 1) = 0)
  /\ gut_spherical_to_cartesian
       (gut_cartesian_to_spherical (mkPOINT 3 (-4) 12 1) (mkSC 0 0 0)) (mkPOINT 0 0 0 7)
     = mkPOINT 3 (-4) 12 7.
Proof.
  assert (H1 : ZERO < px (mkPOINT 3 (-4) 12 1)) by (unfold ZERO; simpl; lra).
  assert (H2 : ZERO < Rabs (py (mkPOINT 3 (-4) 12 1)) \/ py (mkPOINT 3 (-4) 12 1) = 0).
  { left. unfold ZERO. simpl. rewrite Rabs_left; lra. }
  split; [exact H1|]. split; [exact H2|].
  exact (cartesian_spherical_round_trip (mkPOINT 3 (-4) 12 1) (mkSC 0 0 0) (mkPOINT 0 0 0 7)
           H1 H2).
Defined.

(** Spherical to Cartesian and back: for an inclination in [[0, pi]]
    and an azimuth in [(-pi/2, pi/2)], when the point has [x] above the
    epsilon and [y] outside the epsilon (or the azimuth is 0),
    [gut_cartesian_to_spherical] returns the radius, azimuth and
    inclination [gut_spherical_to_cartesian] started from. *)
Theorem spherical_cartesian_round_trip (sc s : GUT_SPHERICAL_COORD) (q : GUT_POINT) :
  0 <= inclination sc <= PI -> - (PI / 2) < azimuth sc < PI / 2 ->
  let p := gut_spherical_to_cartesian sc q in
  ZERO < px p -> ZERO < Rabs (py p) \/ azimuth sc = 0 ->
  gut_cartesian_to_spherical p s = sc.
Proof.
  intros Hi Ha p Hx Hy.
  assert (Z0 : 0 < ZERO) by (unfold ZERO; lra).
  pose proof (norm_above_x p) as Hn.
  assert (Hr : ZERO < norm p) by (revert Hn; split_Rabs; lra).
  rewrite gut_cartesian_to_spherical_nondegenerate by exact Hr.
  destruct sc as [r az inc]. cbn [radius azimuth inclination] in *.
  assert (Hc : 0 < cos az) by (apply cos_gt_0; lra).
  assert (Hs : 0 <= sin inc) by (apply sin_ge_0; lra).
  assert (Ep : p = mkPOINT (r * sin inc * cos az) (r * sin inc * sin az) (r * cos inc) (pw q))
    by reflexivity.
  rewrite Ep in *. cbn [px py pz] in *. clear Ep.
  assert (Hrs : 0 < r * sin inc) by nra.
  assert (Hrp : 0 < r) by nra.
  assert (Hsp : 0 < sin inc) by nra.
  assert (Hnorm : norm (mkPOINT (r * sin inc * cos az) (r * sin inc * sin az) (r * cos inc) (pw q)) = r).
  { unfold norm. cbn [px py pz].
    pose proof (sin2_cos2 az) as H1. pose proof (sin2_cos2 inc) as H2. unfold Rsqr in *.
    replace (_ + _ + _) with (r * r * (sin inc * sin inc * (sin az * sin az + cos az * cos az)
                               + cos inc * cos inc)) by ring.
    rewrite H1, Rmult_1_r, H2, Rmult_1_r. apply sqrt_square. lra. }
  rewrite Hnorm.
  f_equal.
  - unfold azimuth_of.
    rewrite (Rleb_false (Rabs (r * sin inc * cos az)) ZERO) by (split_Rabs; lra).
    rewrite (Rgtb_true (r * sin inc * cos az) 0) by lra.
    destruct Hy as [Hy|Hy].
    + rewrite (Rleb_false _ ZERO) by lra.
      replace (r * sin inc * sin az / (r * sin inc * cos az)) with (tan az)
        by (unfold tan; field; lra).
      apply atan_tan. lra.
    + subst az. rewrite sin_0, Rmult_0_r, Rabs_R0, (Rleb_true 0 ZERO) by lra. reflexivity.
  - replace (r * cos inc / r) with (cos inc) by (field; lra).
    apply acos_cos. exact Hi.
Qed.

Lemma spherical_cartesian_round_trip_witness :
  0 <= inclination (mkSC 1 0 (PI / 2)) <= PI
  /\ - (PI / 2) < azimuth (mkSC 1 0 (PI / 2)) < PI / 2
  /\ ZERO < px (gut_spherical_to_cartesian (mkSC 1 0 (PI / 2)) (mkPOINT 0 0 0 0))
  /\ gut_cartesian_to_spherical
       (gut_spherical_to_cartesian (mkSC 1 0 (PI / 2)) (mkPOINT 0 0 0 0)) (mkSC 0 0 0)
     = mkSC 1 0 (PI / 2).
Proof.
  pose proof PI_RGT_0 as HP.
  assert (H1 : 0 <= inclination (mkSC 1 0 (PI / 2)) <= PI) by (simpl; lra).
  assert (H2 : - (PI / 2) < azimuth (mkSC 1 0 (PI / 2)) < PI / 2) by (simpl; lra).
  assert (H3 : ZERO < px (gut_spherical_to_cartesian (mkSC 1 0 (PI / 2)) (mkPOINT 0 0 0 0))).
  { unfold gut_spherical_to_cartesian, ZERO. simpl. rewrite sin_PI2, cos_0. lra. }
  split; [exact H1|]. split; [exact H2|]. split; [exact H3|].
  exact (spherical_cartesian_round_trip (mkSC 1 0 (PI / 2)) (mkSC 0 0 0) (mkPOINT 0 0 0 0)
           H1 H2 H3 (or_intror eq_refl)).
Defined.

(** ** The triangle solver, further *)

(** [asin_clamp] calls [asin] once, on its argument clamped to
    [[-1, 1]], so within the domain; the value is in [[-pi/2, pi/2]], is
    [asin] of the argument when that is within [[-1, 1]], and is [pi/2]
    above 1 and [-pi/2] below -1. *)
Theorem asin_clamp_total (equation : R) :
  let clamped := Rmax (-1) (Rmin 1 equation) in
  asin_clamp equation = (asin clamped, [call_asin clamped])
  /\ in_domain (call_asin clamped)
  /\ - (PI / 2) <= fst (asin_clamp equation) <= PI / 2
  /\ (-1 <= equation <= 1 -> fst (asin_clamp equation) = asin equation)
  /\ (1 < equation -> fst (asin_clamp equation) = PI / 2)
  /\ (equation < -1 -> fst (asin_clamp equation) = - (PI / 2)).
Proof.
  intros clamped.
  assert (E : (if Rgtb equation 1 then 1 else if Rltb equation (-1) then -1 else equation)
              = clamped).
  { unfold clamped, Rgtb, Rltb, Rmax, Rmin.
    destruct (Rlt_dec 1 equation), (Rlt_dec equation (-1)), (Rle_dec 1 equation);
      try lra;
      repeat match goal with |- context [Rle_dec ?a ?b] => destruct (Rle_dec a b) end; lra. }
  assert (D : -1 <= clamped <= 1).
  { unfold clamped, Rmax, Rmin.
    repeat match goal with |- context [Rle_dec ?a ?b] => destruct (Rle_dec a b) end; lra. }
  unfold asin_clamp, c_asin. cbv zeta. rewrite E. cbn [fst].
  split; [reflexivity|]. split; [exact D|]. split; [apply asin_bound|].
  repeat split; intros H.
  - replace clamped with equation; [reflexivity|].
    unfold clamped. rewrite Rmin_right, Rmax_right by lra. reflexivity.
  - replace clamped with 1; [apply asin_1|].
    unfold clamped. rewrite Rmin_left, Rmax_right by lra. reflexivity.
  - replace clamped with (Ropp 1); [rewrite asin_opp, asin_1; reflexivity|].
    unfold clamped. rewrite Rmin_right, Rmax_left by lra. lra.
Qed.




(** ** The face transform, further *)

(** The face frame does not depend on what the locals of
    [build_face_transforms] held: one cosine and sine for every run. *)
Lemma build_face_transforms_canonical :
  exists co si : R,
    co * co + si * si = 1
    /\ forall (junk : R) (pgm : PROGRAM),
         same16 (tm (pgm_face (build_face_transforms junk pgm))) (TM co si)
         /\ same16 (tmt (pgm_face (build_face_transforms junk pgm))) (TMt co si).
Proof.
  pose (q0 := mkPOINT 0 0 0 0).
  pose (v0 := mkVECTOR 0 0 0 0).
  destruct (face_corners_in_position q0 q0 q0) as (Hx & Hy & Hz & Hg).
  destruct (axes_of_edge_along_y (face_corner 2 q0) (face_corner 0 q0) (face_corner 1 q0)
              v0 v0 v0 Hx Hy Hz Hg) as (co & si & Hcs & F).
  cbv zeta in F. destruct F as ((a1 & a2 & a3) & (a4 & a5 & a6) & (a7 & a8 & a9)).
  exists co, si. split; [exact Hcs|]. intros junk pgm.
  pose (q := indeterminate_point junk).
  assert (EA : axes_of (face_corner 2 q) (face_corner 0 q) (face_corner 1 q) v0 v0 v0
               = axes_of (face_corner 2 q0) (face_corner 0 q0) (face_corner 1 q0) v0 v0 v0)
    by reflexivity.
  pose proof (rotation_matrix_from_triangle_cells junk (face_corner 0 q) (face_corner 1 q)
              (face_corner 2 q) (tm (pgm_face pgm)) (tmt (pgm_face pgm)) v0 v0 v0) as C.
  cbv zeta in C. rewrite EA in C. destruct C as [C1 C2].
  assert (E1 : tm (pgm_face (build_face_transforms junk pgm))
               = fst (rotation_matrix_from_triangle junk (face_corner 0 q) (face_corner 1 q)
                        (face_corner 2 q) (tm (pgm_face pgm)) (tmt (pgm_face pgm))))
    by reflexivity.
  assert (E2 : tmt (pgm_face (build_face_transforms junk pgm))
               = snd (rotation_matrix_from_triangle junk (face_corner 0 q) (face_corner 1 q)
                        (face_corner 2 q) (tm (pgm_face pgm)) (tmt (pgm_face pgm))))
    by reflexivity.
  split; intros k Hk.
  - rewrite E1, (C1 k Hk). unfold columns, TM, matrix_of_list.
    rewrite a1, a2, a3, a4, a5, a6, a7, a8, a9. reflexivity.
  - rewrite E2, (C2 k Hk). unfold rows, TMt, matrix_of_list.
    rewrite a1, a2, a3, a4, a5, a6, a7, a8, a9. reflexivity.
Qed.

(** ** The region table as a whole *)

Lemma same16_refl (A : matrix) : same16 A A.
Proof. intros k _. reflexivity. Qed.

Lemma reference_block (i j : nat) :
  (i < 6)%nat -> (j < 6)%nat ->
  let m := subm reference_table i j in
  (m.[2] = 0 /\ m.[3] = 0 /\ m.[6] = 0 /\ m.[7] = 0)
  /\ (m.[8] = 0 /\ m.[9] = 0 /\ m.[10] = 1 /\ m.[11] = 0)
  /\ (m.[12] = 0 /\ m.[13] = 0 /\ m.[14] = 0 /\ m.[15] = 1).
Proof.
  intros Hi Hj.
  exact (table_block 0 zero_matrix zero_matrix zero_matrix zero_matrix R120 R120t R240 R240t
           (fun _ => mkSUBFACE (fun _ => zero_matrix)) (mkSPH_TRI 0 0 0 0 0 0)
           (fun _ => mkVERTEX (fun _ => mkPOINT 0 0 0 0) (fun _ => mkSC 0 0 0))
           (same16_refl _) (same16_refl _) (same16_refl _) (same16_refl _) i j Hi Hj).
Qed.

Lemma same16_from_cells (m m' : matrix) :
  (m.[2] = 0 /\ m.[3] = 0 /\ m.[6] = 0 /\ m.[7] = 0)
  /\ (m.[8] = 0 /\ m.[9] = 0 /\ m.[10] = 1 /\ m.[11] = 0)
  /\ (m.[12] = 0 /\ m.[13] = 0 /\ m.[14] = 0 /\ m.[15] = 1) ->
  (m'.[2] = 0 /\ m'.[3] = 0 /\ m'.[6] = 0 /\ m'.[7] = 0)
  /\ (m'.[8] = 0 /\ m'.[9] = 0 /\ m'.[10] = 1 /\ m'.[11] = 0)
  /\ (m'.[12] = 0 /\ m'.[13] = 0 /\ m'.[14] = 0 /\ m'.[15] = 1) ->
  m.[0] = m'.[0] /\ m.[1] = m'.[1] /\ m.[4] = m'.[4] /\ m.[5] = m'.[5] ->
  same16 m m'.
Proof.
  unfold cell.
  intros ((b2 & b3 & b6 & b7) & (b8 & b9 & b10 & b11) & (b12 & b13 & b14 & b15))
         ((c2 & c3 & c6 & c7) & (c8 & c9 & c10 & c11) & (c12 & c13 & c14 & c15))
         (d0 & d1 & d4 & d5) k Hk.
  do 16 (destruct k as [|k];
    [first [assumption | etransitivity; [eassumption | symmetry; eassumption]]|]).
  lia.
Qed.

Lemma built_table_laws (junk : R) (pgm : PROGRAM) :
  same16 (m1 (pgm_face pgm)) R120 -> same16 (mt1 (pgm_face pgm)) R120t ->
  same16 (m2 (pgm_face pgm)) R240 -> same16 (mt2 (pgm_face pgm)) R240t ->
  table_laws (build_a_transforms junk pgm).
Proof.
  intros H1 H1t H2 H2t i j Hi Hj.
  destruct (built_table junk pgm H1 H1t H2 H2t i j Hi Hj) as (L1 & L2 & L6).
  split; [exact L1|]. split; [exact L2|]. clear L1 L2.
  destruct pgm as [[TM0 TMt0 M0 M0t M1 M1t M2 M2t] sf r v].
  cbn [pgm_face m1 mt1 m2 mt2] in H1, H1t, H2, H2t.
  pose proof (table_block junk TM0 TMt0 M0 M0t M1 M1t M2 M2t sf r v H1 H1t H2 H2t i j Hi Hj)
    as B.
  pose proof (table_corner junk TM0 TMt0 M0 M0t M1 M1t M2 M2t sf r v H1 H1t H2 H2t i j Hi Hj)
    as C.
  pose proof (reference_block i j Hi Hj) as B'.
  cbv zeta in B, C, B'.
  split.
  { intros k p Hk.
    exact (table_compose junk TM0 TMt0 M0 M0t M1 M1t M2 M2t sf r v H1 H1t H2 H2t
             i j k p Hi Hj Hk). }
  split; [exact (same16_from_cells _ _ B B' C)|].
  split; [|exact L6].
  destruct B as ((b2 & b3 & b6 & b7) & (b8 & b9 & b10 & b11) & (b12 & b13 & b14 & b15)).
  split; [exact b2|]. split; [exact b6|]. split; [exact b10|]. split; [exact b12|].
  split; [exact b13|]. split; [exact b14|]. exact b15.
Qed.

Lemma table_laws_subface (S S' : PROGRAM) :
  pgm_subface S = pgm_subface S' -> table_laws S' -> table_laws S.
Proof.
  intros E L i j Hi Hj. unfold table_laws in L.
  specialize (L i j Hi Hj).
  assert (Es : forall a b, subm S a b = subm S' a b).
  { intros a b. unfold subm. rewrite E. reflexivity. }
  revert L. rewrite !Es.
  intros (L1 & L2 & L3 & L4 & L5 & L6).
  split; [exact L1|]. split; [exact L2|].
  split; [intros k p Hk; rewrite !Es; exact (L3 k p Hk)|].
  split; [exact L4|]. split; [exact L5|exact L6].
Qed.

(** What [main_setup] leaves in the face and region tables, whatever the
    memory held before: the same cells in every run. *)
Lemma main_setup_laws :
  exists co si : R,
    co * co + si * si = 1
    /\ forall (junk : R) (pgm0 : PROGRAM),
         same16 (tm (pgm_face (main_setup junk pgm0))) (TM co si)
         /\ same16 (tmt (pgm_face (main_setup junk pgm0))) (TMt co si)
         /\ table_laws (main_setup junk pgm0).
Proof.
  destruct build_face_transforms_canonical as (co & si & Hcs & Hface).
  exists co, si. split; [exact Hcs|]. intros junk pgm0.
  specialize (Hface junk pgm0).
  pose proof (build_subface_transforms_faces junk (build_face_transforms junk pgm0)
                (mkVECTOR 0 0 0 0) (mkVECTOR 0 0 0 0) (mkVECTOR 0 0 0 0)) as Hkeep.
  cbv zeta in Hkeep. destruct Hkeep as (_ & _ & T1 & T2).
  pose proof (build_subface_transforms_cells junk (build_face_transforms junk pgm0)) as Hcells.
  cbv zeta in Hcells. destruct Hcells as (H1 & H1t & H2 & H2t).
  pose proof (built_table_laws junk _ H1 H1t H2 H2t) as Htab.
  pose proof (main_setup_face junk pgm0) as Ef.
  pose proof (main_setup_subface junk pgm0) as Es.
  revert Hface T1 T2 Htab Ef Es. clear H1 H1t H2 H2t.
  generalize (main_setup junk pgm0).
  generalize (build_a_transforms junk
                (build_subface_transforms junk (build_face_transforms junk pgm0))).
  generalize (build_subface_transforms junk (build_face_transforms junk pgm0)).
  generalize (build_face_transforms junk pgm0).
  intros pgm1 pgm2 pgm3 S Hface T1 T2 Htab Ef Es.
  destruct Hface as (C1 & C2).
  split; [rewrite Ef, T1; exact C1|]. split; [rewrite Ef, T2; exact C2|].
  exact (table_laws_subface S pgm3 Es Htab).
Qed.

Lemma built_laws :
  exists co si : R,
    co * co + si * si = 1
    /\ forall pgm : PROGRAM, built pgm ->
         same16 (tm (pgm_face pgm)) (TM co si)
         /\ same16 (tmt (pgm_face pgm)) (TMt co si)
         /\ table_laws pgm.
Proof.
  destruct main_setup_laws as (co & si & Hcs & L).
  exists co, si. split; [exact Hcs|].
  intros pgm (junk & pgm0 & Ef & Es).
  specialize (L junk pgm0). revert L Ef Es.
  generalize (main_setup junk pgm0). intros S (C1 & C2 & T) Ef Es.
  split; [rewrite Ef; exact C1|]. split; [rewrite Ef; exact C2|].
  exact (table_laws_subface pgm S Es T).
Qed.

Lemma built_main_setup (junk : R) (pgm0 : PROGRAM) : built (main_setup junk pgm0).
Proof. exists junk, pgm0. split; reflexivity. Qed.

Lemma TM_inverse (co si : R) (p : GUT_POINT) :
  co * co + si * si = 1 ->
  transform (TMt co si) (transform (TM co si) p) = p
  /\ transform (TM co si) (transform (TMt co si) p) = p.
Proof.
  intros H. assert (H' : co * co = 1 - si * si) by lra.
  destruct p as [x y z w].
  unfold transform, vec4_times, point_of_vector, vector_of_point, TM, TMt, matrix_of_list, cell.
  simpl. split; f_equal; ring [H'].
Qed.

(** A matrix whose sixteen cells are those of the identity. *)
Lemma transform_identity (m : matrix) (p : GUT_POINT) :
  (forall r c, (r < 4)%nat -> (c < 4)%nat ->
     m.[r * 4 + c] = if Nat.eqb r c then 1 else 0) ->
  transform m p = p.
Proof.
  intros H. destruct p as [x y z w].
  unfold transform, vec4_times, point_of_vector, vector_of_point. cbn [vi vj vk vl px py pz pw].
  unfold cell in *.
  pose proof (H 0 0 ltac:(lia) ltac:(lia))%nat as c0. pose proof (H 0 1 ltac:(lia) ltac:(lia))%nat as c1.
  pose proof (H 0 2 ltac:(lia) ltac:(lia))%nat as c2. pose proof (H 0 3 ltac:(lia) ltac:(lia))%nat as c3.
  pose proof (H 1 0 ltac:(lia) ltac:(lia))%nat as c4. pose proof (H 1 1 ltac:(lia) ltac:(lia))%nat as c5.
  pose proof (H 1 2 ltac:(lia) ltac:(lia))%nat as c6. pose proof (H 1 3 ltac:(lia) ltac:(lia))%nat as c7.
  pose proof (H 2 0 ltac:(lia) ltac:(lia))%nat as c8. pose proof (H 2 1 ltac:(lia) ltac:(lia))%nat as c9.
  pose proof (H 2 2 ltac:(lia) ltac:(lia))%nat as c10. pose proof (H 2 3 ltac:(lia) ltac:(lia))%nat as c11.
  pose proof (H 3 0 ltac:(lia) ltac:(lia))%nat as c12. pose proof (H 3 1 ltac:(lia) ltac:(lia))%nat as c13.
  pose proof (H 3 2 ltac:(lia) ltac:(lia))%nat as c14. pose proof (H 3 3 ltac:(lia) ltac:(lia))%nat as c15.
  cbn [Nat.mul Nat.add Nat.eqb] in *.
  rewrite c0, c1, c2, c3, c4, c5, c6, c7, c8, c9, c10, c11, c12, c13, c14, c15.
  simpl. f_equal; ring.
Qed.

(** The loop that recomputes the spherical coordinates: each of the six
    is converted from the point beside it. *)
Lemma sc_loop_sc (v : nat) (pgm : PROGRAM) (i : nat) :
  (i < 6)%nat ->
  v_sc (pgm_v (for_range 0 6 (fun i pgm =>
         let vx := pgm_v pgm v in
         with_vertex pgm v
           (mkVERTEX (v_p vx)
              (store (v_sc vx) i (gut_cartesian_to_spherical (v_p vx i) (v_sc vx i)))))
         pgm) v) i
  = gut_cartesian_to_spherical (v_p (pgm_v pgm v) i) (v_sc (pgm_v pgm v) i).
Proof.
  intros Hi. unfold for_range. cbn [Nat.sub for_count]. cbv zeta.
  rewrite !pgm_v_with_vertex. cbn [v_p v_sc].
  do 6 (destruct i as [|i]; [reflexivity|]). lia.
Qed.

Lemma generate_all_vertices_sc (junk : R) (pgm : PROGRAM) (v a i : nat) :
  (i < 6)%nat ->
  v_sc (pgm_v (generate_all_vertices junk pgm v a) v) i
  = gut_cartesian_to_spherical (v_p (pgm_v (generate_all_vertices junk pgm v a) v) i)
      (v_sc (pgm_v pgm v) i).
Proof.
  intros Hi. unfold generate_all_vertices. cbv zeta.
  match goal with
  | |- context [for_range 0 6 _ (with_vertex pgm v ?vx)] => set (pgm1 := with_vertex pgm v vx)
  end.
  rewrite sc_loop_sc by exact Hi. unfold for_range.
  rewrite sc_loop_keeps_points. unfold pgm1. rewrite pgm_v_with_vertex. cbn [v_p v_sc].
  reflexivity.
Qed.

Lemma with_vertex_touches (v : nat) (pgm : PROGRAM) (vx : VERTEX) :
  touches_only v pgm (with_vertex pgm v vx).
Proof.
  unfold touches_only, with_vertex. cbn [pgm_face pgm_subface pgm_ref pgm_v].
  repeat split. intros k Hk. unfold store.
  destruct (Nat.eqb_spec k v); [contradiction | reflexivity].
Qed.

Lemma touches_only_trans (v : nat) (a b c : PROGRAM) :
  touches_only v a b -> touches_only v b c -> touches_only v a c.
Proof.
  intros (A1 & A2 & A3 & A4) (B1 & B2 & B3 & B4).
  repeat split; try congruence. intros k Hk. rewrite B4, A4 by exact Hk. reflexivity.
Qed.

Lemma generate_all_vertices_touches (junk : R) (pgm : PROGRAM) (v a : nat) :
  touches_only v pgm (generate_all_vertices junk pgm v a).
Proof.
  unfold generate_all_vertices. cbv zeta.
  apply (for_range_invariant (fun s => touches_only v pgm s)).
  - intros i s Hs. eapply touches_only_trans; [exact Hs|]. apply with_vertex_touches.
  - apply with_vertex_touches.
Qed.

Lemma create_vertex_by_sc_touches (junk : R) (pgm : PROGRAM) (v a : nat) (az inc : R) :
  touches_only v pgm (create_vertex_by_sc junk pgm v a az inc).
Proof.
  unfold create_vertex_by_sc. cbv zeta.
  eapply touches_only_trans; [apply with_vertex_touches|].
  apply generate_all_vertices_touches.
Qed.

Lemma built_touches (v : nat) (pgm pgm' : PROGRAM) :
  touches_only v pgm pgm' -> built pgm -> built pgm'.
Proof.
  intros (E1 & E2 & _) (junk & pgm0 & F1 & F2).
  exists junk, pgm0. split; congruence.
Qed.

(** ** The vertices the generator stores *)

(** The six points [create_vertex_by_sc] stores, for a table whose
    diagonal is the identity. *)
Lemma created_points (junk : R) (pgm : PROGRAM) (v a i : nat) (az inc : R) :
  table_laws pgm -> (a < 6)%nat -> (i < 6)%nat ->
  v_p (pgm_v (create_vertex_by_sc junk pgm v a az inc) v) i
  = transform (tmt (pgm_face pgm))
      (transform (subm pgm a i)
         (transform (tm (pgm_face pgm)) (placed az inc (v_p (pgm_v pgm v) a)))).
Proof.
  intros L Ha Hi. unfold create_vertex_by_sc. cbv zeta.
  rewrite generate_all_vertices_points by assumption.
  cbn [pgm_face with_vertex]. rewrite pgm_v_with_vertex. cbn [v_p]. rewrite store_same.
  fold (placed az inc (v_p (pgm_v pgm v) a)).
  assert (Es : forall b, subm (with_vertex pgm v
                 (mkVERTEX (store (v_p (pgm_v pgm v)) a (placed az inc (v_p (pgm_v pgm v) a)))
                    (store (v_sc (pgm_v pgm v)) a (mkSC 1 az inc)))) a b = subm pgm a b)
    by reflexivity.
  rewrite Es.
  destruct (Nat.eqb_spec a i) as [E|E]; [|reflexivity].
  subst i. destruct (L a a Ha Ha) as (_ & _ & _ & _ & _ & D).
  rewrite (transform_identity (subm pgm a a) _ D). reflexivity.
Qed.

Lemma placed_unit (az inc : R) (old : GUT_POINT) : sumsq (placed az inc old) = 1.
Proof. apply gut_spherical_to_cartesian_unit. Qed.

Lemma sumsq_norm (p : GUT_POINT) : sumsq p = 1 -> norm p = 1.
Proof. intros H. unfold norm. unfold sumsq in H. rewrite H. apply sqrt_1. Qed.

(** In the global frame the six instances are the images of the first
    under the region table. *)
Lemma created_global (junk : R) (pgm : PROGRAM) (co si : R) (v a i : nat) (az inc : R) :
  co * co + si * si = 1 ->
  same16 (tm (pgm_face pgm)) (TM co si) -> same16 (tmt (pgm_face pgm)) (TMt co si) ->
  table_laws pgm -> (a < 6)%nat -> (i < 6)%nat ->
  transform (tm (pgm_face pgm)) (v_p (pgm_v (create_vertex_by_sc junk pgm v a az inc) v) i)
  = transform (subm pgm a i)
      (transform (tm (pgm_face pgm)) (placed az inc (v_p (pgm_v pgm v) a))).
Proof.
  intros Hcs Htm Htmt L Ha Hi.
  rewrite created_points by assumption.
  assert (K : forall q, transform (tm (pgm_face pgm)) (transform (tmt (pgm_face pgm)) q) = q).
  { intros q. rewrite (transform_same16 _ _ (transform (tmt (pgm_face pgm)) q) Htm).
    rewrite (transform_same16 _ _ q Htmt). apply (TM_inverse co si q Hcs). }
  apply K.
Qed.



(** Every instance [create_vertex_by_sc] stores has norm 1. *)
Lemma created_unit (junk : R) (pgm : PROGRAM) (v a i : nat) (az inc : R) :
  built pgm -> (a < 6)%nat -> (i < 6)%nat ->
  norm (v_p (pgm_v (create_vertex_by_sc junk pgm v a az inc) v) i) = 1.
Proof.
  intros Hb Ha Hi.
  destruct built_laws as (co & si & Hcs & Laws).
  destruct (Laws pgm Hb) as (Htm & Htmt & L). clear Laws.
  apply (create_vertex_by_sc_unit junk pgm co si); try assumption.
  intros j p Hj. apply (L a j Ha Hj).
Qed.

(** The spherical coordinates [create_vertex_by_sc] stores are converted
    from the points, none of them degenerate. *)
Lemma created_sc (junk : R) (pgm : PROGRAM) (v a i : nat) (az inc : R) :
  built pgm -> (a < 6)%nat -> (i < 6)%nat ->
  let p := v_p (pgm_v (create_vertex_by_sc junk pgm v a az inc) v) i in
  v_sc (pgm_v (create_vertex_by_sc junk pgm v a az inc) v) i
  = mkSC 1 (azimuth_of (px p) (py p)) (acos (pz p)).
Proof.
  intros Hb Ha Hi p.
  pose proof (created_unit junk pgm v a i az inc Hb Ha Hi) as Hn. fold p in Hn.
  unfold create_vertex_by_sc in *. cbv zeta in *.
  rewrite generate_all_vertices_sc by exact Hi. fold p.
  rewrite gut_cartesian_to_spherical_nondegenerate by (rewrite Hn; unfold ZERO; lra).
  rewrite Hn. f_equal. f_equal. field.
Qed.



(** ** Two runs of the creators *)

Lemma same_xyz_transform (M M' N : matrix) (p p' : GUT_POINT) :
  same16 M N -> same16 M' N ->
  N.[12] = 0 -> N.[13] = 0 -> N.[14] = 0 ->
  same_xyz p p' -> same_xyz (transform M p) (transform M' p').
Proof.
  intros H H' n12 n13 n14 (Ex & Ey & Ez).
  rewrite (transform_same16 _ _ p H), (transform_same16 _ _ p' H').
  destruct p as [x y z w], p' as [x' y' z' w']. cbn [px py pz] in *. subst x' y' z'.
  unfold same_xyz, transform, vec4_times, point_of_vector, vector_of_point.
  cbn [vi vj vk vl px py pz pw]. rewrite n12, n13, n14. repeat split; ring.
Qed.

Lemma TM_bottom (co si : R) :
  (TM co si).[12] = 0 /\ (TM co si).[13] = 0 /\ (TM co si).[14] = 0
  /\ (TMt co si).[12] = 0 /\ (TMt co si).[13] = 0 /\ (TMt co si).[14] = 0.
Proof. repeat split; reflexivity. Qed.

Lemma same_xyz_sumsq (p q : GUT_POINT) : same_xyz p q -> sumsq p = sumsq q.
Proof. intros (E1 & E2 & E3). unfold sumsq. rewrite E1, E2, E3. reflexivity. Qed.

(** The creator run on two states that agree gives two states that
    agree on the vertex created as well. *)
Lemma create_vertex_by_sc_agree (D : nat -> Prop) (junk junk' : R) (pgm pgm' : PROGRAM)
  (v a : nat) (az inc : R) :
  built pgm -> built pgm' -> agree D pgm pgm' -> (a < 6)%nat ->
  agree (fun k => k = v \/ D k)
    (create_vertex_by_sc junk pgm v a az inc) (create_vertex_by_sc junk' pgm' v a az inc).
Proof.
  intros Hb Hb' (Href & Hv) Ha.
  destruct (create_vertex_by_sc_touches junk pgm v a az inc) as (_ & _ & Er & Ek).
  destruct (create_vertex_by_sc_touches junk' pgm' v a az inc) as (_ & _ & Er' & Ek').
  split; [rewrite Er, Er'; exact Href|].
  intros k Dk i Hi.
  destruct (Nat.eq_dec k v) as [E|E].
  2:{ rewrite (Ek k E), (Ek' k E). destruct Dk as [Dk|Dk]; [contradiction|].
      exact (Hv k Dk i Hi). }
  subst k. clear Dk.
  assert (X : same_xyz (v_p (pgm_v (create_vertex_by_sc junk pgm v a az inc) v) i)
                       (v_p (pgm_v (create_vertex_by_sc junk' pgm' v a az inc) v) i)).
  { destruct built_laws as (co & si & Hcs & Laws).
    destruct (Laws pgm Hb) as (Htm & Htmt & L).
    destruct (Laws pgm' Hb') as (Htm' & Htmt' & L'). clear Laws.
    rewrite !created_points by assumption.
    destruct (TM_bottom co si) as (t12 & t13 & t14 & u12 & u13 & u14).
    destruct (L a i Ha Hi) as (_ & _ & _ & S1 & _).
    destruct (L' a i Ha Hi) as (_ & _ & _ & S1' & (_ & _ & _ & c12 & c13 & c14 & _) & _).
    apply (same_xyz_transform _ _ (TMt co si)); try assumption.
    apply (same_xyz_transform _ _ (subm pgm' a i)); try assumption.
    { intros n Hn. rewrite (S1 n Hn), (S1' n Hn). reflexivity. }
    { intros n Hn. reflexivity. }
    apply (same_xyz_transform _ _ (TM co si)); try assumption.
    unfold placed, gut_spherical_to_cartesian, same_xyz. cbn [px py pz]. repeat split. }
  split; [exact X|].
  rewrite !created_sc by assumption. cbv zeta.
  destruct X as (E1 & E2 & E3). rewrite E1, E2, E3. reflexivity.
Qed.

Lemma agree_weaken (D D' : nat -> Prop) (pgm pgm' : PROGRAM) :
  (forall k, D' k -> D k) -> agree D pgm pgm' -> agree D' pgm pgm'.
Proof. intros H (A & B). split; [exact A|]. intros k Dk. apply B, H, Dk. Qed.

(** The same for a vertex placed by the triangle solver from the
    inclination of a vertex on which the states agree. *)
Lemma create_vertex_from_vertex_agree (D : nat -> Prop) (junk junk' : R)
  (pgm pgm' : PROGRAM) (vd ad vs as_ : nat) (b C : R) :
  built pgm -> built pgm' -> agree D pgm pgm' -> (ad < 6)%nat -> D vs -> (as_ < 6)%nat ->
  agree (fun k => k = vd \/ D k)
    (fst (create_vertex_from_vertex junk pgm vd ad vs as_ b C))
    (fst (create_vertex_from_vertex junk' pgm' vd ad vs as_ b C))
  /\ snd (create_vertex_from_vertex junk pgm vd ad vs as_ b C)
     = snd (create_vertex_from_vertex junk' pgm' vd ad vs as_ b C).
Proof.
  intros Hb Hb' Hag Had Dvs Has.
  unfold create_vertex_from_vertex.
  destruct Hag as (Href & Hv). destruct (Hv vs Dvs as_ Has) as (_ & Esc).
  rewrite <- Esc. split.
  - rewrite !create_vertex_by_strig_as_sc.
    apply create_vertex_by_sc_agree; try assumption. split; assumption.
  - unfold create_vertex_by_strig. cbv zeta. unfold bind, ret.
    destruct (sph_tri_bcC _) as [s l]. reflexivity.
Qed.

Lemma create_vertex_by_strig_agree (D : nat -> Prop) (junk junk' : R)
  (pgm pgm' : PROGRAM) (v a : nat) (b c C : R) :
  built pgm -> built pgm' -> agree D pgm pgm' -> (a < 6)%nat ->
  agree (fun k => k = v \/ D k)
    (fst (create_vertex_by_strig junk pgm v a b c C))
    (fst (create_vertex_by_strig junk' pgm' v a b c C))
  /\ snd (create_vertex_by_strig junk pgm v a b c C)
     = snd (create_vertex_by_strig junk' pgm' v a b c C).
Proof.
  intros Hb Hb' Hag Ha. split.
  - rewrite !create_vertex_by_strig_as_sc.
    apply create_vertex_by_sc_agree; assumption.
  - unfold create_vertex_by_strig. cbv zeta. unfold bind, ret.
    destruct (sph_tri_bcC _) as [s l]. reflexivity.
Qed.

Lemma built_create_vertex_by_sc (junk : R) (pgm : PROGRAM) (v a : nat) (az inc : R) :
  built pgm -> built (create_vertex_by_sc junk pgm v a az inc).
Proof. apply (built_touches v), create_vertex_by_sc_touches. Qed.

Lemma built_create_vertex_by_strig (junk : R) (pgm : PROGRAM) (v a : nat) (b c C : R) :
  built pgm -> built (fst (create_vertex_by_strig junk pgm v a b c C)).
Proof. rewrite create_vertex_by_strig_as_sc. apply built_create_vertex_by_sc. Qed.

Lemma built_create_vertex_from_vertex (junk : R) (pgm : PROGRAM) (vd ad vs as_ : nat)
  (b C : R) :
  built pgm -> built (fst (create_vertex_from_vertex junk pgm vd ad vs as_ b C)).
Proof. unfold create_vertex_from_vertex. apply built_create_vertex_by_strig. Qed.

Lemma agree_ref (D : nat -> Prop) (pgm pgm' : PROGRAM) :
  agree D pgm pgm' ->
  tri_a (pgm_ref pgm') = tri_a (pgm_ref pgm)
  /\ tri_b (pgm_ref pgm') = tri_b (pgm_ref pgm)
  /\ tri_c (pgm_ref pgm') = tri_c (pgm_ref pgm).
Proof. intros ((E1 & E2 & E3) & _). repeat split; symmetry; assumption. Qed.

Lemma agree_inclination (D : nat -> Prop) (pgm pgm' : PROGRAM) (k i : nat) :
  agree D pgm pgm' -> D k -> (i < 6)%nat ->
  inclination (v_sc (pgm_v pgm' k) i) = inclination (v_sc (pgm_v pgm k) i).
Proof. intros (_ & H) Dk Hi. destruct (H k Dk i Hi) as (_ & E). rewrite E. reflexivity. Qed.

Lemma related_bind {A B : Type} (P : A -> A -> Prop) (Q : B -> B -> Prop)
  (m m' : libm A) (K K' : A -> libm B) :
  related P m m' -> (forall a a', P a a' -> related Q (K a) (K' a')) ->
  related Q (bind m K) (bind m' K').
Proof.
  intros (H1 & H2) HK. destruct m as [a l], m' as [a' l']. cbn [fst snd] in *. subst l'.
  specialize (HK a a' H1). unfold bind. destruct (K a) as [b k], (K' a') as [b' k'].
  destruct HK as (G1 & G2). cbn [fst snd] in *. subst k'. split; [exact G1 | reflexivity].
Qed.

Lemma related_ret {B : Type} (Q : B -> B -> Prop) (b b' : B) :
  Q b b' -> related Q (ret b) (ret b').
Proof. intros H. split; [exact H | reflexivity]. Qed.

Lemma state_rel_weaken (D D' : nat -> Prop) (s s' : PROGRAM) :
  (forall k, D' k -> D k) -> state_rel D s s' -> state_rel D' s s'.
Proof.
  intros H (B & B' & A). split; [exact B|]. split; [exact B'|].
  exact (agree_weaken D D' s s' H A).
Qed.

Lemma by_sc_rel (junk junk' : R) (D : nat -> Prop) (s s' : PROGRAM) (v a : nat) (az inc : R) :
  state_rel D s s' -> (a < 6)%nat ->
  state_rel (fun k => k = v \/ D k)
    (create_vertex_by_sc junk s v a az inc) (create_vertex_by_sc junk' s' v a az inc).
Proof.
  intros (B & B' & A) Ha.
  split; [apply built_create_vertex_by_sc, B|].
  split; [apply built_create_vertex_by_sc, B'|].
  apply create_vertex_by_sc_agree; assumption.
Qed.

Lemma from_vertex_rel (junk junk' : R) (D : nat -> Prop) (s s' : PROGRAM) (vd ad vs as_ : nat) (b C : R) :
  state_rel D s s' -> (ad < 6)%nat -> D vs -> (as_ < 6)%nat ->
  related (state_rel (fun k => k = vd \/ D k))
    (create_vertex_from_vertex junk s vd ad vs as_ b C)
    (create_vertex_from_vertex junk' s' vd ad vs as_ b C).
Proof.
  intros (B & B' & A) Had Dvs Has.
  destruct (create_vertex_from_vertex_agree D junk junk' s s' vd ad vs as_ b C
              B B' A Had Dvs Has) as (A1 & L1).
  split; [|exact L1].
  split; [apply built_create_vertex_from_vertex, B|].
  split; [apply built_create_vertex_from_vertex, B'|exact A1].
Qed.

Lemma by_strig_rel (junk junk' : R) (D : nat -> Prop) (s s' : PROGRAM) (v a : nat) (b c C : R) :
  state_rel D s s' -> (a < 6)%nat ->
  related (state_rel (fun k => k = v \/ D k))
    (create_vertex_by_strig junk s v a b c C) (create_vertex_by_strig junk' s' v a b c C).
Proof.
  intros (B & B' & A) Ha.
  destruct (create_vertex_by_strig_agree D junk junk' s s' v a b c C B B' A Ha) as (A1 & L1).
  split; [|exact L1].
  split; [apply built_create_vertex_by_strig, B|].
  split; [apply built_create_vertex_by_strig, B'|exact A1].
Qed.

(** In the second run, the reference sides and the inclinations read
    are those of the first. *)
Ltac same_reads S :=
  let A := fresh "A" in
  pose proof (proj2 (proj2 S)) as A;
  let Ea := fresh "Ea" in let Eb := fresh "Eb" in let Ec := fresh "Ec" in
  destruct (agree_ref _ _ _ A) as (Ea & Eb & Ec);
  rewrite ?Ea, ?Eb, ?Ec; clear Ea Eb Ec;
  repeat match type of A with
  | agree _ ?s ?s' =>
      match goal with
      | |- context [inclination (v_sc (pgm_v s' ?k) ?i)] =>
          rewrite (agree_inclination _ s s' k i A) by (cbv beta; auto 10 || lia)
      end
  end;
  clear A.

(** A statement [pgm = create_vertex_by_sc(...)] of both runs. *)
Ltac let_by_sc S :=
  same_reads S;
  lazymatch goal with
  | |- ?Q (let p := create_vertex_by_sc ?j ?s ?v ?a ?az ?inc in @?K p)
          (let q := create_vertex_by_sc ?j' ?s' ?v ?a ?az ?inc in @?K' q) =>
      let S1 := fresh "S" in
      pose proof (by_sc_rel j j' _ s s' v a az inc S ltac:(lia)) as S1;
      change (Q (K (create_vertex_by_sc j s v a az inc))
                (K' (create_vertex_by_sc j' s' v a az inc)));
      revert S1;
      generalize (create_vertex_by_sc j s v a az inc);
      generalize (create_vertex_by_sc j' s' v a az inc);
      clear S;
      let t' := fresh "s'" in let t := fresh "s" in
      intros t' t S; cbv beta
  end.

(** A statement [create_vertex_from_vertex(...)] of both runs. *)
Ltac bind_from_vertex S :=
  same_reads S;
  eapply related_bind;
  [ apply (from_vertex_rel _ _ _ _ _ _ _ _ _ _ _ S); [lia | cbv beta; auto 10 | lia]
  | clear S; let t := fresh "s" in let t' := fresh "s'" in intros t t' S; cbv beta ].

Ltac bind_by_strig S :=
  same_reads S;
  eapply related_bind;
  [ apply (by_strig_rel _ _ _ _ _ _ _ _ _ _ S); lia
  | clear S; let t := fresh "s" in let t' := fresh "s'" in intros t t' S; cbv beta ].

Lemma classI_5v_related (junk junk' : R) (D : nat -> Prop) (pgm pgm' : PROGRAM) (var : R) :
  state_rel D pgm pgm' ->
  related (fun r r' => fst r = fst r'
                       /\ state_rel (fun k => (k < 5)%nat \/ D k) (snd r) (snd r'))
    (classI_5v junk var pgm) (classI_5v junk' var pgm').
Proof.
  intros S. cbv beta delta [classI_5v].
  let_by_sc S.
  bind_from_vertex S.
  bind_from_vertex S.
  bind_from_vertex S.
  let_by_sc S.
  cbv zeta. apply related_ret. cbn [fst snd]. split.
  - same_reads S. reflexivity.
  - eapply state_rel_weaken; [|exact S]. cbv beta. intros k [Hk|Hk]; [|auto 10].
    assert (k = 0 \/ k = 1 \/ k = 2 \/ k = 3 \/ k = 4)%nat as [|[|[|[|]]]] by lia; auto 10.
Qed.

Lemma classI_7v_a_related (junk junk' : R) (D : nat -> Prop) (pgm pgm' : PROGRAM) (var : R) :
  state_rel D pgm pgm' ->
  related (fun r r' => fst r = fst r'
             /\ state_rel (fun k => (k < 5)%nat \/ k = 6%nat \/ k = 7%nat \/ D k)
                  (snd r) (snd r'))
    (classI_7v_a junk var pgm) (classI_7v_a junk' var pgm').
Proof.
  intros S. cbv beta delta [classI_7v_a].
  let_by_sc S.
  let_by_sc S.
  bind_from_vertex S.
  bind_from_vertex S.
  bind_from_vertex S.
  bind_from_vertex S.
  bind_from_vertex S.
  cbv zeta. apply related_ret. cbn [fst snd]. split.
  - same_reads S. reflexivity.
  - eapply state_rel_weaken; [|exact S]. cbv beta.
    intros k [Hk|[Hk|[Hk|Hk]]]; [|auto 10|auto 10|auto 10].
    assert (k = 0 \/ k = 1 \/ k = 2 \/ k = 3 \/ k = 4)%nat as [|[|[|[|]]]] by lia; auto 10.
Qed.

Lemma classI_6v_related (junk junk' : R) (D : nat -> Prop) (pgm pgm' : PROGRAM) :
  state_rel D pgm pgm' ->
  related (state_rel (fun k => (k < 4)%nat \/ k = 5%nat \/ k = 6%nat \/ D k))
    (classI_6v junk pgm) (classI_6v junk' pgm').
Proof.
  intros S. cbv beta delta [classI_6v].
  let_by_sc S.
  let_by_sc S.
  let_by_sc S.
  bind_from_vertex S.
  let_by_sc S.
  bind_from_vertex S.
  apply related_ret.
  eapply state_rel_weaken; [|exact S]. cbv beta.
  intros k [Hk|[Hk|[Hk|Hk]]]; [|auto 10|auto 10|auto 10].
  assert (k = 0 \/ k = 1 \/ k = 2 \/ k = 3)%nat as [|[|[|]]] by lia; auto 10.
Qed.

(** The build functions that place one vertex. *)
Lemma single_vertex_related (junk junk' : R) (D : nat -> Prop) (pgm pgm' : PROGRAM) (var : R) :
  state_rel D pgm pgm' ->
  (D 5%nat -> D 1%nat ->
     fst (classI_6v_a junk var pgm) = fst (classI_6v_a junk' var pgm'))
  /\ (D 5%nat -> D 0%nat ->
     fst (classI_6v_b junk var pgm) = fst (classI_6v_b junk' var pgm'))
  /\ (D 0%nat -> D 1%nat ->
     fst (classI_7v_b1 junk var pgm) = fst (classI_7v_b1 junk' var pgm'))
  /\ (D 0%nat -> D 4%nat ->
     fst (classI_7v_b2 junk var pgm) = fst (classI_7v_b2 junk' var pgm'))
  /\ (D 4%nat -> D 1%nat ->
     fst (classI_7v_b3 junk var pgm) = fst (classI_7v_b3 junk' var pgm')).
Proof.
  intros S.
  cbv beta delta [classI_6v_a classI_6v_b classI_7v_b1 classI_7v_b2 classI_7v_b3].
  repeat split; intros D1 D2; same_reads S; cbv zeta; cbn [fst];
    match goal with
    | |- context [create_vertex_by_sc junk pgm ?v ?a ?az ?inc] =>
        pose proof (by_sc_rel junk junk' D pgm pgm' v a az inc S ltac:(lia)) as S1
    end;
    same_reads S1; reflexivity.
Qed.

(** ** What a run leaves *)

Lemma after_bind {A B : Type} (P : A -> Prop) (Q : B -> Prop) (m : libm A)
  (K : A -> libm B) :
  after P m -> (forall a, P a -> after Q (K a)) -> after Q (bind m K).
Proof. unfold after. intros H HK. rewrite fst_bind. apply HK, H. Qed.

Lemma after_ret {B : Type} (Q : B -> Prop) (b : B) : Q b -> after Q (ret b).
Proof. intros H. exact H. Qed.

Lemma made_start (pgm : PROGRAM) : made (fun _ => False) pgm pgm.
Proof.
  split.
  - repeat split.
  - intros _ k [].
Qed.

Lemma made_ext (W W' : nat -> Prop) (pgm s : PROGRAM) :
  (forall k, W k <-> W' k) -> made W pgm s -> made W' pgm s.
Proof.
  intros E ((F1 & F2 & F3 & F4) & U). split.
  - repeat split; try assumption. intros k Hk. apply F4. intros Wk. apply Hk, E, Wk.
  - intros Hb k Wk. apply (U Hb), E, Wk.
Qed.

Lemma made_built (W : nat -> Prop) (pgm s : PROGRAM) :
  made W pgm s -> built pgm -> built s.
Proof.
  intros ((F1 & F2 & _) & _) (junk & pgm0 & E1 & E2).
  exists junk, pgm0. split; congruence.
Qed.

Lemma sumsq_of_norm (p : GUT_POINT) : norm p = 1 -> sumsq p = 1.
Proof.
  unfold norm, sumsq. intros H.
  assert (Hp : 0 <= px p * px p + py p * py p + pz p * pz p) by nra.
  rewrite <- (sqrt_sqrt _ Hp), H. ring.
Qed.

Lemma made_by_sc (W : nat -> Prop) (junk : R) (pgm s : PROGRAM) (v a : nat) (az inc : R) :
  made W pgm s -> (a < 6)%nat ->
  made (fun k => k = v \/ W k) pgm (create_vertex_by_sc junk s v a az inc).
Proof.
  intros M Ha.
  pose proof (create_vertex_by_sc_touches junk s v a az inc) as (T1 & T2 & T3 & T4).
  pose proof M as ((F1 & F2 & F3 & F4) & U).
  split.
  - repeat split; try congruence.
    intros k Hk. rewrite T4 by (intros E; apply Hk; left; exact E).
    apply F4. intros Wk. apply Hk. right. exact Wk.
  - intros Hb k Hk i Hi.
    destruct (Nat.eq_dec k v) as [->|Hne].
    + apply sumsq_of_norm, created_unit; try assumption. exact (made_built W pgm s M Hb).
    + rewrite T4 by exact Hne. destruct Hk as [Hk|Hk]; [contradiction|].
      apply (U Hb k Hk i Hi).
Qed.

Lemma made_by_strig (W : nat -> Prop) (junk : R) (pgm s : PROGRAM) (v a : nat) (b c C : R) :
  made W pgm s -> (a < 6)%nat ->
  after (made (fun k => k = v \/ W k) pgm) (create_vertex_by_strig junk s v a b c C).
Proof.
  intros M Ha. unfold after. rewrite create_vertex_by_strig_as_sc.
  apply made_by_sc; assumption.
Qed.

Lemma made_from_vertex (W : nat -> Prop) (junk : R) (pgm s : PROGRAM) (vd ad vs as_ : nat)
  (b C : R) :
  made W pgm s -> (ad < 6)%nat ->
  after (made (fun k => k = vd \/ W k) pgm) (create_vertex_from_vertex junk s vd ad vs as_ b C).
Proof. intros M Ha. unfold create_vertex_from_vertex. apply made_by_strig; assumption. Qed.

(** A statement [create_vertex_by_sc(...)] of one run. *)
Ltac made_let M :=
  lazymatch goal with
  | |- ?Q (let p := create_vertex_by_sc ?j ?s ?v ?a ?az ?inc in @?K p) =>
      let M1 := fresh "M" in
      pose proof (made_by_sc _ j _ s v a az inc M ltac:(lia)) as M1;
      change (Q (K (create_vertex_by_sc j s v a az inc)));
      revert M1;
      generalize (create_vertex_by_sc j s v a az inc);
      clear M;
      let t := fresh "s" in
      intros t M; cbv beta
  end.

Ltac made_bind M :=
  eapply after_bind;
  [ first [ apply (made_from_vertex _ _ _ _ _ _ _ _ _ _ M); lia
          | apply (made_by_strig _ _ _ _ _ _ _ _ _ M); lia ]
  | clear M; let t := fresh "s" in intros t M; cbv beta ].

(** Two descriptions of one set of vertex numbers. *)
Ltac pick := first [ lia | assumption | (exfalso; lia) | (left; pick) | (right; pick) ].

Ltac same_set :=
  let k := fresh "k" in let H := fresh "H" in let C := fresh "C" in
  cbv beta; intros k; split; intros H;
  repeat (match goal with H : _ \/ _ |- _ => destruct H as [H|H] end);
  try (match goal with
       | H : (_ < _)%nat |- _ =>
           assert (C : (k = 0 \/ k = 1 \/ k = 2 \/ k = 3 \/ k = 4)%nat) by lia;
           repeat (match goal with C : _ \/ _ |- _ => destruct C as [C|C] end)
       end);
  pick.

Section Made.

Variable junk : R.

Lemma classI_5v_made (W : nat -> Prop) (pgm s : PROGRAM) (var : R) :
  made W pgm s ->
  after (fun r => made (fun k => (k < 5)%nat \/ W k) pgm (snd r)) (classI_5v junk var s).
Proof.
  intros M. cbv beta delta [classI_5v].
  made_let M. made_bind M. made_bind M. made_bind M. made_let M.
  cbv zeta. apply after_ret. cbn [snd].
  eapply made_ext; [|exact M]. same_set.
Qed.

Lemma classI_7v_a_made (W : nat -> Prop) (pgm s : PROGRAM) (var : R) :
  made W pgm s ->
  after (fun r => made (fun k => (k < 5)%nat \/ k = 6%nat \/ k = 7%nat \/ W k) pgm (snd r))
    (classI_7v_a junk var s).
Proof.
  intros M. cbv beta delta [classI_7v_a].
  made_let M. made_let M. made_bind M. made_bind M. made_bind M. made_bind M. made_bind M.
  cbv zeta. apply after_ret. cbn [snd].
  eapply made_ext; [|exact M]. same_set.
Qed.

Lemma classI_6v_made (W : nat -> Prop) (pgm s : PROGRAM) :
  made W pgm s ->
  after (made (fun k => (k < 4)%nat \/ k = 5%nat \/ k = 6%nat \/ W k) pgm)
    (classI_6v junk s).
Proof.
  intros M. cbv beta delta [classI_6v].
  made_let M. made_let M. made_let M. made_bind M. made_let M. made_bind M.
  apply after_ret.
  eapply made_ext; [|exact M]. same_set.
Qed.

Lemma single_vertex_made (W : nat -> Prop) (pgm s : PROGRAM) (var : R) :
  made W pgm s ->
  made (fun k => k = 4%nat \/ W k) pgm (snd (classI_6v_a junk var s))
  /\ made (fun k => k = 4%nat \/ W k) pgm (snd (classI_6v_b junk var s))
  /\ made (fun k => k = 5%nat \/ W k) pgm (snd (classI_7v_b1 junk var s))
  /\ made (fun k => k = 5%nat \/ W k) pgm (snd (classI_7v_b2 junk var s))
  /\ made (fun k => k = 5%nat \/ W k) pgm (snd (classI_7v_b3 junk var s)).
Proof.
  intros M.
  cbv beta delta [classI_6v_a classI_6v_b classI_7v_b1 classI_7v_b2 classI_7v_b3].
  cbv zeta. cbn [snd].
  split; [|split; [|split; [|split]]]; (apply made_by_sc; [exact M | lia]).
Qed.

End Made.

(** ** The build functions *)

Lemma touches_state_rel (W : nat -> Prop) (s s' : PROGRAM) :
  built s -> touches W s s' -> state_rel (fun k => ~ W k) s s'.
Proof.
  intros Hb (F1 & F2 & F3 & F4).
  split; [exact Hb|]. split.
  - destruct Hb as (junk & pgm0 & E1 & E2). exists junk, pgm0. split; congruence.
  - split.
    + rewrite F3. repeat split.
    + intros k Hk i Hi. rewrite (F4 k Hk). split; [repeat split | reflexivity].
Qed.

Lemma touches_refl (W : nat -> Prop) (pgm : PROGRAM) : touches W pgm pgm.
Proof. split; [|split; [|split]]; reflexivity. Qed.

Lemma same_sides_state_rel (s s' : PROGRAM) :
  built s -> built s' ->
  tri_a (pgm_ref s) = tri_a (pgm_ref s') ->
  tri_b (pgm_ref s) = tri_b (pgm_ref s') ->
  tri_c (pgm_ref s) = tri_c (pgm_ref s') ->
  state_rel (fun _ => False) s s'.
Proof.
  intros B B' Ea Eb Ec. split; [exact B|]. split; [exact B'|].
  split; [repeat split; assumption|]. intros k [].
Qed.





(** ** The geometry files *)

Section OutputEffects.
Import String.

Variables (junk : R) (can_open : String.string -> bool) (int : nat).

Lemma classI_2v_output_effects (pgm : PROGRAM) (f : String.string) :
  classI_2v_output junk can_open pgm f
  = (tt, fopen_s f "w"%string ::
         if can_open f then
           off_file f "4 2 0\n"%string
             [global_point pgm 0 0; global_point pgm 1 0; global_point pgm 0 4;
              global_point pgm 0 1]
             ["3 0 1 3 \n"; "3 0 3 2 \n"]%string
         else []).
Proof. unfold classI_2v_output. cbv zeta. destruct (can_open f); reflexivity. Qed.

Lemma classI_3v_output_effects (pgm : PROGRAM) (f : String.string) :
  classI_3v_output junk can_open pgm f
  = (tt, fopen_s f "w"%string ::
         if can_open f then
           off_file f "5 3 0\n"%string
             [global_point pgm 0 5; global_point pgm 0 0; global_point pgm 1 0;
              global_point pgm 2 0; global_point pgm 0 1]
             ["3 0 1 3 \n"; "3 1 4 3 \n"; "3 1 2 4 \n"]%string
         else []).
Proof. unfold classI_3v_output. cbv zeta. destruct (can_open f); reflexivity. Qed.

Lemma classI_4v_output_effects (pgm : PROGRAM) (f : String.string) :
  classI_4v_output junk can_open pgm f
  = (tt, fopen_s f "w"%string ::
         if can_open f then
           off_file f "7 5 0\n"%string
             [global_point pgm 0 0; global_point pgm 1 0; global_point pgm 2 0;
              global_point pgm 3 5; global_point pgm 3 0; global_point pgm 1 1;
              global_point pgm 3 2]
             ["3 0 4 3 \n"; "3 0 1 4 \n"; "3 1 5 4 \n"; "3 1 2 5 \n"; "3 3 4 6 \n"]%string
         else []).
Proof. unfold classI_4v_output. cbv zeta. destruct (can_open f); reflexivity. Qed.

Lemma classI_5v_output_effects (pgm : PROGRAM) (f : String.string) :
  classI_5v_output junk can_open pgm f
  = (tt, fopen_s f "w"%string ::
         if can_open f then
           off_file f "9 7 0\n"%string
             [global_point pgm 0 5; global_point pgm 0 0; global_point pgm 1 0;
              global_point pgm 2 0; global_point pgm 3 0; global_point pgm 4 0;
              global_point pgm 1 1; global_point pgm 3 3; global_point pgm 3 1]
             ["3 0 1 4 \n"; "3 1 5 4 \n"; "3 1 2 5 \n"; "3 2 6 5 \n"; "3 2 3 6 \n";
              "3 4 5 8 \n"; "3 4 8 7 \n"]%string
         else []).
Proof. unfold classI_5v_output. cbv zeta. destruct (can_open f); reflexivity. Qed.

Lemma classI_7v_output_effects (pgm : PROGRAM) (f : String.string) :
  classI_7v_output junk can_open int pgm f
  = (tt, fopen_s f "w"%string ::
         if can_open f then
           off_file f "13 12 0\n"%string
             [global_point pgm 0 5; global_point pgm 0 0; global_point pgm 1 0;
              global_point pgm 2 0; global_point pgm 3 0; global_point pgm 4 0;
              global_point pgm 5 0; global_point pgm 6 0; global_point pgm 2 1;
              global_point pgm 7 5; global_point pgm 7 0; global_point pgm 5 1;
              global_point pgm 7 2]
             ["3 0 1 5 \n"; "3 1 6 5 \n"; "3 1 2 6 \n"; "3 2 7 6 \n"; "3 2 3 7 \n";
              "3 3 8 7 \n"; "3 3 4 8 \n"; "3 5 10  9 \n"; "3 5  6 10 \n"; "3 6 11 10 \n";
              "3 6  7 11 \n"; "3 9 10 12 \n"]%string
         else []).
Proof. unfold classI_7v_output. cbv zeta. destruct (can_open f); reflexivity. Qed.

Lemma classI_6v_output_effects (pgm : PROGRAM) (f : String.string) :
  classI_6v_output junk can_open int pgm f
  = (tt, fopen_s f "w"%string ::
         if can_open f then
           off_file f "10 9 0\n"%string
             [global_point pgm 0 0; global_point pgm 1 0; global_point pgm 2 0;
              global_point pgm 3 0; global_point pgm 4 5; global_point pgm 4 0;
              global_point pgm 5 0; global_point pgm 2 1; global_point pgm 6 0;
              global_point pgm 4 1]
             ["3 0 1 5 \n"; "3 0 5 4 \n"; "3 1 2 6 \n"; "3 1 6 5 \n"; "3 2 3 7 \n";
              "3 2 7 6 \n"; "3 4 5 8 \n"; "3 5 9 8 \n"; "3 5 6 9 \n"]%string
         else []).
Proof. unfold classI_6v_output. cbv zeta. destruct (can_open f); reflexivity. Qed.

End OutputEffects.

(** ** Runs that write *)

Lemma related_io_bind {A B : Type} (P : A -> A -> Prop) (Q : B -> B -> Prop)
  (m m' : io A) (K K' : A -> io B) :
  related P m m' -> (forall a a', P a a' -> related Q (K a) (K' a')) ->
  related Q (io_bind m K) (io_bind m' K').
Proof.
  intros (H1 & H2) HK. destruct m as [a l], m' as [a' l']. cbn [fst snd] in *. subst l'.
  specialize (HK a a' H1). unfold io_bind. destruct (K a) as [b k], (K' a') as [b' k'].
  destruct HK as (G1 & G2). cbn [fst snd] in *. subst k'. split; [exact G1 | reflexivity].
Qed.

Lemma related_io_ret {B : Type} (Q : B -> B -> Prop) (b b' : B) :
  Q b b' -> related Q (io_ret b) (io_ret b').
Proof. intros H. split; [exact H | reflexivity]. Qed.

Lemma related_emit (e : effect) : related (fun _ _ => True) (emit e) (emit e).
Proof. split; [exact I | reflexivity]. Qed.

Lemma related_lift {B : Type} (Q : B -> B -> Prop) (m m' : libm B) :
  related Q m m' -> related Q (lift m) (lift m').
Proof. intros (H1 & H2). split; [exact H1|]. unfold lift. cbn [snd]. rewrite H2. reflexivity. Qed.

Lemma stream_discipline_app (can_open : String.string -> bool) (l1 l2 : list effect)
  (o : bool) :
  stream_discipline can_open o l1 = true -> stream_discipline can_open false l2 = true ->
  stream_discipline can_open o (l1 ++ l2) = true.
Proof.
  revert o. induction l1 as [|e l1 IH]; intros o H1 H2.
  - cbn [app]. cbn [stream_discipline] in H1. destruct o; [discriminate | exact H2].
  - cbn [app]. destruct e; cbn [stream_discipline] in *;
      try (apply andb_true_iff in H1; destruct H1 as (Ho & H1); rewrite Ho; cbn [andb]);
      apply IH; assumption.
Qed.

Lemma clean_app (can_open : String.string -> bool) (l1 l2 : list effect) :
  clean can_open l1 -> clean can_open l2 -> clean can_open (l1 ++ l2).
Proof.
  intros (U1 & D1) (U2 & D2). split.
  - apply Forall_app. split; assumption.
  - apply stream_discipline_app; assumption.
Qed.

Lemma clean_libm (can_open : String.string -> bool) (l : list libm_call) :
  clean can_open (map libm_effect l).
Proof.
  induction l as [|c l IH]; [split; [constructor | reflexivity]|].
  destruct IH as (U & D). split; [constructor; [exact I | exact U] | exact D].
Qed.

Lemma runs_bind (can_open : String.string -> bool) {A B : Type} (P : A -> Prop)
  (Q : B -> Prop) (m : io A) (K : A -> io B) :
  runs can_open P m -> (forall a, P a -> runs can_open Q (K a)) ->
  runs can_open Q (io_bind m K).
Proof.
  intros (H & C) HK. destruct m as [a l]. cbn [fst snd] in *.
  specialize (HK a H). unfold io_bind. destruct (K a) as [b k].
  destruct HK as (G & C'). cbn [fst snd] in *. split; [exact G | apply clean_app; assumption].
Qed.

Lemma runs_ret (can_open : String.string -> bool) {B : Type} (Q : B -> Prop) (b : B) :
  Q b -> runs can_open Q (io_ret b).
Proof. intros H. split; [exact H|]. split; [constructor | reflexivity]. Qed.

Lemma runs_printf (can_open : String.string -> bool) (format : String.string)
  (args : list arg) :
  runs can_open (fun _ => True) (emit (printf format args)).
Proof. split; [exact I|]. split; [repeat constructor | reflexivity]. Qed.

Lemma runs_lift (can_open : String.string -> bool) {B : Type} (Q : B -> Prop) (m : libm B) :
  after Q m -> runs can_open Q (lift m).
Proof. intros H. split; [exact H | apply clean_libm]. Qed.

Ltac io_bind_from_vertex S :=
  same_reads S;
  eapply related_io_bind;
  [ apply related_lift;
    first [ apply (from_vertex_rel _ _ _ _ _ _ _ _ _ _ _ S); [lia | cbv beta; auto 10 | lia]
          | apply (by_strig_rel _ _ _ _ _ _ _ _ _ _ S); lia ]
  | clear S; let t := fresh "s" in let t' := fresh "s'" in intros t t' S; cbv beta ].

Ltac io_made_bind M :=
  eapply runs_bind;
  [ apply runs_lift;
    first [ apply (made_from_vertex _ _ _ _ _ _ _ _ _ _ M); lia
          | apply (made_by_strig _ _ _ _ _ _ _ _ _ M); lia ]
  | clear M; let t := fresh "s" in intros t M; cbv beta ].

Section DirectSolutions.

Variables junk junk' : R.

Lemma classI_2v_related (D : nat -> Prop) (pgm pgm' : PROGRAM) :
  state_rel D pgm pgm' ->
  related (state_rel (fun k => (k < 2)%nat \/ D k)) (classI_2v junk pgm) (classI_2v junk' pgm').
Proof.
  intros S. cbv beta delta [classI_2v].
  eapply related_io_bind; [apply related_emit | intros _ _ _; cbv beta].
  let_by_sc S. let_by_sc S.
  apply related_io_ret.
  eapply state_rel_weaken; [|exact S]. cbv beta. intros k [Hk|Hk]; [|auto 10].
  assert (k = 0 \/ k = 1)%nat as [|] by lia; auto 10.
Qed.

Lemma classI_3v_related (D : nat -> Prop) (pgm pgm' : PROGRAM) :
  state_rel D pgm pgm' ->
  related (state_rel (fun k => (k < 3)%nat \/ D k)) (classI_3v junk pgm) (classI_3v junk' pgm').
Proof.
  intros S. cbv beta delta [classI_3v].
  eapply related_io_bind; [apply related_emit | intros _ _ _; cbv beta].
  let_by_sc S. let_by_sc S. io_bind_from_vertex S.
  apply related_io_ret.
  eapply state_rel_weaken; [|exact S]. cbv beta. intros k [Hk|Hk]; [|auto 10].
  assert (k = 0 \/ k = 1 \/ k = 2)%nat as [|[|]] by lia; auto 10.
Qed.

Lemma classI_4v_related (D : nat -> Prop) (pgm pgm' : PROGRAM) :
  state_rel D pgm pgm' ->
  related (state_rel (fun k => (k < 4)%nat \/ D k)) (classI_4v junk pgm) (classI_4v junk' pgm').
Proof.
  intros S. cbv beta delta [classI_4v].
  eapply related_io_bind; [apply related_emit | intros _ _ _; cbv beta].
  let_by_sc S. io_bind_from_vertex S. let_by_sc S. io_bind_from_vertex S.
  apply related_io_ret.
  eapply state_rel_weaken; [|exact S]. cbv beta. intros k [Hk|Hk]; [|auto 10].
  assert (k = 0 \/ k = 1 \/ k = 2 \/ k = 3)%nat as [|[|[|]]] by lia; auto 10.
Qed.

Variable can_open : String.string -> bool.

Lemma classI_2v_runs (W : nat -> Prop) (pgm s : PROGRAM) :
  made W pgm s ->
  runs can_open (made (fun k => (k < 2)%nat \/ W k) pgm) (classI_2v junk s).
Proof.
  intros M. cbv beta delta [classI_2v].
  eapply runs_bind; [apply runs_printf | intros _ _; cbv beta].
  made_let M. made_let M.
  apply runs_ret. eapply made_ext; [|exact M]. same_set.
Qed.

Lemma classI_3v_runs (W : nat -> Prop) (pgm s : PROGRAM) :
  made W pgm s ->
  runs can_open (made (fun k => (k < 3)%nat \/ W k) pgm) (classI_3v junk s).
Proof.
  intros M. cbv beta delta [classI_3v].
  eapply runs_bind; [apply runs_printf | intros _ _; cbv beta].
  made_let M. made_let M. io_made_bind M.
  apply runs_ret. eapply made_ext; [|exact M]. same_set.
Qed.

Lemma classI_4v_runs (W : nat -> Prop) (pgm s : PROGRAM) :
  made W pgm s ->
  runs can_open (made (fun k => (k < 4)%nat \/ W k) pgm) (classI_4v junk s).
Proof.
  intros M. cbv beta delta [classI_4v].
  eapply runs_bind; [apply runs_printf | intros _ _; cbv beta].
  made_let M. io_made_bind M. made_let M. io_made_bind M.
  apply runs_ret. eapply made_ext; [|exact M]. same_set.
Qed.

End DirectSolutions.

Lemma TM_sumsq (co si : R) (p : GUT_POINT) :
  co * co + si * si = 1 -> sumsq (transform (TM co si) p) = sumsq p.
Proof.
  intros H. assert (H' : co * co = 1 - si * si) by lra.
  destruct p as [x y z w].
  unfold sumsq, transform, vec4_times, point_of_vector, vector_of_point, TM, matrix_of_list,
    cell.
  simpl. ring [H'].
Qed.

Lemma global_point_unit (s : PROGRAM) (k a : nat) :
  built s -> sumsq (v_p (pgm_v s k) a) = 1 -> unit_line (point_line (global_point s k a)).
Proof.
  intros Hb Hu.
  destruct built_laws as (co & si & Hcs & Laws).
  destruct (Laws s Hb) as (Htm & _ & _). clear Laws.
  change (sumsq (global_point s k a) = 1). unfold global_point.
  rewrite (transform_same16 _ _ _ Htm), TM_sumsq by exact Hcs. exact Hu.
Qed.

Lemma global_point_agree (D : nat -> Prop) (s s' : PROGRAM) (k a : nat) :
  state_rel D s s' -> D k -> (a < 6)%nat ->
  point_line (global_point s' k a) = point_line (global_point s k a).
Proof.
  intros (B & B' & (_ & A)) Dk Ha.
  destruct built_laws as (co & si & Hcs & Laws).
  destruct (Laws s B) as (Htm & _ & _). destruct (Laws s' B') as (Htm' & _ & _). clear Laws.
  destruct (A k Dk a Ha) as (Exyz & _).
  destruct (TM_bottom co si) as (b12 & b13 & b14 & _).
  destruct (same_xyz_transform _ _ _ _ _ Htm Htm' b12 b13 b14 Exyz) as (Ex & Ey & Ez).
  unfold point_line, global_point. rewrite Ex, Ey, Ez. reflexivity.
Qed.

Lemma made_units (W : nat -> Prop) (pgm s : PROGRAM) :
  built pgm -> made W pgm s -> built s /\ units W s.
Proof. intros Hb M. split; [exact (made_built W pgm s M Hb) | exact (proj2 M Hb)]. Qed.

(** The vertices an earlier state had of norm one keep it where the
    later state has not touched them. *)
Lemma units_touches (D V : nat -> Prop) (s s' : PROGRAM) :
  units D s -> touches V s s' -> units (fun k => D k /\ ~ V k) s'.
Proof.
  intros U (_ & _ & _ & T) k (Dk & Vk) i Hi. rewrite (T k Vk). apply (U k Dk i Hi).
Qed.

Ltac unit_lines Hb U :=
  repeat first
    [ apply Forall_nil
    | apply Forall_cons;
      [ first [ exact I
              | apply (global_point_unit _ _ _ Hb), U; [cbv beta; pick | lia] ] | ] ].

Section OutputClean.

Variables (junk junk' : R) (can_open : String.string -> bool) (int : nat).

Ltac output_clean E Hb U :=
  rewrite E; cbn [snd]; split;
  [ apply Forall_cons; [exact I|];
    destruct (can_open _); [|apply Forall_nil];
    unfold off_file; cbn [map app]; unit_lines Hb U
  | cbn [stream_discipline negb andb];
    destruct (can_open _); reflexivity ].

Lemma classI_2v_output_clean (D : nat -> Prop) (s : PROGRAM) (f : String.string) :
  built s -> units D s -> (forall k, (k < 2)%nat -> D k) ->
  clean can_open (snd (classI_2v_output junk can_open s f)).
Proof.
  intros Hb U HD.
  assert (U' : units (fun k => (k < 2)%nat) s) by (intros k Hk; apply U, HD, Hk).
  output_clean classI_2v_output_effects Hb U'.
Qed.

Lemma classI_3v_output_clean (D : nat -> Prop) (s : PROGRAM) (f : String.string) :
  built s -> units D s -> (forall k, (k < 3)%nat -> D k) ->
  clean can_open (snd (classI_3v_output junk can_open s f)).
Proof.
  intros Hb U HD.
  assert (U' : units (fun k => (k < 3)%nat) s) by (intros k Hk; apply U, HD, Hk).
  output_clean classI_3v_output_effects Hb U'.
Qed.

Lemma classI_4v_output_clean (D : nat -> Prop) (s : PROGRAM) (f : String.string) :
  built s -> units D s -> (forall k, (k < 4)%nat -> D k) ->
  clean can_open (snd (classI_4v_output junk can_open s f)).
Proof.
  intros Hb U HD.
  assert (U' : units (fun k => (k < 4)%nat) s) by (intros k Hk; apply U, HD, Hk).
  output_clean classI_4v_output_effects Hb U'.
Qed.

Lemma classI_5v_output_clean (D : nat -> Prop) (s : PROGRAM) (f : String.string) :
  built s -> units D s -> (forall k, (k < 5)%nat -> D k) ->
  clean can_open (snd (classI_5v_output junk can_open s f)).
Proof.
  intros Hb U HD.
  assert (U' : units (fun k => (k < 5)%nat) s) by (intros k Hk; apply U, HD, Hk).
  output_clean classI_5v_output_effects Hb U'.
Qed.

Lemma classI_6v_output_clean (D : nat -> Prop) (s : PROGRAM) (f : String.string) :
  built s -> units D s -> (forall k, (k < 7)%nat -> D k) ->
  clean can_open (snd (classI_6v_output junk can_open int s f)).
Proof.
  intros Hb U HD.
  assert (U' : units (fun k => (k < 7)%nat) s) by (intros k Hk; apply U, HD, Hk).
  output_clean classI_6v_output_effects Hb U'.
Qed.

Lemma classI_7v_output_clean (D : nat -> Prop) (s : PROGRAM) (f : String.string) :
  built s -> units D s -> (forall k, (k < 8)%nat -> D k) ->
  clean can_open (snd (classI_7v_output junk can_open int s f)).
Proof.
  intros Hb U HD.
  assert (U' : units (fun k => (k < 8)%nat) s) by (intros k Hk; apply U, HD, Hk).
  output_clean classI_7v_output_effects Hb U'.
Qed.

End OutputClean.

(** ** The solution routines *)

Lemma main_setup_sides (junk : R) (pgm0 : PROGRAM) :
  tri_a (pgm_ref (main_setup junk pgm0)) = acos (cos (DTR 36) / sin (DTR 60))
  /\ tri_b (pgm_ref (main_setup junk pgm0)) = acos (cos (DTR 60) / sin (DTR 36))
  /\ tri_c (pgm_ref (main_setup junk pgm0)) = acos (1 / (tan (DTR 36) * tan (DTR 60))).
Proof. rewrite main_setup_unfold. repeat split. Qed.

Ltac same_lines S :=
  repeat match goal with
  | |- context [point_line (global_point ?s' ?k ?a)] =>
      match type of S with
      | state_rel _ ?s s' =>
          rewrite (global_point_agree _ s s' k a S) by (cbv beta; first [pick | lia])
      end
  end.

Section SolutionRoutines.
Import String.

Variables (junk junk' : R) (can_open : String.string -> bool).

Lemma classI_2v_output_agree (D : nat -> Prop) (s s' : PROGRAM) (f : String.string) :
  state_rel D s s' -> (forall k, (k < 2)%nat -> D k) ->
  classI_2v_output junk' can_open s' f = classI_2v_output junk can_open s f.
Proof.
  intros S HD.
  assert (S' : state_rel (fun k => (k < 2)%nat) s s') by (exact (state_rel_weaken _ _ _ _ HD S)).
  rewrite !classI_2v_output_effects. unfold off_file. cbn [map]. same_lines S'. reflexivity.
Qed.

Lemma classI_3v_output_agree (D : nat -> Prop) (s s' : PROGRAM) (f : String.string) :
  state_rel D s s' -> (forall k, (k < 3)%nat -> D k) ->
  classI_3v_output junk' can_open s' f = classI_3v_output junk can_open s f.
Proof.
  intros S HD.
  assert (S' : state_rel (fun k => (k < 3)%nat) s s') by (exact (state_rel_weaken _ _ _ _ HD S)).
  rewrite !classI_3v_output_effects. unfold off_file. cbn [map]. same_lines S'. reflexivity.
Qed.

Lemma classI_4v_output_agree (D : nat -> Prop) (s s' : PROGRAM) (f : String.string) :
  state_rel D s s' -> (forall k, (k < 4)%nat -> D k) ->
  classI_4v_output junk' can_open s' f = classI_4v_output junk can_open s f.
Proof.
  intros S HD.
  assert (S' : state_rel (fun k => (k < 4)%nat) s s') by (exact (state_rel_weaken _ _ _ _ HD S)).
  rewrite !classI_4v_output_effects. unfold off_file. cbn [map]. same_lines S'. reflexivity.
Qed.

Ltac solution_related R A S :=
  eapply related_io_bind; [apply R, S|];
  let t := fresh "s" in let t' := fresh "s'" in let S1 := fresh "S" in
  intros t t' S1; cbv beta;
  destruct (sprintf_s _ _ _) as [f|]; [|apply related_io_ret; exact I];
  rewrite (A _ t t' f S1) by (cbv beta; intros; pick);
  eapply related_io_bind with (P := fun _ _ => True);
  [ split; [exact I | reflexivity] | intros _ _ _; apply related_io_ret; exact S1 ].

Lemma classI_2v_solution_related (D : nat -> Prop) (s s' : PROGRAM) (base : String.string) :
  state_rel D s s' ->
  related (both (state_rel (fun k => (k < 2)%nat \/ D k)))
    (classI_2v_solution junk can_open s base) (classI_2v_solution junk' can_open s' base).
Proof.
  intros S. unfold classI_2v_solution.
  solution_related classI_2v_related classI_2v_output_agree S.
Qed.

Lemma classI_3v_solution_related (D : nat -> Prop) (s s' : PROGRAM) (base : String.string) :
  state_rel D s s' ->
  related (both (state_rel (fun k => (k < 3)%nat \/ D k)))
    (classI_3v_solution junk can_open s base) (classI_3v_solution junk' can_open s' base).
Proof.
  intros S. unfold classI_3v_solution.
  solution_related classI_3v_related classI_3v_output_agree S.
Qed.

Lemma classI_4v_solution_related (D : nat -> Prop) (s s' : PROGRAM) (base : String.string) :
  state_rel D s s' ->
  related (both (state_rel (fun k => (k < 4)%nat \/ D k)))
    (classI_4v_solution junk can_open s base) (classI_4v_solution junk' can_open s' base).
Proof.
  intros S. unfold classI_4v_solution.
  solution_related classI_4v_related classI_4v_output_agree S.
Qed.

Ltac solution_runs R C Hb M :=
  eapply runs_bind; [apply R, M|];
  let t := fresh "s" in let M1 := fresh "M" in
  intros t M1; cbv beta;
  destruct (sprintf_s _ _ _) as [f|] eqn:Ef; [|apply runs_ret; exact Ef];
  eapply runs_bind with (P := fun _ => True);
  [ split; [exact I|];
    destruct (made_units _ _ _ Hb M1) as (Hb1 & U1);
    eapply C; [exact Hb1 | exact U1 | cbv beta; intros; pick]
  | intros _ _; apply runs_ret; exact M1 ].

Lemma classI_2v_solution_runs (W : nat -> Prop) (pgm s : PROGRAM) (base : String.string) :
  built pgm -> made W pgm s ->
  runs can_open (solved (fun k => (k < 2)%nat \/ W k) pgm base)
    (classI_2v_solution junk can_open s base).
Proof.
  intros Hb M. unfold classI_2v_solution.
  solution_runs classI_2v_runs classI_2v_output_clean Hb M.
Qed.

Lemma classI_3v_solution_runs (W : nat -> Prop) (pgm s : PROGRAM) (base : String.string) :
  built pgm -> made W pgm s ->
  runs can_open (solved (fun k => (k < 3)%nat \/ W k) pgm base)
    (classI_3v_solution junk can_open s base).
Proof.
  intros Hb M. unfold classI_3v_solution.
  solution_runs classI_3v_runs classI_3v_output_clean Hb M.
Qed.

Lemma classI_4v_solution_runs (W : nat -> Prop) (pgm s : PROGRAM) (base : String.string) :
  built pgm -> made W pgm s ->
  runs can_open (solved (fun k => (k < 4)%nat \/ W k) pgm base)
    (classI_4v_solution junk can_open s base).
Proof.
  intros Hb M. unfold classI_4v_solution.
  solution_runs classI_4v_runs classI_4v_output_clean Hb M.
Qed.

End SolutionRoutines.

(** ** The program up to the third solution *)

Section MainFacts.
Import String.



End MainFacts.


Section FileFacts.
Import String.

Variables (junk : R) (can_open : string -> bool) (int : nat).


(** When the file cannot be opened an output routine does nothing
    after the failed [fopen_s]: no message, no line, no [fclose]. *)
Theorem output_unopened (pgm : PROGRAM) (f : string) :
  can_open f = false ->
  snd (classI_2v_output junk can_open pgm f) = [fopen_s f "w"]
  /\ snd (classI_3v_output junk can_open pgm f) = [fopen_s f "w"]
  /\ snd (classI_4v_output junk can_open pgm f) = [fopen_s f "w"]
  /\ snd (classI_5v_output junk can_open pgm f) = [fopen_s f "w"]
  /\ snd (classI_6v_output junk can_open int pgm f) = [fopen_s f "w"]
  /\ snd (classI_7v_output junk can_open int pgm f) = [fopen_s f "w"].
Proof.
  intros H.
  rewrite classI_2v_output_effects, classI_3v_output_effects, classI_4v_output_effects,
    classI_5v_output_effects, classI_6v_output_effects, classI_7v_output_effects.
  rewrite H. repeat split.
Qed.

End FileFacts.

Section FileWitnesses.
Import String.


Lemma output_unopened_witness :
  snd (classI_2v_output 0 (fun _ => false) blank_program "icosa20.off")
  = [fopen_s "icosa20.off" "w"].
Proof.
  exact (proj1 (output_unopened 0 (fun _ => false) 0%nat blank_program "icosa20.off" eq_refl)).
Defined.

End FileWitnesses.

(** ** The transforms of a built state *)

(** The thirty-six region transforms are closed under composition:
    from region [i] to [j] and on to [k] is the transform from [i] to
    [k].  Each keeps the norm and the [z] coordinate of every point, and
    each is the same matrix whatever memory the builders started from. *)
Theorem region_transforms_compose (pgm pgm' : PROGRAM) (i j k : nat) (p : GUT_POINT) :
  built pgm -> built pgm' -> (i < 6)%nat -> (j < 6)%nat -> (k < 6)%nat ->
  transform (subm pgm j k) (transform (subm pgm i j) p) = transform (subm pgm i k) p
  /\ sumsq (transform (subm pgm i j) p) = sumsq p
  /\ pz (transform (subm pgm i j) p) = pz p
  /\ same16 (subm pgm i j) (subm pgm' i j).
Proof.
  intros Hb Hb' Hi Hj Hk.
  destruct built_laws as (co & si & _ & Laws).
  destruct (Laws pgm Hb) as (_ & _ & L). destruct (Laws pgm' Hb') as (_ & _ & L'). clear Laws.
  destruct (L i j Hi Hj)
    as (_ & Liso & Lc & Lref & (c2 & c6 & c10 & c12 & c13 & c14 & c15) & _).
  destruct (L' i j Hi Hj) as (_ & _ & _ & Lref' & _).
  split; [apply Lc, Hk|]. split; [apply Liso|]. split.
  - destruct p as [x y z w].
    unfold transform, vec4_times, point_of_vector, vector_of_point.
    cbn [vi vj vk vl px py pz pw]. rewrite c2, c6, c10, c14. ring.
  - intros n Hn. rewrite (Lref n Hn), (Lref' n Hn). reflexivity.
Qed.

Lemma region_transforms_compose_witness :
  transform (subm (main_setup 0 blank_program) 3 5)
    (transform (subm (main_setup 0 blank_program) 1 3) (mkPOINT 1 2 3 1))
  = transform (subm (main_setup 0 blank_program) 1 5) (mkPOINT 1 2 3 1).
Proof.
  exact (proj1 (region_transforms_compose (main_setup 0 blank_program)
                  (main_setup 0 blank_program) 1 3 5 (mkPOINT 1 2 3 1)
                  (built_main_setup 0 blank_program) (built_main_setup 0 blank_program)
                  ltac:(lia) ltac:(lia) ltac:(lia))).
Defined.

(** The face-to-global matrix [tm] and [tmt] that
    [build_face_transforms] leaves undo each other in both orders, [tm]
    keeps the norm of every point, and both are the same matrices
    whatever memory the builder started from, although it reads locals
    it has not written. *)
Theorem face_transforms_inverse (pgm pgm' : PROGRAM) (p : GUT_POINT) :
  built pgm -> built pgm' ->
  transform (tmt (pgm_face pgm)) (transform (tm (pgm_face pgm)) p) = p
  /\ transform (tm (pgm_face pgm)) (transform (tmt (pgm_face pgm)) p) = p
  /\ sumsq (transform (tm (pgm_face pgm)) p) = sumsq p
  /\ same16 (tm (pgm_face pgm)) (tm (pgm_face pgm'))
  /\ same16 (tmt (pgm_face pgm)) (tmt (pgm_face pgm')).
Proof.
  intros Hb Hb'.
  destruct built_laws as (co & si & Hcs & Laws).
  destruct (Laws pgm Hb) as (Htm & Htmt & _).
  destruct (Laws pgm' Hb') as (Htm' & Htmt' & _). clear Laws.
  split; [|split; [|split; [|split]]].
  - rewrite (transform_same16 _ _ (transform (tm (pgm_face pgm)) p) Htmt).
    rewrite (transform_same16 _ _ p Htm). apply (TM_inverse co si p Hcs).
  - rewrite (transform_same16 _ _ (transform (tmt (pgm_face pgm)) p) Htm).
    rewrite (transform_same16 _ _ p Htmt). apply (TM_inverse co si p Hcs).
  - rewrite (transform_same16 _ _ p Htm). apply TM_sumsq, Hcs.
  - intros n Hn. rewrite (Htm n Hn), (Htm' n Hn). reflexivity.
  - intros n Hn. rewrite (Htmt n Hn), (Htmt' n Hn). reflexivity.
Qed.

Lemma face_transforms_inverse_witness :
  sumsq (transform (tm (pgm_face (main_setup 0 blank_program))) (mkPOINT 1 2 3 1))
  = sumsq (mkPOINT 1 2 3 1).
Proof.
  exact (proj1 (proj2 (proj2 (face_transforms_inverse (main_setup 0 blank_program)
                  (main_setup 0 blank_program) (mkPOINT 1 2 3 1)
                  (built_main_setup 0 blank_program) (built_main_setup 0 blank_program))))).
Defined.

(* ================================================================== *)
(** * Part IV.  Properties of the constraint solver                    *)
(* ================================================================== *)

Section SolverFacts.

Import Floats.
Import Solver.
Local Open Scope float_scope.

Context {S : Type}.
Variable buildFunction : BUILD S.

(** ** One iteration *)

Lemma next_world_loop (w : world S) :
  loop (w_prob (next_world buildFunction w)) = (loop (w_prob w) + 1)%Z.
Proof.
  unfold next_world.
  destruct (buildFunction (w_seed w) (w_var w)) as [[diff seed] var].
  destruct (update diff (w_prob w) seed). reflexivity.
Qed.

Lemma next_world_tolerance (w : world S) :
  tolerance (w_prob (next_world buildFunction w)) = tolerance (w_prob w).
Proof.
  unfold next_world.
  destruct (buildFunction (w_seed w) (w_var w)) as [[diff seed] var].
  destruct (update diff (w_prob w) seed). reflexivity.
Qed.

(** The three ways an iteration ends, in the order the source tests
    them: the cap first, then the tolerance. *)
Lemma loop_body_cap (max : Z) (w : world S) :
  (loop (w_prob w) + 1)%Z = max ->
  loop_body buildFunction max w =
  Return (mkOutcome (-1) (snd (fst (buildFunction (w_seed w) (w_var w))))
            (snd (buildFunction (w_seed w) (w_var w)))
            [NOTE_inner_loop_exceeded_max (residual buildFunction w)]
            (loop (w_prob w) + 1)).
Proof.
  intros H. unfold loop_body, residual.
  destruct (buildFunction (w_seed w) (w_var w)) as [[diff seed] var].
  rewrite (proj2 (Z.eqb_eq _ _) H). reflexivity.
Qed.

Lemma loop_body_converged (max : Z) (w : world S) :
  (loop (w_prob w) + 1)%Z <> max ->
  within_tolerance buildFunction w = true ->
  loop_body buildFunction max w =
  Return (mkOutcome (fabs (residual buildFunction w))
            (snd (fst (buildFunction (w_seed w) (w_var w))))
            (snd (buildFunction (w_seed w) (w_var w)))
            [] (loop (w_prob w) + 1)).
Proof.
  intros H Hc. unfold loop_body, within_tolerance, residual in *.
  destruct (buildFunction (w_seed w) (w_var w)) as [[diff seed] var].
  rewrite (proj2 (Z.eqb_neq _ _) H). simpl in Hc. rewrite Hc. reflexivity.
Qed.

Lemma loop_body_continue (max : Z) (w : world S) :
  (loop (w_prob w) + 1)%Z <> max ->
  within_tolerance buildFunction w = false ->
  loop_body buildFunction max w = Continue (next_world buildFunction w).
Proof.
  intros H Hc. unfold loop_body, within_tolerance, residual in *.
  destruct (buildFunction (w_seed w) (w_var w)) as [[diff seed] var].
  rewrite (proj2 (Z.eqb_neq _ _) H). simpl in Hc. rewrite Hc. reflexivity.
Qed.

(** ** The sequence of worlds *)

Lemma world_at_next (w : world S) (k : nat) :
  world_at buildFunction (next_world buildFunction w) k
  = next_world buildFunction (world_at buildFunction w k).
Proof. induction k as [|k IH]; simpl; [reflexivity | now rewrite IH]. Qed.

Lemma world_at_loop (w : world S) (k : nat) :
  loop (w_prob (world_at buildFunction w k)) = (loop (w_prob w) + Z.of_nat k)%Z.
Proof.
  induction k as [|k IH].
  - simpl. lia.
  - cbn [world_at]. rewrite next_world_loop, IH. lia.
Qed.

Lemma world_at_tolerance (w : world S) (k : nat) :
  tolerance (w_prob (world_at buildFunction w k)) = tolerance (w_prob w).
Proof.
  induction k as [|k IH]; [reflexivity|].
  cbn [world_at]. now rewrite next_world_tolerance.
Qed.

(** ** The loop *)

(** [k] iterations that neither hit the cap nor converge use [k] units
    of fuel and lead to the [k]-th world. *)
Lemma while_1_skip (max : Z) (k fuel : nat) (w : world S) :
  (forall i, (i < k)%nat ->
     (loop (w_prob w) + Z.of_nat i + 1)%Z <> max
     /\ within_tolerance buildFunction (world_at buildFunction w i) = false) ->
  while_1 (k + fuel) buildFunction max w
  = while_1 fuel buildFunction max (world_at buildFunction w k).
Proof.
  revert w. induction k as [|k IH]; intros w H; [reflexivity|].
  cbn [Nat.add while_1].
  destruct (H 0%nat ltac:(lia)) as [H0 H1]. cbn [world_at] in H1.
  rewrite loop_body_continue by (try assumption; lia).
  rewrite IH.
  - now rewrite world_at_next.
  - intros i Hi. destruct (H (Datatypes.S i) ltac:(lia)) as [Ha Hb].
    rewrite next_world_loop. split; [lia|].
    rewrite world_at_next. exact Hb.
Qed.

(** Whatever the loop returns, it returns from the body run in some
    world of the sequence, all earlier iterations having continued. *)
Lemma while_1_returns (max : Z) (fuel : nat) (w : world S) (o : outcome S) :
  while_1 fuel buildFunction max w = Some o ->
  exists k, (k < fuel)%nat
    /\ loop_body buildFunction max (world_at buildFunction w k) = Return o
    /\ forall i, (i < k)%nat ->
         loop_body buildFunction max (world_at buildFunction w i)
         = Continue (world_at buildFunction w (Datatypes.S i)).
Proof.
  revert w. induction fuel as [|fuel IH]; intros w H; [discriminate|].
  cbn [while_1] in H.
  destruct (loop_body buildFunction max w) as [o'|w'] eqn:E.
  - exists 0%nat. injection H as <-. repeat split; [lia | exact E | intros i Hi; lia].
  - assert (Ew : w' = next_world buildFunction w).
    { unfold loop_body in E.
      destruct (buildFunction (w_seed w) (w_var w)) as [[diff seed] var].
      destruct (_ =? _)%Z; [discriminate|].
      destruct (_ <=? _); [discriminate|]. now injection E as <-. }
    subst w'. destruct (IH _ H) as (k & Hk & Hr & Hc).
    exists (Datatypes.S k). rewrite world_at_next in Hr. repeat split; [lia | exact Hr |].
    intros [|i] Hi; [exact E|].
    specialize (Hc i ltac:(lia)). rewrite !world_at_next in Hc. exact Hc.
Qed.

(** With the counter below the cap, fuel for the remaining counts makes
    the loop return: [build_loop] terminates. *)
Lemma while_1_total (m fuel : nat) (w : world S) :
  (1 <= m)%nat -> (m <= fuel)%nat ->
  loop (w_prob w) = (200 - Z.of_nat m)%Z ->
  exists o, while_1 fuel buildFunction 200 w = Some o.
Proof.
  revert fuel w. induction m as [|m IH]; intros fuel w Hm Hf Hl; [lia|].
  destruct fuel as [|fuel]; [lia|]. cbn [while_1].
  destruct (Z.eq_dec (loop (w_prob w) + 1) 200) as [Hc|Hc].
  - rewrite loop_body_cap by exact Hc. eauto.
  - destruct (within_tolerance buildFunction w) eqn:Hw.
    + rewrite loop_body_converged by assumption. eauto.
    + rewrite loop_body_continue by assumption.
      apply IH; [lia | lia | rewrite next_world_loop; lia].
Qed.

(** ** Runs of [build_loop] *)

Variables (seed r_zero : float) (var : S).

Let w0 : world S := initial_world seed r_zero var.

(** The run that converges at its [n]-th invocation, [n <= 199]. *)
Lemma build_loop_converged_run (fuel n : nat) :
  (1 <= n <= 199)%nat -> (n <= fuel)%nat ->
  converged_at buildFunction seed r_zero var n = true ->
  (forall i, (1 <= i < n)%nat -> converged_at buildFunction seed r_zero var i = false) ->
  build_loop fuel buildFunction seed r_zero var
  = Some (mkOutcome (fabs (residual_at buildFunction seed r_zero var n))
            (snd (fst (buildFunction (w_seed (world_at buildFunction w0 (n - 1)))
                                     (w_var (world_at buildFunction w0 (n - 1))))))
            (snd (buildFunction (w_seed (world_at buildFunction w0 (n - 1)))
                                (w_var (world_at buildFunction w0 (n - 1)))))
            [] (Z.of_nat n)).
Proof.
  intros Hn Hf Hc Hb. unfold build_loop. cbv zeta. fold w0.
  replace fuel with ((n - 1) + Datatypes.S (fuel - n))%nat by lia.
  rewrite while_1_skip.
  - cbn [while_1]. rewrite loop_body_converged.
    + rewrite world_at_loop. unfold w0 at 4. simpl loop.
      replace (0 + Z.of_nat (n - 1) + 1)%Z with (Z.of_nat n) by lia. reflexivity.
    + rewrite world_at_loop. unfold w0. simpl loop. lia.
    + exact Hc.
  - intros i Hi. unfold w0 at 1. simpl loop. split; [lia|].
    specialize (Hb (Datatypes.S i) ltac:(lia)). unfold converged_at in Hb.
    replace (Datatypes.S i - 1)%nat with i in Hb by lia. exact Hb.
Qed.

(** The run in which none of the first 199 invocations converges. *)
Lemma build_loop_capped_run (fuel : nat) :
  (200 <= fuel)%nat ->
  (forall i, (1 <= i <= 199)%nat -> converged_at buildFunction seed r_zero var i = false) ->
  build_loop fuel buildFunction seed r_zero var
  = Some (mkOutcome (-1)
            (snd (fst (buildFunction (w_seed (world_at buildFunction w0 199))
                                     (w_var (world_at buildFunction w0 199)))))
            (snd (buildFunction (w_seed (world_at buildFunction w0 199))
                                (w_var (world_at buildFunction w0 199))))
            [NOTE_inner_loop_exceeded_max (residual_at buildFunction seed r_zero var 200)]
            200).
Proof.
  intros Hf Hb. unfold build_loop. cbv zeta. fold w0.
  replace fuel with (199 + Datatypes.S (fuel - 200))%nat by lia.
  rewrite while_1_skip.
  - cbn [while_1]. rewrite loop_body_cap.
    + rewrite world_at_loop. unfold w0 at 4. simpl loop. reflexivity.
    + rewrite world_at_loop. unfold w0. simpl loop. lia.
  - intros i Hi. unfold w0 at 1. simpl loop. split; [lia|].
    specialize (Hb (Datatypes.S i) ltac:(lia)). unfold converged_at in Hb.
    replace (Datatypes.S i - 1)%nat with i in Hb by lia. exact Hb.
Qed.

(** A return without the diagnostic is a return through [break], at an
    invocation numbered at most 199 whose residual passed the test. *)
Lemma build_loop_success_early (fuel : nat) (o : outcome S) :
  build_loop fuel buildFunction seed r_zero var = Some o ->
  printed o = [] ->
  (1 <= calls o <= 199)%Z
  /\ converged_at buildFunction seed r_zero var (Z.to_nat (calls o)) = true
  /\ result o = fabs (residual_at buildFunction seed r_zero var (Z.to_nat (calls o))).
Proof.
  intros H Hp. unfold build_loop in H. cbv zeta in H. fold w0 in H.
  destruct (while_1_returns _ _ _ _ H) as (k & Hk & Hr & Hc).
  assert (Hlt : (k < 200)%nat).
  { destruct (Nat.lt_ge_cases k 200) as [L|L]; [exact L|].
    specialize (Hc 199%nat ltac:(lia)).
    rewrite loop_body_cap in Hc; [discriminate|].
    rewrite world_at_loop. unfold w0. simpl loop. lia. }
  destruct (Z.eq_dec (loop (w_prob (world_at buildFunction w0 k)) + 1) 200) as [E|E].
  { rewrite loop_body_cap in Hr by exact E. injection Hr as <-. discriminate Hp. }
  destruct (within_tolerance buildFunction (world_at buildFunction w0 k)) eqn:Hw.
  - rewrite loop_body_converged in Hr by assumption. injection Hr as <-.
    rewrite world_at_loop in *. unfold w0 in E |- * at 3 4. simpl loop in *. simpl calls.
    simpl result. unfold converged_at, residual_at. fold w0.
    repeat match goal with
    | |- context [(Z.to_nat ?z - 1)%nat] => replace (Z.to_nat z - 1)%nat with k by lia
    end.
    repeat split; try lia. exact Hw.
  - rewrite loop_body_continue in Hr by assumption. discriminate.
Qed.

(** A return with the diagnostic is the return at the cap. *)
Lemma build_loop_cap_return (fuel : nat) (o : outcome S) :
  build_loop fuel buildFunction seed r_zero var = Some o ->
  printed o <> [] ->
  result o = -1 /\ calls o = 200%Z.
Proof.
  intros H Hp. unfold build_loop in H. cbv zeta in H. fold w0 in H.
  destruct (while_1_returns _ _ _ _ H) as (k & Hk & Hr & Hc).
  destruct (Z.eq_dec (loop (w_prob (world_at buildFunction w0 k)) + 1) 200) as [E|E].
  { rewrite loop_body_cap in Hr by exact E. injection Hr as <-. simpl. split; [reflexivity|exact E]. }
  destruct (within_tolerance buildFunction (world_at buildFunction w0 k)) eqn:Hw.
  - rewrite loop_body_converged in Hr by assumption. injection Hr as <-.
    exfalso. apply Hp. reflexivity.
  - rewrite loop_body_continue in Hr by assumption. discriminate.
Qed.

(** More fuel does not change what the loop returns. *)
Lemma while_1_more_fuel (max : Z) (fuel extra : nat) (w : world S) (o : outcome S) :
  while_1 fuel buildFunction max w = Some o ->
  while_1 (fuel + extra) buildFunction max w = Some o.
Proof.
  revert w. induction fuel as [|fuel IH]; intros w H; [discriminate|].
  cbn [Nat.add while_1] in *.
  destruct (loop_body buildFunction max w); [exact H | now apply IH].
Qed.

(** With fuel for 200 iterations [build_loop] returns. *)
Lemma build_loop_total (fuel : nat) :
  (200 <= fuel)%nat ->
  exists o, build_loop fuel buildFunction seed r_zero var = Some o.
Proof.
  intros Hf. unfold build_loop. cbv zeta.
  apply (while_1_total 200); [lia | exact Hf | reflexivity].
Qed.

(** Fuel beyond 200 is never used. *)
Lemma build_loop_fuel_irrelevant (fuel : nat) :
  (200 <= fuel)%nat ->
  build_loop fuel buildFunction seed r_zero var
  = build_loop 200 buildFunction seed r_zero var.
Proof.
  intros Hf. destruct (build_loop_total 200 (le_n _)) as [o Ho]. rewrite Ho.
  unfold build_loop in *. cbv zeta in *.
  replace fuel with (200 + (fuel - 200))%nat by lia.
  now apply while_1_more_fuel.
Qed.

End SolverFacts.

Section SolverArithmetic.

Import Floats.
Import Solver.
Local Open Scope float_scope.

(** A value that passes [fabs(diff) <= tolerance] is not NaN, so the
    [fabs(diff)] returned is non-negative. *)
Lemma fabs_nonneg (d t : float) : (fabs d <=? t) = true -> (0 <=? fabs d) = true.
Proof.
  unfold fabs. rewrite !leb_spec, abs_spec.
  replace (Prim2SF 0) with (S754_zero false) by reflexivity.
  destruct (Prim2SF d) as [s | s | | s m e]; simpl;
    try reflexivity; try discriminate.
Qed.

(** A boolean test computed over a range holds at each index of it. *)
Lemma forallb_range (f : nat -> bool) (lo len : nat) :
  forallb f (seq lo len) = true ->
  forall i, (lo <= i < lo + len)%nat -> f i = true.
Proof.
  intros H i Hi. rewrite forallb_forall in H. apply H. apply in_seq. exact Hi.
Qed.

End SolverArithmetic.

Section SolverClaims.

Import Floats.
Import Solver.
Local Open Scope float_scope.

(** C3, as the code has it.  For every build function, seed, tolerance
    and state, [build_loop] (given fuel for its 200 iterations) returns,
    and in one of two ways.  If the [n]-th invocation, [n <= 199], is the
    first whose residual satisfies [fabs(diff) <= tolerance], the loop
    stops there and returns that [fabs(diff)], which is non-negative, and
    prints nothing.  If none of the first 199 residuals passes the test,
    the build function is invoked a 200th time, the diagnostic is printed
    with that residual, and the value returned is [-1.0].  What the 200th
    residual is plays no part. *)
Theorem build_loop_stops_or_caps (S : Type) (buildFunction : BUILD S)
  (seed r_zero : float) (var : S) (fuel : nat) :
  (200 <= fuel)%nat ->
  (forall n, (1 <= n <= 199)%nat ->
     converged_at buildFunction seed r_zero var n = true ->
     (forall i, (1 <= i < n)%nat -> converged_at buildFunction seed r_zero var i = false) ->
     exists o, build_loop fuel buildFunction seed r_zero var = Some o
       /\ result o = fabs (residual_at buildFunction seed r_zero var n)
       /\ (0 <=? result o) = true
       /\ printed o = []
       /\ calls o = Z.of_nat n)
  /\ ((forall i, (1 <= i <= 199)%nat -> converged_at buildFunction seed r_zero var i = false) ->
      exists o, build_loop fuel buildFunction seed r_zero var = Some o
       /\ result o = -1
       /\ printed o = [NOTE_inner_loop_exceeded_max (residual_at buildFunction seed r_zero var 200)]
       /\ calls o = 200%Z).
Proof.
  intros Hf. split.
  - intros n Hn Hc Hb.
    rewrite (build_loop_converged_run buildFunction seed r_zero var fuel n) by (assumption || lia).
    eexists. split; [reflexivity|]. simpl. repeat split.
    unfold converged_at, within_tolerance in Hc. unfold residual_at.
    exact (fabs_nonneg _ _ Hc).
  - intros Hb.
    rewrite (build_loop_capped_run buildFunction seed r_zero var fuel) by assumption.
    eexists. split; [reflexivity|]. simpl. repeat split.
Qed.

Lemma build_loop_stops_or_caps_witness :
  (200 <= 200)%nat
  /\ exists o, build_loop 200 already_solved 0 call_site_tolerance tt = Some o
       /\ result o = fabs (residual_at already_solved 0 call_site_tolerance tt 1)
       /\ (0 <=? result o) = true
       /\ printed o = []
       /\ calls o = 1%Z.
Proof.
  split; [apply le_n|].
  apply (proj1 (build_loop_stops_or_caps unit already_solved 0 call_site_tolerance tt 200
                  (le_n 200)) 1%nat).
  - lia.
  - vm_compute. reflexivity.
  - intros i Hi. lia.
Defined.

(** C3, the claim as stated, fails when the residual first passes the
    test at the 200th invocation: with [late_zero] and tolerance [0.5]
    the 200th residual is [0], within tolerance, no earlier one is, and
    [build_loop] returns [-1.0], not [fabs(diff) = 0]. *)
Lemma build_loop_stops_or_caps_counterexample :
  converged_at late_zero 0 0.5 0%Z 200 = true
  /\ forallb (fun i => negb (converged_at late_zero 0 0.5 0%Z i)) (seq 1 199) = true
  /\ exists o, build_loop 200 late_zero 0 0.5 0%Z = Some o
       /\ result o = -1
       /\ (result o =? fabs (residual_at late_zero 0 0.5 0%Z 200)) = false.
Proof.
  split; [vm_compute; reflexivity|].
  split; [vm_compute; reflexivity|].
  eexists. split; [vm_compute; reflexivity|].
  split; vm_compute; reflexivity.
Qed.

(** C10.  The cap is tested after the call and before the tolerance.  If
    the residual first falls within tolerance at the 200th invocation,
    [build_loop] still prints the diagnostic and returns [-1.0]. Whenever
    the 200th invocation is reached the value returned is [-1.0]; a return
    of [fabs(diff)] (one without the diagnostic) happens at one of the
    first 199 invocations, whose residual passed the test. *)
Theorem build_loop_cap_before_tolerance (S : Type) (buildFunction : BUILD S)
  (seed r_zero : float) (var : S) (fuel : nat) :
  (200 <= fuel)%nat ->
  ((forall i, (1 <= i <= 199)%nat -> converged_at buildFunction seed r_zero var i = false) ->
   converged_at buildFunction seed r_zero var 200 = true ->
   exists o, build_loop fuel buildFunction seed r_zero var = Some o
     /\ result o = -1
     /\ printed o = [NOTE_inner_loop_exceeded_max (residual_at buildFunction seed r_zero var 200)]
     /\ calls o = 200%Z)
  /\ (forall o, build_loop fuel buildFunction seed r_zero var = Some o ->
        (calls o = 200%Z -> result o = -1)
        /\ (printed o = [] ->
            (1 <= calls o <= 199)%Z
            /\ converged_at buildFunction seed r_zero var (Z.to_nat (calls o)) = true
            /\ result o = fabs (residual_at buildFunction seed r_zero var (Z.to_nat (calls o))))).
Proof.
  intros Hf. split.
  - intros Hb _.
    rewrite (build_loop_capped_run buildFunction seed r_zero var fuel) by assumption.
    eexists. split; [reflexivity|]. simpl. repeat split.
  - intros o Ho. split.
    + intros Hc. destruct (printed o) as [|x l] eqn:Hp.
      * destruct (build_loop_success_early buildFunction seed r_zero var fuel o Ho Hp)
          as [Hr _]. lia.
      * apply (build_loop_cap_return buildFunction seed r_zero var fuel o Ho).
        rewrite Hp. discriminate.
    + intros Hp. exact (build_loop_success_early buildFunction seed r_zero var fuel o Ho Hp).
Qed.

Lemma build_loop_cap_before_tolerance_witness :
  (200 <= 200)%nat
  /\ converged_at late_zero 0 0.5 0%Z 200 = true
  /\ exists o, build_loop 200 late_zero 0 0.5 0%Z = Some o
       /\ result o = -1
       /\ printed o = [NOTE_inner_loop_exceeded_max (residual_at late_zero 0 0.5 0%Z 200)]
       /\ calls o = 200%Z.
Proof.
  split; [apply le_n|].
  assert (Hc : converged_at late_zero 0 0.5 0%Z 200 = true) by (vm_compute; reflexivity).
  split; [exact Hc|].
  apply (proj1 (build_loop_cap_before_tolerance Z late_zero 0 0.5 0%Z 200 (le_n 200)));
    [|exact Hc].
  intros i Hi.
  apply negb_true_iff.
  apply (forallb_range (fun i => negb (converged_at late_zero 0 0.5 0%Z i)) 1 199);
    [vm_compute; reflexivity | lia].
Defined.

(** C8, as the code has it.  Driven by [f(x) = x - 1.2345] with tolerance
    [1e-11] and seed [0], the loop converges at its 198th invocation: it
    prints nothing, returns a non-negative residual at most [1e-11], and
    leaves a seed within [1e-11] of [1.2345].  198 is under the cap of
    200, with one invocation to spare before the last that could succeed. *)
Theorem build_loop_synthetic_run :
  exists o, build_loop 200 synthetic 0 call_site_tolerance tt = Some o
    /\ calls o = 198%Z
    /\ (calls o < 200)%Z
    /\ printed o = []
    /\ (0 <=? result o) = true
    /\ (result o <=? call_site_tolerance) = true
    /\ (fabs (seed_out o - 1.2345) <=? call_site_tolerance) = true.
Proof.
  eexists. split; [vm_compute; reflexivity|].
  repeat split; vm_compute; reflexivity.
Qed.

(** C8, the claim as stated, fails on "well under 200 iterations": the
    run takes 198 invocations, more than nine tenths of the cap. *)
Lemma build_loop_synthetic_run_counterexample :
  exists o, build_loop 200 synthetic 0 call_site_tolerance tt = Some o
    /\ calls o = 198%Z
    /\ ~ well_under (calls o) 200.
Proof.
  eexists. split; [vm_compute; reflexivity|].
  split; [reflexivity|]. unfold well_under. simpl. lia.
Qed.

(** [build_loop] terminates: with fuel for 200 iterations it returns, the
    result does not depend on the fuel, and the build function has been
    invoked between 1 and 200 times. *)
Theorem build_loop_terminates (S : Type) (buildFunction : BUILD S)
  (seed r_zero : float) (var : S) (fuel : nat) :
  (200 <= fuel)%nat ->
  exists o, build_loop fuel buildFunction seed r_zero var = Some o
    /\ build_loop 200 buildFunction seed r_zero var = Some o
    /\ (1 <= calls o <= 200)%Z.
Proof.
  intros Hf.
  destruct (build_loop_total buildFunction seed r_zero var 200 (le_n _)) as [o Ho].
  exists o. rewrite build_loop_fuel_irrelevant by exact Hf.
  split; [exact Ho|]. split; [exact Ho|].
  destruct (printed o) as [|x l] eqn:Hp.
  - destruct (build_loop_success_early buildFunction seed r_zero var 200 o Ho Hp) as [Hc _].
    lia.
  - destruct (build_loop_cap_return buildFunction seed r_zero var 200 o Ho) as [_ Hc].
    + rewrite Hp. discriminate.
    + lia.
Qed.

Lemma build_loop_terminates_witness :
  (200 <= 300)%nat
  /\ exists o, build_loop 300 synthetic 0 call_site_tolerance tt = Some o
       /\ build_loop 200 synthetic 0 call_site_tolerance tt = Some o
       /\ (1 <= calls o <= 200)%Z.
Proof.
  split; [lia|].
  apply (build_loop_terminates unit synthetic 0 call_site_tolerance tt 300). lia.
Defined.

End SolverClaims.

(** ** A residual that is not a number *)

Section SolverEdge.

Import Floats.
Import Solver.
Local Open Scope float_scope.

(** A NaN residual moves nothing: every comparison of [update] fails. *)
Lemma update_nan (prob : PROB) (seed : float) : update nan prob seed = (seed, delta prob).
Proof. reflexivity. Qed.

(** NaN fails the convergence test, whatever the tolerance. *)
Lemma nan_not_within (t : float) : (fabs nan <=? t) = false.
Proof. unfold fabs. rewrite leb_spec. reflexivity. Qed.

Lemma world_at_nan_seed (S : Type) (buildFunction : BUILD S) (seed : float) (w : world S)
  (k : nat) :
  (forall v, fst (buildFunction seed v) = (nan, seed)) ->
  w_seed w = seed -> w_seed (world_at buildFunction w k) = seed.
Proof.
  intros Hn Hw. induction k as [|k IH]; [exact Hw|].
  cbn [world_at]. unfold next_world. rewrite IH.
  specialize (Hn (w_var (world_at buildFunction w k))).
  destruct (buildFunction seed (w_var (world_at buildFunction w k))) as [[diff seed'] var'].
  cbn [fst] in Hn. injection Hn as -> ->. rewrite update_nan. reflexivity.
Qed.

(** A build function whose residual at the seed is NaN, whatever the
    state, and which leaves the seed alone: [build_loop] never moves the
    seed, invokes the function 200 times, prints the diagnostic and
    returns [-1.0]. *)
Theorem build_loop_nan_residual (S : Type) (buildFunction : BUILD S)
  (seed r_zero : float) (var : S) (fuel : nat) :
  (200 <= fuel)%nat ->
  (forall v, fst (buildFunction seed v) = (nan, seed)) ->
  exists o, build_loop fuel buildFunction seed r_zero var = Some o
    /\ result o = -1
    /\ seed_out o = seed
    /\ printed o = [NOTE_inner_loop_exceeded_max nan]
    /\ calls o = 200%Z.
Proof.
  intros Hf Hn.
  assert (Hs : forall k, w_seed (world_at buildFunction (initial_world seed r_zero var) k) = seed)
    by (intros k; apply world_at_nan_seed; [exact Hn | reflexivity]).
  assert (Hr : forall n, residual_at buildFunction seed r_zero var n = nan).
  { intros n. unfold residual_at, residual. rewrite Hs, Hn. reflexivity. }
  rewrite (build_loop_capped_run buildFunction seed r_zero var fuel Hf).
  - eexists. split; [reflexivity|]. cbn [result seed_out printed calls].
    split; [reflexivity|]. split; [rewrite Hs, Hn; reflexivity|].
    split; [rewrite Hr; reflexivity | reflexivity].
  - intros i Hi. unfold converged_at, within_tolerance, residual.
    rewrite Hs, Hn. cbn [fst]. apply nan_not_within.
Qed.

Lemma build_loop_nan_residual_witness :
  (200 <= 200)%nat
  /\ exists o, build_loop 200 (fun seed (var : unit) => (nan, seed, var)) 0 call_site_tolerance tt
               = Some o
       /\ result o = -1
       /\ seed_out o = 0
       /\ printed o = [NOTE_inner_loop_exceeded_max nan]
       /\ calls o = 200%Z.
Proof.
  split; [lia|].
  apply (build_loop_nan_residual unit (fun seed (var : unit) => (nan, seed, var)) 0
           call_site_tolerance tt 200 (le_n _)).
  intros v. reflexivity.
Defined.

End SolverEdge.
